(** * proxytrace: the telemetry ingestion pipeline of [src/proxytrace/app.py]

  A shallow embedding of the span builder, the worker loop, the socket
  reader, the batch exporter, the settings and the shutdown of the
  program, followed by the properties the specification states about them
  and by further properties of the code. *)

From Stdlib Require Import ZArith List String Ascii Strings.Byte Bool Lia.
From Stdlib Require Import Floats.SpecFloat Numbers.DecimalString.
From Stdlib Require DecimalPos.
Import ListNotations.

Set Warnings "-register-all".

Local Open Scope string_scope.
Local Open Scope Z_scope.

(** ** Python values and built-ins used by the service *)

Module Py.

(** The exception classes that can reach the handlers of the service.  All
    of them derive from [Exception], so [except Exception] catches each. *)
Inductive exn : Set :=
| AttributeError
| TypeError
| ValueError
| OverflowError
| JSONDecodeError
| QueueEmpty
| HTTPError
| ConnectionError
| RetryError
| CircuitBreakerError
| InfluxError.

Inductive result (A : Type) : Type :=
| Ok (a : A)
| Raise (e : exn).
Arguments Ok {A} a.
Arguments Raise {A} e.

Definition bind {A B} (m : result A) (k : A -> result B) : result B :=
  match m with
  | Ok a => k a
  | Raise e => Raise e
  end.

(** What [orjson.loads] yields: [None], [bool], [int], [float], [str],
    [list] and [dict].  A dict is kept as its items, in insertion order,
    one item per key.  Strings are ASCII text. *)
Inductive json : Type :=
| JNull
| JBool (b : bool)
| JInt (n : Z)
| JFloat (f : spec_float)
| JStr (s : string)
| JArr (l : list json)
| JObj (items : list (string * json)).

Fixpoint lookup (k : string) (items : list (string * json)) : option json :=
  match items with
  | [] => None
  | (k', v) :: rest => if String.eqb k k' then Some v else lookup k rest
  end.

(** [record.get(key, default)]: only a dict has the method. *)
Definition get (record : json) (key : string) (default : json) : result json :=
  match record with
  | JObj items =>
      match lookup key items with
      | Some v => Ok v
      | None => Ok default
      end
  | _ => Raise AttributeError
  end.

(** [key in record], reached only after [record.get] has succeeded. *)
Definition contains (record : json) (key : string) : bool :=
  match record with
  | JObj items => match lookup key items with Some _ => true | None => false end
  | _ => false
  end.

(** *** Characters *)

Definition code (c : ascii) : Z := Z.of_nat (nat_of_ascii c).

Definition is_digit (c : ascii) : bool := (48 <=? code c) && (code c <=? 57).

(** ASCII whitespace: what [int], [float] and [bytes.strip] skip. *)
Definition is_space (c : ascii) : bool :=
  ((9 <=? code c) && (code c <=? 13)) || (code c =? 32).

Fixpoint str_forallb (p : ascii -> bool) (s : string) : bool :=
  match s with
  | EmptyString => true
  | String c s' => p c && str_forallb p s'
  end.

Fixpoint str_filter (p : ascii -> bool) (s : string) : string :=
  match s with
  | EmptyString => EmptyString
  | String c s' => if p c then String c (str_filter p s') else str_filter p s'
  end.

Fixpoint str_take (n : nat) (s : string) : string :=
  match n, s with
  | S n', String c s' => String c (str_take n' s')
  | _, _ => EmptyString
  end.

Fixpoint str_repeat (c : ascii) (n : nat) : string :=
  match n with
  | O => EmptyString
  | S n' => String c (str_repeat c n')
  end.

Fixpoint lstrip (p : ascii -> bool) (s : string) : string :=
  match s with
  | EmptyString => EmptyString
  | String c s' => if p c then lstrip p s' else s
  end.

Fixpoint rstrip (p : ascii -> bool) (s : string) : string :=
  match s with
  | EmptyString => EmptyString
  | String c s' =>
      match rstrip p s' with
      | EmptyString => if p c then EmptyString else String c EmptyString
      | r => String c r
      end
  end.

Definition strip (p : ascii -> bool) (s : string) : string :=
  rstrip p (lstrip p s).

(** [s.replace('-', '')] *)
Definition remove_dashes (s : string) : string :=
  str_filter (fun c => negb (Ascii.eqb c "-")) s.

(** [s.startswith(c)] for a one-character prefix. *)
Definition startswith (s : string) (c : ascii) : bool :=
  match s with
  | String c' _ => Ascii.eqb c' c
  | EmptyString => false
  end.

(** *** [int(x)] *)

(** Decimal digits with single underscores between them, as [int] accepts
    them in a [str]; [prev] tells whether the previous character was a
    digit. *)
Fixpoint digits_value (s : string) (prev : bool) (acc : Z) : option Z :=
  match s with
  | EmptyString => if prev then Some acc else None
  | String c s' =>
      if is_digit c then digits_value s' true (10 * acc + (code c - 48))
      else if Ascii.eqb c "_" then
             if prev then digits_value s' false acc else None
           else None
  end.

Definition int_of_str (s : string) : result Z :=
  let body := strip is_space s in
  let parse digits :=
    match digits_value digits false 0 with
    | Some n => Ok n
    | None => Raise ValueError
    end in
  match body with
  | String "-" rest => bind (parse rest) (fun n => Ok (- n))
  | String "+" rest => parse rest
  | _ => parse body
  end.

(** Truncation of a double towards zero; [nan] and the infinities have no
    integer. *)
Definition int_of_float (f : spec_float) : result Z :=
  match f with
  | S754_zero _ => Ok 0
  | S754_infinity _ => Raise OverflowError
  | S754_nan => Raise ValueError
  | S754_finite sign m e =>
      let magnitude := Z.shiftl (Zpos m) e in
      Ok (if sign then - magnitude else magnitude)
  end.

Definition int (v : json) : result Z :=
  match v with
  | JNull => Raise TypeError
  | JBool b => Ok (if b then 1 else 0)
  | JInt n => Ok n
  | JFloat f => int_of_float f
  | JStr s => int_of_str s
  | JArr _ => Raise TypeError
  | JObj _ => Raise TypeError
  end.

(** Truthiness of an [int]. *)
Definition truthy (n : Z) : bool := negb (n =? 0).

(** *** [float(x)] *)

(** A Python float, kept as the value it was converted from: the service
    only forwards these numbers. *)
Inductive pyfloat : Type :=
| FloatOfInt (n : Z)
| FloatLit (f : spec_float)
| FloatOfStr (s : string).

Definition lower (c : ascii) : ascii :=
  if (65 <=? code c) && (code c <=? 90)
  then ascii_of_nat (nat_of_ascii c + 32) else c.

Fixpoint str_map (f : ascii -> ascii) (s : string) : string :=
  match s with
  | EmptyString => EmptyString
  | String c s' => String (f c) (str_map f s')
  end.

(** Underscores may only stand between two digits. *)
Fixpoint underscores_ok (s : string) (prev : ascii) : bool :=
  match s with
  | EmptyString => negb (Ascii.eqb prev "_")
  | String c s' =>
      (if Ascii.eqb c "_" then is_digit prev
       else negb (Ascii.eqb prev "_") || is_digit c)
      && underscores_ok s' c
  end.

Fixpoint skip_digits (s : string) : nat * string :=
  match s with
  | String c s' =>
      if is_digit c then let '(n, r) := skip_digits s' in (S n, r) else (O, s)
  | EmptyString => (O, s)
  end.

Definition skip_sign (s : string) : string :=
  match s with
  | String "+" r => r
  | String "-" r => r
  | _ => s
  end.

(** The decimal grammar of [float]: digits, an optional point, digits, an
    optional exponent; at least one digit in the mantissa. *)
Definition decimal_ok (s : string) : bool :=
  let '(n1, r1) := skip_digits s in
  let '(n2, r2) :=
    match r1 with
    | String "." r => skip_digits r
    | _ => (O, r1)
    end in
  match (n1 + n2)%nat with
  | O => false
  | _ =>
      match r2 with
      | EmptyString => true
      | String c r =>
          if Ascii.eqb (lower c) "e" then
            match skip_digits (skip_sign r) with
            | (S _, EmptyString) => true
            | _ => false
            end
          else false
      end
  end.

Definition float_str_ok (s : string) : bool :=
  let body := strip is_space s in
  underscores_ok body " "
  && (let unsigned := skip_sign (str_filter (fun c => negb (Ascii.eqb c "_")) body) in
      let word := str_map lower unsigned in
      String.eqb word "inf" || String.eqb word "infinity"
      || String.eqb word "nan" || decimal_ok unsigned).

Definition float (v : json) : result pyfloat :=
  match v with
  | JNull => Raise TypeError
  | JBool b => Ok (FloatOfInt (if b then 1 else 0))
  | JInt n =>
      if Z.abs n <? 2 ^ 1024 - 2 ^ 970 then Ok (FloatOfInt n)
      else Raise OverflowError
  | JFloat f => Ok (FloatLit f)
  | JStr s => if float_str_ok s then Ok (FloatOfStr s) else Raise ValueError
  | JArr _ => Raise TypeError
  | JObj _ => Raise TypeError
  end.

(** *** [format(n, '016x')] and [str(n)] *)

Definition hex_digit (d : Z) : ascii :=
  ascii_of_nat (Z.to_nat (if d <? 10 then 48 + d else 87 + d)).

Fixpoint hex_digits (fuel : nat) (n : Z) (acc : string) : string :=
  match fuel with
  | O => acc
  | S fuel' =>
      if n <? 16 then String (hex_digit n) acc
      else hex_digits fuel' (n / 16) (String (hex_digit (n mod 16)) acc)
  end.

(** Lowercase hexadecimal digits of a natural number, without padding. *)
Definition hex (n : Z) : string :=
  hex_digits (S (Z.to_nat (Z.log2 n))) n EmptyString.

(** Sign-aware zero padding to a minimum width of 16: the sign comes first,
    the zeros fill the space between sign and digits, and nothing is cut. *)
Definition format_016x (n : Z) : string :=
  let digits := hex (Z.abs n) in
  let sign := if n <? 0 then "-" else "" in
  sign ++ str_repeat "0" (16 - String.length sign - String.length digits) ++ digits.

Definition str_of_int (n : Z) : string := NilZero.string_of_int (Z.to_int n).

End Py.

Notation "x <- m ;; k" := (Py.bind m (fun x => k))
(at level 61, m at next level, right associativity).

(** ** The span builder: [build_span] *)

Module Span.
Import Py.

Inductive number : Type :=
| Int (n : Z)
| Float (f : pyfloat).

Inductive attr_value : Type :=
| stringValue (v : json)
| intValue (n : Z)
| doubleValue (x : number).

Record otlp_span : Type := {
  traceId : string;
  spanId : string;
  parentSpanId : string;
  name : json;
  kind : string;
  startTimeUnixNano : string;
  endTimeUnixNano : string;
  attributes : list (string * attr_value)
}.

Record scope_span : Type := { spans : list otlp_span }.

Record resource_span : Type := {
  resource_attributes : list (string * attr_value);
  scopeSpans : list scope_span
}.

(** The dict [build_span] returns.  [_guid] is a [str] in every span that is
    built, because [guid.replace] has been called on it. *)
Record span : Type := {
  _guid : string;
  _trace_id : string;
  resourceSpans : list resource_span
}.

(** [guid.replace('-', '')]: only a [str] has the method among the values
    [orjson.loads] yields. *)
Definition replace_dashes (guid : json) : result (string * string) :=
  match guid with
  | JStr s => Ok (s, remove_dashes s)
  | _ => Raise AttributeError
  end.

(** [int(record.get(key, 0))] and [float(record.get(key, 0))] *)
Definition get_int (record : json) (key : string) : result Z :=
  v <- get record key (JInt 0) ;; int v.

Definition get_float (record : json) (key : string) : result pyfloat :=
  v <- get record key (JInt 0) ;; float v.

(** [now] is [int(time.time())], the wall clock in whole seconds. *)
Definition build_span (now : Z) (record : json) : result span :=
  let epoch_s := now in
  rel <- get_int record "ProcStartTimeRelativeMs" ;;
  let start_ns := epoch_s * 1000000000 + rel * 1000000 in
  life <- get_int record "ProcLifetimeMs" ;;
  let end_ns := start_ns + life * 1000000 in
  pid <- get_int record "ProcID" ;;
  let span_id := format_016x pid in
  ppid <- get_int record "ProcParentID" ;;
  parent_id <-
    (if truthy ppid
     then (p <- get_int record "ProcParentID" ;; Ok (format_016x p))
     else Ok "") ;;
  let is_logoff := contains record "LogoffProcType" in
  service_name <-
    (if is_logoff
     then (logon_type <- get record "LogonProcType" (JStr "unknown-service") ;;
           get record "LogoffProcType" logon_type)
     else get record "LogonProcType" (JStr "unknown-service")) ;;
  let event_type := if is_logoff then "logoff" else "logon" in
  guid_v <- get record "SessionGUID" (JStr "") ;;
  gb <- replace_dashes guid_v ;;
  let guid := fst gb in
  let base_trace := snd gb in
  let trace_id :=
    if is_logoff
    then str_take 32 ("2" ++ base_trace ++ str_repeat "0" 31)
    else str_take 32 ("1" ++ base_trace ++ str_repeat "0" 31) in
  proc_name <- get record "ProcName" (JStr "unknown-span") ;;
  proc_user <- get record "ProcUser" (JStr "unknown-user") ;;
  cpu <- get_int record "ProcCPUTimeMs" ;;
  working_set <- get_float record "ProcWorkingSetMB" ;;
  net <- get_float record "ProcNetKBPS" ;;
  io_read_count <- get_int record "ProcIOReadCount" ;;
  io_write_count <- get_int record "ProcIOWriteCount" ;;
  io_read_mb <- get_int record "ProcIOReadMB" ;;
  io_write_mb <- get_int record "ProcIOWriteMB" ;;
  latency_read <- get_int record "ProcIOLatencyReadMs2" ;;
  latency_write <- get_int record "ProcIOLatencyWriteMs2" ;;
  lifetime <- get_int record "ProcLifetimeMs" ;;
  Ok {|
    _guid := guid;
    _trace_id := trace_id;
    resourceSpans := [
      {| resource_attributes := [("service.name", stringValue service_name)];
         scopeSpans := [
           {| spans := [
                {| traceId := trace_id;
                   spanId := span_id;
                   parentSpanId := parent_id;
                   name := proc_name;
                   kind := "SPAN_KIND_INTERNAL";
                   startTimeUnixNano := str_of_int start_ns;
                   endTimeUnixNano := str_of_int end_ns;
                   attributes := [
                     ("ProcUser", stringValue proc_user);
                     ("ProcCPUTimeMs", intValue cpu);
                     ("ProcWorkingSetMB", doubleValue (Float working_set));
                     ("ProcNetKBPS", doubleValue (Float net));
                     ("ProcIOReadCount", intValue io_read_count);
                     ("ProcIOWriteCount", intValue io_write_count);
                     ("ProcIOReadMB", doubleValue (Int io_read_mb));
                     ("ProcIOWriteMB", doubleValue (Int io_write_mb));
                     ("ProcIOLatencyReadMs2", intValue latency_read);
                     ("ProcIOLatencyWriteMs2", intValue latency_write);
                     ("ProcLifetimeMs", intValue lifetime);
                     ("event_type", stringValue (JStr event_type))
                   ] |} ] |} ] |} ]
  |}.

(** The single OTLP span inside a built span:
    [span['resourceSpans'][0]['scopeSpans'][0]['spans'][0]]. *)
Definition otlp (s : span) : option otlp_span :=
  match resourceSpans s with
  | rs :: _ =>
      match scopeSpans rs with
      | ss :: _ => match spans ss with o :: _ => Some o | [] => None end
      | [] => None
      end
  | [] => None
  end.

(** The trace id of the older variant, [app copy.py]: no event-type prefix. *)
Definition trace_id_copy (guid : string) : string :=
  str_take 32 (remove_dashes guid ++ str_repeat "0" 32).

End Span.

(** ** Shared state of the pipeline *)

Module Pipeline.
Import Py Span.

Definition bytes : Type := list byte.

Definition newline : byte := x0a.

(** Whitespace as [bytes.strip] sees it. *)
Definition is_space_byte (b : byte) : bool :=
  match b with
  | x09 | x0a | x0b | x0c | x0d | x20 => true
  | _ => false
  end.

Fixpoint drop_while (p : byte -> bool) (l : bytes) : bytes :=
  match l with
  | [] => []
  | b :: rest => if p b then drop_while p rest else l
  end.

(** [line.strip()] *)
Definition bytes_strip (line : bytes) : bytes :=
  rev (drop_while is_space_byte (rev (drop_while is_space_byte line))).

(** Truthiness of a [bytes], [str] or [list] value: not empty. *)
Definition nonempty {A} (l : list A) : bool :=
  match l with [] => false | _ :: _ => true end.

Definition str_nonempty (s : string) : bool :=
  match s with EmptyString => false | String _ _ => true end.

Inductive http_outcome : Type :=
| Status (status_code : Z)
| TransportFailure.

(** An InfluxDB [Point]. *)
Record point : Type := {
  measurement : string;
  tags : list (string * string);
  fields : list (string * Z);
  timestamp : Z
}.

Inductive log_entry : Type :=
| ParseFailed (e : exn)
| ExportFailed (e : exn).

(** Everything outside the program: the JSON decoder, and what the k-th
    call of each effectful primitive observes.  Clock readings are in
    nanoseconds; [write_at] tells whether the sink takes the point that the
    k-th call of [write_api.write] has handed to the client. *)
Record environment : Type := {
  loads : bytes -> result json;
  time_at : nat -> Z;
  arrivals_at : nat -> list span;
  post_at : nat -> http_outcome;
  write_at : nat -> bool;
  is_set_at : nat -> bool
}.

Inductive breaker_state : Type :=
| Closed (fail_counter : Z)
| Open (opened_at : Z)
| HalfOpen.

(** The module-level globals of [app.py]; the batches passed to
    [send_batch], the payloads passed to [session.post] and the points
    the sink has taken so far; and how often each primitive of the
    environment has been called. *)
Record state : Type := {
  records_received : Z;
  records_parsed : Z;
  batches_sent : Z;
  export_failures : Z;
  span_queue_size : Z;
  batch_latency : Z;
  recv_queue : list bytes;
  span_queue : list span;
  breaker : breaker_state;
  logged : list log_entry;
  dispatched : list (list span);
  posted : list (list resource_span);
  written : list point;
  clock_reads : nat;
  gets : nat;
  posts : nat;
  writes : nat;
  checks : nat
}.

Definition initial : state := {|
  records_received := 0;
  records_parsed := 0;
  batches_sent := 0;
  export_failures := 0;
  span_queue_size := 0;
  batch_latency := 0;
  recv_queue := [];
  span_queue := [];
  breaker := Closed 0;
  logged := [];
  dispatched := [];
  posted := [];
  written := [];
  clock_reads := 0;
  gets := 0;
  posts := 0;
  writes := 0;
  checks := 0
|}.

(** Field updates. *)
Definition set_records_received (v : Z) (st : state) : state :=
  {| records_received := v; records_parsed := records_parsed st;
     batches_sent := batches_sent st; export_failures := export_failures st;
     span_queue_size := span_queue_size st;
     batch_latency := batch_latency st; recv_queue := recv_queue st;
     span_queue := span_queue st; breaker := breaker st;
     logged := logged st; dispatched := dispatched st; posted := posted st;
     written := written st; clock_reads := clock_reads st; gets := gets st;
     posts := posts st; writes := writes st; checks := checks st |}.

Definition set_records_parsed (v : Z) (st : state) : state :=
  {| records_received := records_received st; records_parsed := v;
     batches_sent := batches_sent st; export_failures := export_failures st;
     span_queue_size := span_queue_size st;
     batch_latency := batch_latency st; recv_queue := recv_queue st;
     span_queue := span_queue st; breaker := breaker st;
     logged := logged st; dispatched := dispatched st; posted := posted st;
     written := written st; clock_reads := clock_reads st; gets := gets st;
     posts := posts st; writes := writes st; checks := checks st |}.

Definition set_batches_sent (v : Z) (st : state) : state :=
  {| records_received := records_received st;
     records_parsed := records_parsed st; batches_sent := v;
     export_failures := export_failures st;
     span_queue_size := span_queue_size st;
     batch_latency := batch_latency st; recv_queue := recv_queue st;
     span_queue := span_queue st; breaker := breaker st;
     logged := logged st; dispatched := dispatched st; posted := posted st;
     written := written st; clock_reads := clock_reads st; gets := gets st;
     posts := posts st; writes := writes st; checks := checks st |}.

Definition set_export_failures (v : Z) (st : state) : state :=
  {| records_received := records_received st;
     records_parsed := records_parsed st; batches_sent := batches_sent st;
     export_failures := v; span_queue_size := span_queue_size st;
     batch_latency := batch_latency st; recv_queue := recv_queue st;
     span_queue := span_queue st; breaker := breaker st;
     logged := logged st; dispatched := dispatched st; posted := posted st;
     written := written st; clock_reads := clock_reads st; gets := gets st;
     posts := posts st; writes := writes st; checks := checks st |}.

Definition set_span_queue_size (v : Z) (st : state) : state :=
  {| records_received := records_received st;
     records_parsed := records_parsed st; batches_sent := batches_sent st;
     export_failures := export_failures st; span_queue_size := v;
     batch_latency := batch_latency st; recv_queue := recv_queue st;
     span_queue := span_queue st; breaker := breaker st;
     logged := logged st; dispatched := dispatched st; posted := posted st;
     written := written st; clock_reads := clock_reads st; gets := gets st;
     posts := posts st; writes := writes st; checks := checks st |}.

Definition set_batch_latency (v : Z) (st : state) : state :=
  {| records_received := records_received st;
     records_parsed := records_parsed st; batches_sent := batches_sent st;
     export_failures := export_failures st;
     span_queue_size := span_queue_size st; batch_latency := v;
     recv_queue := recv_queue st; span_queue := span_queue st;
     breaker := breaker st; logged := logged st;
     dispatched := dispatched st; posted := posted st;
     written := written st; clock_reads := clock_reads st; gets := gets st;
     posts := posts st; writes := writes st; checks := checks st |}.

Definition set_recv_queue (v : list bytes) (st : state) : state :=
  {| records_received := records_received st;
     records_parsed := records_parsed st; batches_sent := batches_sent st;
     export_failures := export_failures st;
     span_queue_size := span_queue_size st;
     batch_latency := batch_latency st; recv_queue := v;
     span_queue := span_queue st; breaker := breaker st;
     logged := logged st; dispatched := dispatched st; posted := posted st;
     written := written st; clock_reads := clock_reads st; gets := gets st;
     posts := posts st; writes := writes st; checks := checks st |}.

Definition set_span_queue (v : list span) (st : state) : state :=
  {| records_received := records_received st;
     records_parsed := records_parsed st; batches_sent := batches_sent st;
     export_failures := export_failures st;
     span_queue_size := span_queue_size st;
     batch_latency := batch_latency st; recv_queue := recv_queue st;
     span_queue := v; breaker := breaker st; logged := logged st;
     dispatched := dispatched st; posted := posted st;
     written := written st; clock_reads := clock_reads st; gets := gets st;
     posts := posts st; writes := writes st; checks := checks st |}.

Definition set_breaker (v : breaker_state) (st : state) : state :=
  {| records_received := records_received st;
     records_parsed := records_parsed st; batches_sent := batches_sent st;
     export_failures := export_failures st;
     span_queue_size := span_queue_size st;
     batch_latency := batch_latency st; recv_queue := recv_queue st;
     span_queue := span_queue st; breaker := v; logged := logged st;
     dispatched := dispatched st; posted := posted st;
     written := written st; clock_reads := clock_reads st; gets := gets st;
     posts := posts st; writes := writes st; checks := checks st |}.

Definition set_logged (v : list log_entry) (st : state) : state :=
  {| records_received := records_received st;
     records_parsed := records_parsed st; batches_sent := batches_sent st;
     export_failures := export_failures st;
     span_queue_size := span_queue_size st;
     batch_latency := batch_latency st; recv_queue := recv_queue st;
     span_queue := span_queue st; breaker := breaker st; logged := v;
     dispatched := dispatched st; posted := posted st;
     written := written st; clock_reads := clock_reads st; gets := gets st;
     posts := posts st; writes := writes st; checks := checks st |}.

Definition set_dispatched (v : list (list span)) (st : state) : state :=
  {| records_received := records_received st;
     records_parsed := records_parsed st; batches_sent := batches_sent st;
     export_failures := export_failures st;
     span_queue_size := span_queue_size st;
     batch_latency := batch_latency st; recv_queue := recv_queue st;
     span_queue := span_queue st; breaker := breaker st;
     logged := logged st; dispatched := v; posted := posted st;
     written := written st; clock_reads := clock_reads st; gets := gets st;
     posts := posts st; writes := writes st; checks := checks st |}.

Definition set_posted (v : list (list resource_span)) (st : state) : state :=
  {| records_received := records_received st;
     records_parsed := records_parsed st; batches_sent := batches_sent st;
     export_failures := export_failures st;
     span_queue_size := span_queue_size st;
     batch_latency := batch_latency st; recv_queue := recv_queue st;
     span_queue := span_queue st; breaker := breaker st;
     logged := logged st; dispatched := dispatched st; posted := v;
     written := written st; clock_reads := clock_reads st; gets := gets st;
     posts := posts st; writes := writes st; checks := checks st |}.

Definition set_written (v : list point) (st : state) : state :=
  {| records_received := records_received st;
     records_parsed := records_parsed st; batches_sent := batches_sent st;
     export_failures := export_failures st;
     span_queue_size := span_queue_size st;
     batch_latency := batch_latency st; recv_queue := recv_queue st;
     span_queue := span_queue st; breaker := breaker st;
     logged := logged st; dispatched := dispatched st; posted := posted st;
     written := v; clock_reads := clock_reads st; gets := gets st;
     posts := posts st; writes := writes st; checks := checks st |}.

Definition set_clock_reads (v : nat) (st : state) : state :=
  {| records_received := records_received st;
     records_parsed := records_parsed st; batches_sent := batches_sent st;
     export_failures := export_failures st;
     span_queue_size := span_queue_size st;
     batch_latency := batch_latency st; recv_queue := recv_queue st;
     span_queue := span_queue st; breaker := breaker st;
     logged := logged st; dispatched := dispatched st; posted := posted st;
     written := written st; clock_reads := v; gets := gets st;
     posts := posts st; writes := writes st; checks := checks st |}.

Definition set_gets (v : nat) (st : state) : state :=
  {| records_received := records_received st;
     records_parsed := records_parsed st; batches_sent := batches_sent st;
     export_failures := export_failures st;
     span_queue_size := span_queue_size st;
     batch_latency := batch_latency st; recv_queue := recv_queue st;
     span_queue := span_queue st; breaker := breaker st;
     logged := logged st; dispatched := dispatched st; posted := posted st;
     written := written st; clock_reads := clock_reads st; gets := v;
     posts := posts st; writes := writes st; checks := checks st |}.

Definition set_posts (v : nat) (st : state) : state :=
  {| records_received := records_received st;
     records_parsed := records_parsed st; batches_sent := batches_sent st;
     export_failures := export_failures st;
     span_queue_size := span_queue_size st;
     batch_latency := batch_latency st; recv_queue := recv_queue st;
     span_queue := span_queue st; breaker := breaker st;
     logged := logged st; dispatched := dispatched st; posted := posted st;
     written := written st; clock_reads := clock_reads st; gets := gets st;
     posts := v; writes := writes st; checks := checks st |}.

Definition set_writes (v : nat) (st : state) : state :=
  {| records_received := records_received st;
     records_parsed := records_parsed st; batches_sent := batches_sent st;
     export_failures := export_failures st;
     span_queue_size := span_queue_size st;
     batch_latency := batch_latency st; recv_queue := recv_queue st;
     span_queue := span_queue st; breaker := breaker st;
     logged := logged st; dispatched := dispatched st; posted := posted st;
     written := written st; clock_reads := clock_reads st; gets := gets st;
     posts := posts st; writes := v; checks := checks st |}.

Definition set_checks (v : nat) (st : state) : state :=
  {| records_received := records_received st;
     records_parsed := records_parsed st; batches_sent := batches_sent st;
     export_failures := export_failures st;
     span_queue_size := span_queue_size st;
     batch_latency := batch_latency st; recv_queue := recv_queue st;
     span_queue := span_queue st; breaker := breaker st;
     logged := logged st; dispatched := dispatched st; posted := posted st;
     written := written st; clock_reads := clock_reads st; gets := gets st;
     posts := posts st; writes := writes st; checks := v |}.

(** Statements that change the state and may raise: the state reached when
    an exception is raised is kept. *)
Definition M (A : Type) : Type := state -> result A * state.

Definition ret {A} (a : A) : M A := fun st => (Ok a, st).

Definition raise {A} (e : exn) : M A := fun st => (Raise e, st).

Definition mbind {A B} (m : M A) (k : A -> M B) : M B :=
  fun st =>
    match m st with
    | (Ok a, st') => k a st'
    | (Raise e, st') => (Raise e, st')
    end.

Definition lift {A} (r : result A) : M A := fun st => (r, st).

Definition modify (f : state -> state) : M unit := fun st => (Ok tt, f st).

Definition read {A} (f : state -> A) : M A := fun st => (Ok (f st), st).

(** [try: body  except <those in catches>: handler] *)
Definition try_except {A} (body : M A) (catches : exn -> bool)
  (handler : exn -> M A) : M A :=
  fun st =>
    match body st with
    | (Ok a, st') => (Ok a, st')
    | (Raise e, st') => if catches e then handler e st' else (Raise e, st')
    end.

(** [except Exception]: every class of [exn] derives from it. *)
Definition any_exception (e : exn) : bool := true.

Definition only_empty (e : exn) : bool :=
  match e with QueueEmpty => true | _ => false end.

(** *** The primitives the threads call *)

(** [Counter.inc()] on each of the four counters, [Summary.observe] and
    [Gauge.set]. *)
Definition inc_records_received : M unit :=
  modify (fun st => set_records_received (records_received st + 1) st).

Definition inc_records_parsed : M unit :=
  modify (fun st => set_records_parsed (records_parsed st + 1) st).

Definition inc_batches_sent : M unit :=
  modify (fun st => set_batches_sent (batches_sent st + 1) st).

Definition inc_export_failures : M unit :=
  modify (fun st => set_export_failures (export_failures st + 1) st).

Definition observe_batch_latency : M unit :=
  modify (fun st => set_batch_latency (batch_latency st + 1) st).

(** [span_queue_size.set(span_queue.qsize())] *)
Definition publish_queue_size : M unit :=
  modify (fun st => set_span_queue_size (Z.of_nat (List.length (span_queue st))) st).

Definition log_error (entry : log_entry) : M unit :=
  modify (fun st => set_logged (logged st ++ [entry])%list st).

(** [time.time()], in nanoseconds. *)
Definition time (env : environment) : M Z :=
  fun st => (Ok (time_at env (clock_reads st)), set_clock_reads (S (clock_reads st)) st).

(** [shutdown_event.is_set()] *)
Definition is_set (env : environment) : M bool :=
  fun st => (Ok (is_set_at env (checks st)), set_checks (S (checks st)) st).

(** [queue.put(item)]: the call returns once the item is in the queue; the
    wait for a free slot of a full queue is not part of the state. *)
Definition recv_queue_put (line : bytes) : M unit :=
  modify (fun st => set_recv_queue (recv_queue st ++ [line])%list st).

Definition span_queue_put (s : span) : M unit :=
  modify (fun st => set_span_queue (span_queue st ++ [s])%list st).

(** [recv_queue.get(timeout=1)] *)
Definition recv_queue_get : M bytes :=
  fun st =>
    match recv_queue st with
    | line :: rest => (Ok line, set_recv_queue rest st)
    | [] => (Raise QueueEmpty, st)
    end.

(** [span_queue.get(timeout=t)]: a negative timeout is refused before the
    queue is looked at; otherwise the spans the workers put until the call
    returns are in the queue, and the oldest is taken if there is one. *)
Definition span_queue_get (env : environment) (timeout : Z) : M span :=
  fun st =>
    if timeout <? 0 then (Raise ValueError, st)
    else
      let st1 := set_gets (S (gets st)) st in
      match (span_queue st ++ arrivals_at env (gets st))%list with
      | s :: rest => (Ok s, set_span_queue rest st1)
      | [] => (Raise QueueEmpty, st1)
      end.

End Pipeline.

Notation "x <~ m ;; k" := (Pipeline.mbind m (fun x => k))
  (at level 61, m at next level, right associativity).
Notation "m ;;; k" := (Pipeline.mbind m (fun _ => k))
  (at level 61, right associativity).

(** ** The record processor: [worker] *)

Module Worker.
Import Py Span Pipeline.

(** The statements of the inner [try].  [build_span] reads the wall clock
    first, in whole seconds. *)
Definition parse_and_forward (env : environment) (line : bytes) : M unit :=
  record <~ lift (loads env line) ;;
  t <~ time env ;;
  span <~ lift (build_span (t / 1000000000) record) ;;
  inc_records_parsed ;;;
  span_queue_put span.

(** One turn of the [while] loop, after the shutdown test. *)
Definition worker_iteration (env : environment) : M unit :=
  got <~ try_except (line <~ recv_queue_get ;; ret (Some line))
           only_empty (fun _ => ret None) ;;
  match got with
  | None => ret tt
  | Some line =>
      inc_records_received ;;;
      try_except (parse_and_forward env line)
        any_exception (fun e => log_error (ParseFailed e)) ;;;
      publish_queue_size
  end.

(** At most [turns] turns of the loop. *)
Fixpoint worker (env : environment) (turns : nat) : M unit :=
  match turns with
  | O => ret tt
  | S turns' =>
      stop <~ is_set env ;;
      if stop then ret tt
      else worker_iteration env ;;; worker env turns'
  end.

End Worker.

(** ** The socket reader: [handle_client] *)

Module Reader.
Import Py Pipeline.

(** [b'\n' in buf] *)
Fixpoint has_newline (buf : bytes) : bool :=
  match buf with
  | [] => false
  | b :: rest => Byte.eqb b newline || has_newline rest
  end.

(** [buf.split(b'\n', 1)], as the pair [line, buf] it is unpacked into; the
    loop only calls it on a buffer that holds a newline. *)
Fixpoint split_newline (buf : bytes) : bytes * bytes :=
  match buf with
  | [] => ([], [])
  | b :: rest =>
      if Byte.eqb b newline then ([], rest)
      else let '(line, rest') := split_newline rest in (b :: line, rest')
  end.

(** The inner [while b'\n' in buf], at most [turns] turns; yields the
    buffer that is left. *)
Fixpoint extract_lines (turns : nat) (buf : bytes) : M bytes :=
  match turns with
  | O => ret buf
  | S turns' =>
      if has_newline buf then
        let '(line, rest) := split_newline buf in
        (if nonempty (bytes_strip line) then recv_queue_put line else ret tt) ;;;
        extract_lines turns' rest
      else ret buf
  end.

(** [buf += data] and the inner loop.  Every turn removes a newline from the
    buffer, so one turn per byte is enough. *)
Definition on_data (buf data : bytes) : M bytes :=
  let buf' := (buf ++ data)%list in
  extract_lines (List.length buf') buf'.

(** The outer loop over the chunks [sock.recv] returns, in order.  An empty
    chunk is the end of the stream and leaves the loop; the list ends where
    the loop is left for another reason (shutdown, or [recv] raising). *)
Fixpoint handle_chunks (chunks : list bytes) (buf : bytes) : M bytes :=
  match chunks with
  | [] => ret buf
  | data :: more =>
      if nonempty data then
        buf' <~ on_data buf data ;; handle_chunks more buf'
      else ret buf
  end.

Definition handle_client (chunks : list bytes) : M bytes :=
  handle_chunks chunks [].

End Reader.

(** ** The batch exporter: [BatchExporter] *)

Module Exporter.
Import Py Span Pipeline.

(** [BATCH_SIZE] and [BATCH_TIMEOUT] are read from the process environment
    without any check; the timeout is in nanoseconds here. *)
Record config : Type := {
  BATCH_SIZE : Z;
  BATCH_TIMEOUT : Z
}.

(** [pybreaker.CircuitBreaker(fail_max=5, reset_timeout=30)] *)
Definition fail_max : Z := 5.
Definition reset_timeout : Z := 30 * 1000000000.

Definition set_breaker_state (b : breaker_state) : M unit :=
  modify (set_breaker b).

(** Modelled from the spec: what the circuit breaker ([pybreaker], not among
    the sources) does when the guarded call raised [e]: it counts the
    failure and opens at [fail_max] in a row; a failed trial call opens it
    again. *)
Definition breaker_on_failure {A} (env : environment) (e : exn) : M A :=
  b <~ read breaker ;;
  match b with
  | Closed n =>
      if fail_max <=? n + 1 then
        now <~ time env ;;
        set_breaker_state (Open now) ;;;
        raise CircuitBreakerError
      else
        set_breaker_state (Closed (n + 1)) ;;;
        raise e
  | _ =>
      now <~ time env ;;
      set_breaker_state (Open now) ;;;
      raise CircuitBreakerError
  end.

(** Modelled from the spec: a call that the breaker lets through; success
    closes the breaker and clears the count. *)
Definition breaker_guard {A} (env : environment) (f : M A) : M A :=
  try_except (a <~ f ;; set_breaker_state (Closed 0) ;;; ret a)
    any_exception (breaker_on_failure env).

(** Modelled from the spec: the circuit breaker is the [pybreaker] package,
    which is not among the sources.  It opens after [fail_max] consecutive
    failures; while open it fails every call at once, without running the
    guarded function, until [reset_timeout] has passed since it opened;
    then one trial call decides whether it closes or opens again. *)
Definition breaker_call {A} (env : environment) (f : M A) : M A :=
  b <~ read breaker ;;
  match b with
  | Open opened =>
      now <~ time env ;;
      if now <? opened + reset_timeout then raise CircuitBreakerError
      else set_breaker_state HalfOpen ;;; breaker_guard env f
  | _ => breaker_guard env f
  end.

(** [tenacity.retry(stop=stop_after_attempt(n), retry=...(Exception))]:
    the call is repeated after every exception, and [RetryError] is raised
    when the n-th attempt has failed. *)
Fixpoint retry {A} (attempts : nat) (f : M A) : M A :=
  match attempts with
  | O => raise RetryError
  | S attempts' => try_except f any_exception (fun _ => retry attempts' f)
  end.

(** [batch_latency.time()]: one observation per call, raised or not. *)
Definition timed {A} (f : M A) : M A :=
  fun st => let '(r, st') := f st in (r, snd (observe_batch_latency st')).

(** [session.post(OTLP_ENDPOINT, json=payload, timeout=5)]: one entry in
    [posted] per call. *)
Definition session_post (env : environment) (payload : list resource_span)
  : M Z :=
  fun st =>
    let st' := set_posted (posted st ++ [payload])%list (set_posts (S (posts st)) st) in
    match post_at env (posts st) with
    | Status status_code => (Ok status_code, st')
    | TransportFailure => (Raise ConnectionError, st')
    end.

(** [resp.raise_for_status()] *)
Definition raise_for_status (status_code : Z) : M unit :=
  if (400 <=? status_code) && (status_code <? 600) then raise HTTPError
  else ret tt.

(** The body of [send_batch], below its decorators. *)
Definition send_batch_body (env : environment) (batch : list span) : M unit :=
  let payload := flat_map resourceSpans batch in
  status_code <~ session_post env payload ;;
  raise_for_status status_code.

(** [send_batch] as decorated: breaker around retry around timer. *)
Definition send_batch (env : environment) (batch : list span) : M unit :=
  modify (fun st => set_dispatched (dispatched st ++ [batch])%list st) ;;;
  breaker_call env (retry 3 (timed (send_batch_body env batch))).

(** The inner [while] of [run]: at most [turns] more spans. *)
Fixpoint fill (cfg : config) (env : environment) (turns : nat) (start : Z)
  (batch : list span) : M (list span) :=
  match turns with
  | O => ret batch
  | S turns' =>
      if Z.of_nat (List.length batch) <? BATCH_SIZE cfg then
        t <~ time env ;;
        if t - start <? BATCH_TIMEOUT cfg then
          got <~ try_except
                   (t' <~ time env ;;
                    s <~ span_queue_get env (BATCH_TIMEOUT cfg - (t' - start)) ;;
                    ret (Some s))
                   only_empty (fun _ => ret None) ;;
          match got with
          | Some s => fill cfg env turns' start (batch ++ [s])%list
          | None => ret batch
          end
        else ret batch
      else ret batch
  end.

(** The outer [try] of [run]; [None] stands for [continue].  The batch
    grows by one span per turn of the inner loop, so [BATCH_SIZE] turns are
    enough. *)
Definition collect (cfg : config) (env : environment)
  : M (option (list span)) :=
  try_except
    (span <~ span_queue_get env 1000000000 ;;
     start <~ time env ;;
     batch <~ fill cfg env (Z.to_nat (BATCH_SIZE cfg)) start [span] ;;
     ret (Some batch))
    only_empty (fun _ => ret None).

(** [seen[g] = t]: a dict keeps the position of a key that is assigned
    again. *)
Fixpoint dict_set (g t : string) (seen : list (string * string))
  : list (string * string) :=
  match seen with
  | [] => [(g, t)]
  | (g', t') :: rest =>
      if String.eqb g g' then (g, t) :: rest
      else (g', t') :: dict_set g t rest
  end.

Definition note_span (seen : list (string * string)) (s : span)
  : list (string * string) :=
  let g := _guid s in
  let t := _trace_id s in
  if str_nonempty g && str_nonempty t then dict_set g t seen else seen.

Definition metric_name (t : string) : string :=
  if startswith t "1" then "uberAgent:logonTraceMap"
  else "uberAgent:logoffTraceMap".

Definition correlation_point (ts : Z) (g t : string) : point :=
  {| measurement := metric_name t;
     tags := [("guid", g); ("trace_id", t)];
     fields := [("value", 0)];
     timestamp := ts |}.

(** [write_api.write(bucket=..., org=..., record=p)].  The write API is
    made with [WriteOptions(batch_size=1000, flush_interval=1000)], a
    batching one: the call hands the point to the client and returns, the
    client sends its buffer later from a thread of its own, and a point the
    sink refuses then is lost there and raises nothing in the caller.
    [written] gets the points the sink takes. *)
Definition write (env : environment) (p : point) : M unit :=
  fun st =>
    let st' := set_writes (S (writes st)) st in
    if write_at env (writes st)
    then (Ok tt, set_written (written st ++ [p])%list st')
    else (Ok tt, st').

Fixpoint write_all (env : environment) (ts : Z) (seen : list (string * string))
  : M unit :=
  match seen with
  | [] => ret tt
  | (g, t) :: rest =>
      write env (correlation_point ts g t) ;;; write_all env ts rest
  end.

(** The [try] that sends a batch and writes its correlation points. *)
Definition export (env : environment) (batch : list span) : M unit :=
  try_except
    (send_batch env batch ;;;
     inc_batches_sent ;;;
     let seen := fold_left note_span batch [] in
     ts <~ time env ;;
     write_all env ts seen)
    any_exception
    (fun e => log_error (ExportFailed e) ;;; inc_export_failures).

(** One turn of the loop of [run], after the shutdown test. *)
Definition run_cycle (cfg : config) (env : environment) : M unit :=
  got <~ collect cfg env ;;
  match got with
  | None => ret tt
  | Some batch =>
      (if nonempty batch then export env batch else ret tt) ;;;
      publish_queue_size
  end.

(** At most [turns] turns of the loop of [run]. *)
Fixpoint run (cfg : config) (env : environment) (turns : nat) : M unit :=
  match turns with
  | O => ret tt
  | S turns' =>
      stop <~ is_set env ;;
      if stop then ret tt
      else run_cycle cfg env ;;; run cfg env turns'
  end.

End Exporter.

(** ** Vocabulary of the specification *)

Module Spec.
Import Py Span Pipeline Exporter.

(** A field of a record, when the record is a JSON object that has it. *)
Definition field (record : json) (key : string) : option json :=
  match record with
  | JObj items => lookup key items
  | _ => None
  end.

Definition is_lower_hex (c : ascii) : bool :=
  is_digit c || ((97 <=? code c) && (code c <=? 102)).

Definition is_hex (c : ascii) : bool :=
  is_lower_hex c || ((65 <=? code c) && (code c <=? 70)).

Definition is_hex_or_dash (c : ascii) : bool :=
  is_hex c || Ascii.eqb c "-".

Definition digit_value (c : ascii) : Z :=
  if is_digit c then code c - 48 else code c - 87.

Fixpoint hex_value_from (acc : Z) (s : string) : Z :=
  match s with
  | EmptyString => acc
  | String c s' => hex_value_from (16 * acc + digit_value c) s'
  end.

(** The number a string of hexadecimal digits denotes. *)
Definition hex_value (s : string) : Z := hex_value_from 0 s.

(** [s] is the 16-character zero-padded lowercase hexadecimal
    representation of [n]. *)
Definition hex16 (n : Z) (s : string) : Prop :=
  String.length s = 16%nat
  /\ str_forallb is_lower_hex s = true
  /\ hex_value s = n.

(** The event type of a record: the presence of [LogoffProcType]. *)
Definition is_logoff (record : json) : bool := contains record "LogoffProcType".

(** The [SessionGUID] of a record, [''] when it has none. *)
Definition session_guid (record : json) : result json :=
  get record "SessionGUID" (JStr "").

(** The trace id the builder derives from the event type and the guid. *)
Definition trace_id_for (logoff : bool) (guid : string) : string :=
  str_take 32
    ((if logoff then "2" else "1") ++ remove_dashes guid ++ str_repeat "0" 31).

(** The pieces between the newlines of a stream, in order: one more than
    there are newlines. *)
Fixpoint segments (stream : bytes) : list bytes :=
  match stream with
  | [] => [[]]
  | b :: rest =>
      if Byte.eqb b newline then [] :: segments rest
      else match segments rest with
           | seg :: more => (b :: seg) :: more
           | [] => [[b]]
           end
  end.

(** The lines of a stream that have their newline. *)
Definition terminated_lines (stream : bytes) : list bytes :=
  removelast (segments stream).

(** What follows the last newline. *)
Definition partial_line (stream : bytes) : bytes :=
  last (segments stream) [].

(** A line whose whitespace-trimmed form is not empty. *)
Definition has_content (line : bytes) : bool := nonempty (bytes_strip line).

(** The queue entries the specification describes: the terminated lines
    with content, each trimmed. *)
Definition trimmed_entries (stream : bytes) : list bytes :=
  map bytes_strip (filter has_content (terminated_lines stream)).

(** The queue entries the reader makes: the same lines, as received. *)
Definition raw_entries (stream : bytes) : list bytes :=
  filter has_content (terminated_lines stream).

(** *** The exporter *)

(** Every run of [m] relates the state before to the state after. *)
Definition preserves {A} (R : state -> state -> Prop) (m : M A) : Prop :=
  forall st, R st (snd (m st)).

(** The field [proj] has the same value in both states. *)
Definition same {B} (proj : state -> B) (before after : state) : Prop :=
  proj after = proj before.

(** The state after the exporter has handled the batches one after the
    other. *)
Definition exports (env : environment) (batches : list (list span))
  (st : state) : state :=
  fold_left (fun st batch => snd (export env batch st)) batches st.

(** [send_batch] raises for each of the batches in turn. *)
Fixpoint consecutive_failures (env : environment)
  (batches : list (list span)) (st : state) : Prop :=
  match batches with
  | [] => True
  | batch :: rest =>
      (exists e, fst (send_batch env batch st) = Raise e)
      /\ consecutive_failures env rest (snd (export env batch st))
  end.

(** The collector does not accept the request. *)
Definition post_fails (o : http_outcome) : bool :=
  match o with
  | Status status_code => (400 <=? status_code) && (status_code <? 600)
  | TransportFailure => true
  end.

(** How many failures in a row open the breaker. *)
Definition failures_to_open (b : breaker_state) : Z :=
  match b with
  | Closed n => Z.max 1 (fail_max - n)
  | Open _ => 0
  | HalfOpen => 1
  end.

(** The retried, timed body of [send_batch]: what the breaker guards. *)
Definition attempts (env : environment) (batch : list span) : M unit :=
  retry 3 (timed (send_batch_body env batch)).

(** What the [except] clause of the export does to the state. *)
Definition after_failure (e : exn) (st : state) : state :=
  snd ((log_error (ExportFailed e) ;;; inc_export_failures) st).

(** What follows a successful [send_batch] inside the [try]. *)
Definition after_send (env : environment) (batch : list span) : M unit :=
  inc_batches_sent ;;;
  (ts <~ time env ;; write_all env ts (fold_left note_span batch [])).

(** The trace id a guid is mapped to. *)
Fixpoint value_of (g : string) (seen : list (string * string)) : option string :=
  match seen with
  | [] => None
  | (g', t) :: rest => if String.eqb g g' then Some t else value_of g rest
  end.

(** A span takes part in the correlation map when its guid and its trace id
    are not empty. *)
Definition has_ids (s : span) : bool :=
  str_nonempty (_guid s) && str_nonempty (_trace_id s).

(** The trace id of the last span of the batch that has the guid. *)
Definition last_trace_id (g : string) (batch : list span) : option string :=
  fold_left
    (fun found s =>
       if has_ids s && String.eqb g (_guid s) then Some (_trace_id s) else found)
    batch None.

(** The value of the [guid] tag of a point. *)
Definition guid_tag (p : point) : string :=
  match value_of "guid" (tags p) with
  | Some g => g
  | None => ""
  end.

(** How many of the points carry the guid. *)
Definition points_for (g : string) (ps : list point) : nat :=
  count_occ string_dec (map guid_tag ps) g.

(** The correlation points of a [seen] map. *)
Definition points (ts : Z) (seen : list (string * string)) : list point :=
  map (fun gt => correlation_point ts (fst gt) (snd gt)) seen.

(** A batch as the specification wants it: not empty, at most [BATCH_SIZE]
    spans. *)
Definition well_sized (cfg : config) (batch : list span) : Prop :=
  batch <> [] /\ Z.of_nat (List.length batch) <= BATCH_SIZE cfg.

(** What holds of a batch for every [BATCH_SIZE]. *)
Definition sized (cfg : config) (batch : list span) : Prop :=
  batch <> [] /\ Z.of_nat (List.length batch) <= Z.max 1 (BATCH_SIZE cfg).

(** Every reading of the clock falls into one window of [BATCH_TIMEOUT]. *)
Definition one_window (cfg : config) (env : environment) : Prop :=
  exists t0, forall k, t0 <= time_at env k < t0 + BATCH_TIMEOUT cfg.

End Spec.

(** ** Sample data *)

Module Examples.
Import Py Span Pipeline.

(** The record of the scenario in the specification. *)
Definition scenario : json :=
  JObj [("SessionGUID", JStr "abcd1234-0000-0000-0000-000000000000");
        ("ProcID", JInt 100); ("ProcParentID", JInt 0);
        ("ProcName", JStr "explorer.exe"); ("ProcLifetimeMs", JInt 5000);
        ("LogonProcType", JStr "Interactive")].

(** A later process of the same session, and its logoff. *)
Definition scenario_later : json :=
  JObj [("SessionGUID", JStr "abcd1234-0000-0000-0000-000000000000");
        ("ProcID", JInt 4242); ("ProcParentID", JInt 100);
        ("LogonProcType", JStr "Interactive")].

Definition scenario_logoff : json :=
  JObj [("SessionGUID", JStr "abcd1234-0000-0000-0000-000000000000");
        ("ProcID", JInt 4242); ("LogoffProcType", JStr "Interactive")].

Definition quoted (s : string) : string :=
  String (ascii_of_nat 34) (s ++ String (ascii_of_nat 34) "").

(** The line of a record whose [ProcID] is the string [abc]. *)
Definition bad_proc_id_line : bytes :=
  list_byte_of_string ("{" ++ quoted "ProcID" ++ ":" ++ quoted "abc" ++ "}").

(** A decoder that knows three lines and refuses every other one. *)
Definition decode (line : bytes) : result json :=
  let text := string_of_list_byte line in
  if String.eqb text "[1]" then Ok (JArr [JInt 1])
  else if String.eqb text "{}" then Ok (JObj [])
  else if String.eqb text (string_of_list_byte bad_proc_id_line)
       then Ok (JObj [("ProcID", JStr "abc")])
  else Raise JSONDecodeError.

(** An environment in which the clock stands still, no span arrives, the
    collector answers 200, the sink accepts every point and nobody asks for
    shutdown. *)
Definition calm : environment :=
  {| loads := decode;
     time_at := fun _ => 1700000000000000000;
     arrivals_at := fun _ => [];
     post_at := fun _ => Status 200;
     write_at := fun _ => true;
     is_set_at := fun _ => false |}.

(** The span [build_span] makes of a record; the empty span stands in for a
    record it refuses. *)
Definition built (record : json) : span :=
  match build_span 1700000000 record with
  | Ok s => s
  | Raise _ => {| _guid := ""; _trace_id := ""; resourceSpans := [] |}
  end.

Definition logon_span : span := built scenario.
Definition later_span : span := built scenario_later.
Definition logoff_span : span := built scenario_logoff.

(** The span of a record without [SessionGUID]. *)
Definition anonymous_span : span := built (JObj []).

(** As [calm], with a collector that answers 500 to every request. *)
Definition failing : environment :=
  {| loads := decode;
     time_at := fun _ => 1700000000000000000;
     arrivals_at := fun _ => [];
     post_at := fun _ => Status 500;
     write_at := fun _ => true;
     is_set_at := fun _ => false |}.

(** As [calm], with a sink that refuses every point. *)
Definition deaf_sink : environment :=
  {| loads := decode;
     time_at := fun _ => 1700000000000000000;
     arrivals_at := fun _ => [];
     post_at := fun _ => Status 200;
     write_at := fun _ => false;
     is_set_at := fun _ => false |}.

(** As [calm], with shutdown signalled from the start. *)
Definition stopping : environment :=
  {| loads := decode;
     time_at := fun _ => 1700000000000000000;
     arrivals_at := fun _ => [];
     post_at := fun _ => Status 200;
     write_at := fun _ => true;
     is_set_at := fun _ => true |}.

(** Batches of two spans, 200 ms. *)
Definition small : Exporter.config :=
  {| Exporter.BATCH_SIZE := 2; Exporter.BATCH_TIMEOUT := 200000000 |}.

(** [BATCH_SIZE=0] in the process environment. *)
Definition degenerate : Exporter.config :=
  {| Exporter.BATCH_SIZE := 0; Exporter.BATCH_TIMEOUT := 200000000 |}.

(** Three spans wait in the span queue. *)
Definition loaded : state :=
  set_span_queue [logon_span; later_span; logoff_span] initial.

End Examples.

(** ** Views of records, spans and payloads *)

Module Views.
Import Py Span Pipeline Spec.

(** The integer a record holds under a key, 0 when it has no such key: what
    [record.get(key, 0)] is when the field is a JSON integer or is absent. *)
Definition int_field (record : json) (key : string) (n : Z) : Prop :=
  field record key = Some (JInt n) \/ (field record key = None /\ n = 0).

(** The value of the first attribute with the key. *)
Fixpoint attribute (key : string) (attrs : list (string * attr_value))
  : option attr_value :=
  match attrs with
  | [] => None
  | (k, v) :: rest => if String.eqb key k then Some v else attribute key rest
  end.

(** [span['resourceSpans'][0]['resource']['attributes']], the value of
    [service.name]. *)
Definition service_name (s : span) : option attr_value :=
  match resourceSpans s with
  | rs :: _ => attribute "service.name" (resource_attributes rs)
  | [] => None
  end.

(** The OTLP spans of a payload, in order. *)
Definition payload_spans (payload : list resource_span) : list otlp_span :=
  flat_map (fun rs => flat_map spans (scopeSpans rs)) payload.

(** The keys [build_span] converts with [int], and those it converts with
    [float]. *)
Definition int_keys : list string :=
  ["ProcStartTimeRelativeMs"; "ProcLifetimeMs"; "ProcID"; "ProcParentID";
   "ProcCPUTimeMs"; "ProcIOReadCount"; "ProcIOWriteCount"; "ProcIOReadMB";
   "ProcIOWriteMB"; "ProcIOLatencyReadMs2"; "ProcIOLatencyWriteMs2"].

Definition float_keys : list string := ["ProcWorkingSetMB"; "ProcNetKBPS"].

(** A JSON number that [int] converts: an integer, or a finite float. *)
Definition is_int_like (v : json) : bool :=
  match v with
  | JInt _ => true
  | JFloat (S754_zero _) => true
  | JFloat (S754_finite _ _ _) => true
  | _ => false
  end.

(** A JSON number that [float] converts: a float, or an integer below the
    overflow threshold of a double. *)
Definition is_float_like (v : json) : bool :=
  match v with
  | JInt n => Z.abs n <? 2 ^ 1024 - 2 ^ 970
  | JFloat _ => true
  | _ => false
  end.

(** A value no conversion to a number accepts: [None], a list or a dict. *)
Definition is_not_numeric (v : json) : bool :=
  match v with
  | JNull | JArr _ | JObj _ => true
  | _ => false
  end.

Definition is_str (v : json) : bool :=
  match v with JStr _ => true | _ => false end.

End Views.

(** ** What a worker makes of lines *)

Module Conversion.
Import Py Span Pipeline.

(** The spans of the lines that decode and build, in the order of the
    lines.  A line that decodes takes one reading of the clock, the
    [reads]-th being the next one. *)
Fixpoint converted (env : environment) (reads : nat) (lines : list bytes)
  : list span :=
  match lines with
  | [] => []
  | line :: more =>
      match loads env line with
      | Ok record =>
          match build_span (time_at env reads / 1000000000) record with
          | Ok s => s :: converted env (S reads) more
          | Raise _ => converted env (S reads) more
          end
      | Raise _ => converted env reads more
      end
  end.

End Conversion.

(** ** Effects of the exporter on the state *)

Module Effects.
Import Py Span Pipeline Exporter.

(** The state after one timed request for a batch. *)
Definition after_attempt (batch : list span) (st : state) : state :=
  set_batch_latency (batch_latency st + 1)
    (set_posted (posted st ++ [flat_map resourceSpans batch])%list
       (set_posts (S (posts st)) st)).

(** The points the sink takes of those handed to the write API, the first
    of them by call number [from]. *)
Fixpoint taken (env : environment) (from : nat) (ps : list point)
  : list point :=
  match ps with
  | [] => []
  | p :: rest =>
      if write_at env from then p :: taken env (S from) rest
      else taken env (S from) rest
  end.

(** The spans that arrive during [count] calls of [span_queue.get], the
    first of them being call number [from]. *)
Definition supply (env : environment) (from count : nat) : list span :=
  flat_map (arrivals_at env) (seq from count).

(** Between two states the exporter has taken the spans [taken] from the
    span queue, in this order: what was in the queue and what arrived since
    is what was taken followed by what is in the queue now. *)
Definition carried (env : environment) (before after : state)
  (taken : list span) : Prop :=
  (gets before <= gets after)%nat
  /\ (span_queue before ++ supply env (gets before) (gets after - gets before)
      = taken ++ span_queue after)%list.

End Effects.

(** ** Start-up and shutdown: the module level and [__main__] *)

Module Settings.
Import Py.

(** The settings the module reads from the process environment when it is
    imported. *)
Record settings : Type := {
  LISTEN_HOST : string;
  LISTEN_PORT : Z;
  METRICS_PORT : Z;
  OTLP_ENDPOINT : string;
  WORKER_COUNT : Z;
  BATCH_SIZE : Z;
  BATCH_TIMEOUT : pyfloat;
  QUEUE_MAXSIZE : Z;
  DEBUG_MODE : bool;
  INFLUX_URL : string;
  INFLUX_TOKEN : string;
  INFLUX_ORG : string;
  INFLUX_BUCKET : string
}.

(** [os.getenv(name, default)]: the text of the variable, or the default as
    it is written in the source. *)
Definition getenv (environ : string -> option string) (name : string)
  (default : json) : json :=
  match environ name with
  | Some text => JStr text
  | None => default
  end.

Definition getenv_str (environ : string -> option string) (name : string)
  (default : string) : string :=
  match environ name with
  | Some text => text
  | None => default
  end.

(** The double nearest to [0.2]. *)
Definition one_fifth : spec_float := S754_finite false 7205759403792794 (-55).

(** [x in ('true', '1', 'yes')] *)
Definition is_yes (x : string) : bool :=
  String.eqb x "true" || String.eqb x "1" || String.eqb x "yes".

(** The assignments of the configuration block, in their order; the first
    conversion that raises ends the import of the module. *)
Definition load (environ : string -> option string) : result settings :=
  let listen_host := getenv_str environ "LISTEN_HOST" "0.0.0.0" in
  listen_port <- int (getenv environ "LISTEN_PORT" (JInt 5000)) ;;
  metrics_port <- int (getenv environ "METRICS_PORT" (JInt 8000)) ;;
  let otlp_endpoint :=
    getenv_str environ "OTEL_EXPORTER_OTLP_ENDPOINT"
      "http://jaeger:4318/v1/traces" in
  worker_count <- int (getenv environ "WORKER_COUNT" (JInt 8)) ;;
  batch_size <- int (getenv environ "BATCH_SIZE" (JInt 200)) ;;
  batch_timeout <- float (getenv environ "BATCH_TIMEOUT" (JFloat one_fifth)) ;;
  queue_maxsize <- int (getenv environ "QUEUE_MAXSIZE" (JInt 10000)) ;;
  let debug_mode :=
    is_yes (str_map lower (getenv_str environ "DEBUG_MODE" "false")) in
  Ok {| LISTEN_HOST := listen_host;
        LISTEN_PORT := listen_port;
        METRICS_PORT := metrics_port;
        OTLP_ENDPOINT := otlp_endpoint;
        WORKER_COUNT := worker_count;
        BATCH_SIZE := batch_size;
        BATCH_TIMEOUT := batch_timeout;
        QUEUE_MAXSIZE := queue_maxsize;
        DEBUG_MODE := debug_mode;
        INFLUX_URL := getenv_str environ "INFLUX_URL" "http://victoriametrics:8428";
        INFLUX_TOKEN := getenv_str environ "INFLUX_TOKEN" "";
        INFLUX_ORG := getenv_str environ "INFLUX_ORG" "";
        INFLUX_BUCKET := getenv_str environ "INFLUX_BUCKET" "traces" |}.

(** The variables that are converted with [int], each with the setting it
    becomes. *)
Definition int_settings : list (string * (settings -> Z)) :=
  [("LISTEN_PORT", LISTEN_PORT); ("METRICS_PORT", METRICS_PORT);
   ("WORKER_COUNT", WORKER_COUNT); ("BATCH_SIZE", BATCH_SIZE);
   ("QUEUE_MAXSIZE", QUEUE_MAXSIZE)].

End Settings.

Module Lifecycle.
Import Py Span Pipeline Worker Exporter.

(** The threads [__main__] starts besides the socket listener. *)
Inductive thread : Type :=
| WorkerThread
| ExporterThread.

(** A thread that stands at the test of its loop runs on, for at most
    [turns] turns.  An exception that leaves the loop ends the thread and
    nothing else. *)
Definition resume (cfg : config) (env : environment) (t : thread) (turns : nat)
  : M unit :=
  try_except
    match t with
    | WorkerThread => worker env turns
    | ExporterThread => run cfg env turns
    end
    any_exception (fun _ => ret tt).

Fixpoint resume_all (cfg : config) (env : environment)
  (threads : list (thread * nat)) : M unit :=
  match threads with
  | [] => ret tt
  | (t, turns) :: more => resume cfg env t turns ;;; resume_all cfg env more
  end.

(** [not recv_queue.empty() or not span_queue.empty()] *)
Definition queues_busy : M bool :=
  read (fun st => nonempty (recv_queue st) || nonempty (span_queue st)).

(** The last loop of [__main__], [while busy: time.sleep(1)], for at most
    [turns] turns; [elsewhere] is what the other threads do during a sleep.
    The result tells whether the loop has been left. *)
Fixpoint wait_for_drain (elsewhere : M unit) (turns : nat) : M bool :=
  match turns with
  | O => ret false
  | S turns' =>
      busy <~ queues_busy ;;
      if busy then elsewhere ;;; wait_for_drain elsewhere turns'
      else ret true
  end.

End Lifecycle.

(** ** More sample data *)

Module Samples.
Import Py Span Pipeline Examples.

(** The record of a process that started 1.5 s after the reference time and
    lived 5 s. *)
Definition timed_record : json :=
  JObj [("ProcStartTimeRelativeMs", JInt 1500); ("ProcLifetimeMs", JInt 5000)].

(** A logoff record whose [LogoffProcType] is [null], with a
    [LogonProcType] beside it. *)
Definition null_logoff : json :=
  JObj [("SessionGUID", JStr "abcd1234-0000-0000-0000-000000000000");
        ("LogonProcType", JStr "Interactive"); ("LogoffProcType", JNull)].

(** A record with 2.5 MB read and a working set of 2.5 MB. *)
Definition fractional : json :=
  JObj [("ProcIOReadMB", JFloat (S754_finite false 5 (-1)));
        ("ProcWorkingSetMB", JFloat (S754_finite false 5 (-1)))].

(** Two sessions whose GUIDs differ in the last digit only. *)
Definition session_one : json :=
  JObj [("SessionGUID", JStr "abcd1234-0000-0000-0000-000000000001")].

Definition session_two : json :=
  JObj [("SessionGUID", JStr "abcd1234-0000-0000-0000-000000000002")].

(** A process environment that sets [BATCH_SIZE=0] and [DEBUG_MODE=Yes]. *)
Definition zero_batches (name : string) : option string :=
  if String.eqb name "BATCH_SIZE" then Some "0"
  else if String.eqb name "DEBUG_MODE" then Some "Yes"
  else None.

(** As [calm], with a clock that advances by 150 ms from one reading to
    the next. *)
Definition hurried : environment :=
  {| loads := decode;
     time_at := fun k => 1700000000000000000 + Z.of_nat k * 150000000;
     arrivals_at := fun _ => [];
     post_at := fun _ => Status 200;
     write_at := fun _ => true;
     is_set_at := fun _ => false |}.

(** One span arrives at every second call of [span_queue.get]. *)
Definition trickle : environment :=
  {| loads := decode;
     time_at := fun _ => 1700000000000000000;
     arrivals_at := fun k => if Nat.even k then [logon_span] else [];
     post_at := fun _ => Status 200;
     write_at := fun _ => true;
     is_set_at := fun _ => false |}.

End Samples.

(** ** Properties of the span builder *)

Module SpanProps.
Import Py Span Spec Examples.

Local Open Scope nat_scope.

Lemma length_append (s t : string) :
  String.length (s ++ t) = String.length s + String.length t.
Proof. induction s as [|c s IH]; simpl; [reflexivity | now rewrite IH]. Qed.

Lemma length_str_repeat (c : ascii) (n : nat) :
  String.length (str_repeat c n) = n.
Proof. induction n as [|n IH]; simpl; [reflexivity | now rewrite IH]. Qed.

Lemma length_str_take (n : nat) (s : string) :
  String.length (str_take n s) = Nat.min n (String.length s).
Proof.
  revert s; induction n as [|n IH]; intros [|c s]; simpl; try reflexivity.
  now rewrite IH.
Qed.

Lemma forallb_append (p : ascii -> bool) (s t : string) :
  str_forallb p (s ++ t) = str_forallb p s && str_forallb p t.
Proof.
  induction s as [|c s IH]; simpl; [reflexivity|].
  now rewrite IH, andb_assoc.
Qed.

Lemma forallb_str_repeat (p : ascii -> bool) (c : ascii) (n : nat) :
  p c = true -> str_forallb p (str_repeat c n) = true.
Proof. intros Hc; induction n as [|n IH]; simpl; [reflexivity | now rewrite Hc]. Qed.

Lemma forallb_str_take (p : ascii -> bool) (n : nat) (s : string) :
  str_forallb p s = true -> str_forallb p (str_take n s) = true.
Proof.
  revert s; induction n as [|n IH]; intros [|c s]; simpl; try reflexivity.
  intros H; apply andb_true_iff in H as [Hc Hs].
  now rewrite Hc, IH.
Qed.

Lemma forallb_remove_dashes (s : string) :
  str_forallb is_hex_or_dash s = true ->
  str_forallb is_hex (remove_dashes s) = true.
Proof.
  unfold remove_dashes.
  induction s as [|c s IH]; simpl; [reflexivity|].
  intros H; apply andb_true_iff in H as [Hc Hs].
  unfold is_hex_or_dash in Hc.
  destruct (Ascii.eqb c "-") eqn:E; simpl.
  - now apply IH.
  - rewrite orb_false_r in Hc. now rewrite Hc, IH.
Qed.

Local Open Scope Z_scope.

Lemma hex_digit_ok (d : Z) :
  0 <= d < 16 ->
  is_lower_hex (hex_digit d) = true /\ digit_value (hex_digit d) = d.
Proof.
  intros H.
  assert (d = 0 \/ d = 1 \/ d = 2 \/ d = 3 \/ d = 4 \/ d = 5 \/ d = 6 \/ d = 7
          \/ d = 8 \/ d = 9 \/ d = 10 \/ d = 11 \/ d = 12 \/ d = 13 \/ d = 14
          \/ d = 15) as C by lia.
  repeat (destruct C as [-> | C]; [split; reflexivity|]).
  subst d; split; reflexivity.
Qed.

Lemma hex_value_from_append (a : Z) (s t : string) :
  hex_value_from a (s ++ t) = hex_value_from (hex_value_from a s) t.
Proof. revert a; induction s as [|c s IH]; intros a; simpl; [reflexivity | apply IH]. Qed.

Lemma hex_value_snoc (s : string) (c : ascii) :
  hex_value (s ++ String c "") = 16 * hex_value s + digit_value c.
Proof. unfold hex_value. now rewrite hex_value_from_append. Qed.

Lemma append_assoc_cons (d : string) (c : ascii) (acc : string) :
  (d ++ String c acc)%string = ((d ++ String c "") ++ acc)%string.
Proof. induction d as [|x d IH]; simpl; [reflexivity | now rewrite IH]. Qed.

Lemma hex_digits_spec (fuel : nat) :
  forall (k : nat) (n : Z) (acc : string),
    (1 <= fuel)%nat ->
    0 <= n < 16 ^ Z.of_nat fuel -> n < 16 ^ Z.of_nat k -> (1 <= k)%nat ->
    exists d,
      hex_digits fuel n acc = (d ++ acc)%string
      /\ str_forallb is_lower_hex d = true
      /\ hex_value d = n
      /\ (1 <= String.length d <= k)%nat.
Proof.
  induction fuel as [|fuel IH]; intros k n acc Hfuel Hn Hk Hk1.
  - lia.
  - simpl hex_digits. destruct (n <? 16) eqn:E.
    + apply Z.ltb_lt in E.
      destruct (hex_digit_ok n) as [H1 H2]; [lia|].
      exists (String (hex_digit n) ""). simpl.
      rewrite H1. unfold hex_value; simpl. rewrite H2. repeat split; lia.
    + apply Z.ltb_ge in E.
      assert (Hf : n / 16 < 16 ^ Z.of_nat fuel).
      { apply Z.div_lt_upper_bound; [lia|].
        rewrite Nat2Z.inj_succ, Z.pow_succ_r in Hn by lia. lia. }
      destruct k as [|k]; [lia|].
      assert (Hk' : n / 16 < 16 ^ Z.of_nat k).
      { apply Z.div_lt_upper_bound; [lia|].
        rewrite Nat2Z.inj_succ, Z.pow_succ_r in Hk by lia. lia. }
      assert (1 <= k)%nat.
      { destruct k; [simpl in Hk'|]; [|lia].
        assert (0 < n / 16) by (apply Z.div_str_pos; lia). lia. }
      assert (0 < n / 16) by (apply Z.div_str_pos; lia).
      assert (1 <= fuel)%nat.
      { destruct fuel; [simpl in Hf|]; lia. }
      destruct (IH k (n / 16) (String (hex_digit (n mod 16)) acc))
        as (d & Hd & Hhex & Hval & Hlen);
        [lia | split; [lia | exact Hf] | exact Hk' | lia |].
      destruct (hex_digit_ok (n mod 16)) as [Hc Hv].
      { apply Z.mod_pos_bound; lia. }
      exists (d ++ String (hex_digit (n mod 16)) "")%string.
      rewrite Hd, append_assoc_cons. split; [reflexivity|].
      rewrite forallb_append, Hhex. simpl. rewrite Hc.
      rewrite hex_value_snoc, Hval, Hv, length_append.
      cbn [String.length].
      pose proof (Z.div_mod n 16 ltac:(lia)).
      repeat split; lia.
Qed.

Lemma hex_spec (k : nat) (n : Z) :
  0 <= n < 16 ^ Z.of_nat k -> (1 <= k)%nat ->
  str_forallb is_lower_hex (hex n) = true
  /\ hex_value (hex n) = n
  /\ (1 <= String.length (hex n) <= k)%nat.
Proof.
  intros Hn Hk. unfold hex.
  destruct (hex_digits_spec (S (Z.to_nat (Z.log2 n))) k n "") as (d & Hd & H); try lia.
  - split; [lia|].
    rewrite Nat2Z.inj_succ, Z2Nat.id by apply Z.log2_nonneg.
    destruct (Z.eq_dec n 0) as [->|Hz]; [reflexivity|].
    assert (n < 2 ^ Z.succ (Z.log2 n)) by (apply Z.log2_spec; lia).
    assert (2 ^ Z.succ (Z.log2 n) <= 16 ^ Z.succ (Z.log2 n)).
    { apply Z.pow_le_mono_l. lia. }
    lia.
  - rewrite Hd.
    replace (d ++ "")%string with d; [exact H|].
    clear; induction d as [|c d IH]; simpl; [reflexivity | now rewrite <- IH].
Qed.

Lemma hex_value_zeros (m : nat) (a : Z) :
  hex_value_from a (str_repeat "0" m) = a * 16 ^ Z.of_nat m.
Proof.
  revert a; induction m as [|m IH]; intros a.
  - simpl. lia.
  - cbn [str_repeat hex_value_from]. rewrite IH.
    rewrite Nat2Z.inj_succ, Z.pow_succ_r by lia.
    change (digit_value "0") with 0. lia.
Qed.

Lemma format_016x_hex16 (n : Z) :
  0 <= n < 2 ^ 64 -> hex16 n (format_016x n).
Proof.
  intros Hn. unfold format_016x.
  replace (n <? 0) with false by (symmetry; apply Z.ltb_ge; lia).
  rewrite Z.abs_eq by lia.
  destruct (hex_spec 16 n) as (Hhex & Hval & Hlen); [change (16 ^ Z.of_nat 16) with (2 ^ 64); lia | lia |].
  cbn [String.length append]. rewrite Nat.sub_0_r.
  unfold hex16. rewrite length_append, length_str_repeat, forallb_append, Hhex.
  rewrite forallb_str_repeat by reflexivity.
  unfold hex_value. rewrite hex_value_from_append, hex_value_zeros.
  split; [lia | split; [reflexivity | exact Hval]].
Qed.

Lemma lower_hex_digit (c : ascii) :
  is_lower_hex c = true ->
  0 <= digit_value c < 16 /\ hex_digit (digit_value c) = c.
Proof.
  destruct c as [[] [] [] [] [] [] [] []]; intros H;
    try discriminate H; (split; [vm_compute; split; congruence | reflexivity]).
Qed.

Lemma hex_value_from_shift (s : string) :
  forall a, hex_value_from a s = a * 16 ^ Z.of_nat (String.length s) + hex_value s.
Proof.
  unfold hex_value.
  induction s as [|c s IH]; intros a; cbn [hex_value_from String.length].
  - change (16 ^ Z.of_nat 0) with 1. lia.
  - rewrite IH, (IH (16 * 0 + digit_value c)).
    rewrite Nat2Z.inj_succ, Z.pow_succ_r by lia. ring.
Qed.

Lemma hex_value_bound (s : string) :
  str_forallb is_lower_hex s = true ->
  0 <= hex_value s < 16 ^ Z.of_nat (String.length s).
Proof.
  induction s as [|c s IH]; cbn [str_forallb String.length].
  - intros _. unfold hex_value; cbn. lia.
  - intros H. apply andb_true_iff in H as [Hc Hs].
    specialize (IH Hs). apply lower_hex_digit in Hc as [Hc _].
    unfold hex_value. cbn [hex_value_from]. rewrite hex_value_from_shift.
    rewrite Nat2Z.inj_succ, Z.pow_succ_r by lia. nia.
Qed.

(** A number has at most one 16-digit representation. *)
Lemma hex16_unique (n : Z) (s t : string) :
  hex16 n s -> hex16 n t -> s = t.
Proof.
  intros (Ls & Hs & Vs) (Lt & Ht & Vt).
  rewrite <- Vt in Vs. clear Vt n.
  rewrite <- Lt in Ls. clear Lt.
  revert t Ls Hs Ht Vs.
  induction s as [|c s IH]; intros [|d t]; cbn [String.length str_forallb];
    intros L Hs Ht V; try discriminate L; [reflexivity|].
  apply andb_true_iff in Hs as [Hc Hs].
  apply andb_true_iff in Ht as [Hd Ht].
  injection L as L.
  unfold hex_value in V. cbn [hex_value_from] in V.
  rewrite (hex_value_from_shift s), (hex_value_from_shift t), L in V.
  pose proof (hex_value_bound s Hs) as Bs.
  pose proof (hex_value_bound t Ht) as Bt.
  rewrite L in Bs.
  destruct (lower_hex_digit c Hc) as [Rc Ec].
  destruct (lower_hex_digit d Hd) as [Rd Ed].
  set (P := 16 ^ Z.of_nat (String.length t)) in *.
  assert (E1 : digit_value c = digit_value d) by nia.
  assert (E2 : hex_value s = hex_value t) by (rewrite E1 in V; lia).
  rewrite <- Ec, <- Ed, E1. f_equal.
  apply IH; assumption.
Qed.

Ltac bind_step H :=
  match type of H with
  | bind ?m _ = Ok _ =>
      let E := fresh "E" in
      destruct m eqn:E; cbn [bind] in H; [|discriminate H]
  end.

Lemma build_span_inv (now : Z) (record : json) (s : span) :
  build_span now record = Ok s ->
  exists guid pid ppid o,
    session_guid record = Ok (JStr guid)
    /\ get_int record "ProcID" = Ok pid
    /\ get_int record "ProcParentID" = Ok ppid
    /\ _guid s = guid
    /\ _trace_id s = trace_id_for (is_logoff record) guid
    /\ otlp s = Some o
    /\ traceId o = _trace_id s
    /\ spanId o = format_016x pid
    /\ parentSpanId o = (if truthy ppid then format_016x ppid else "").
Proof.
  unfold build_span; intros H.
  repeat bind_step H.
  injection H as <-.
  unfold replace_dashes in *.
  match goal with
  | E : match ?g with _ => _ end = Ok _ |- _ =>
      destruct g; try discriminate E; injection E as <-
  end.
  do 3 eexists; eexists {| traceId := _ |}.
  cbn [_guid _trace_id fst snd otlp resourceSpans scopeSpans spans traceId
       spanId parentSpanId].
  repeat split; try eassumption; try reflexivity.
  - unfold trace_id_for, is_logoff.
    destruct (contains record "LogoffProcType"); reflexivity.
  - match goal with
    | E : (if truthy ?p then _ else _) = Ok _ |- _ =>
        destruct (truthy p); injection E as <-; reflexivity
    end.
Qed.

Lemma length_trace_id_for (logoff : bool) (guid : string) :
  String.length (trace_id_for logoff guid) = 32%nat.
Proof.
  unfold trace_id_for.
  rewrite length_str_take, !length_append, length_str_repeat.
  destruct logoff; cbn [String.length]; lia.
Qed.

Lemma trace_id_for_head (logoff : bool) (guid : string) :
  exists rest, trace_id_for logoff guid = String (if logoff then "2" else "1")%char rest.
Proof. unfold trace_id_for. destruct logoff; eexists; reflexivity. Qed.

Lemma hex_trace_id_for (logoff : bool) (guid : string) :
  str_forallb is_hex_or_dash guid = true ->
  str_forallb is_hex (trace_id_for logoff guid) = true.
Proof.
  intros H. unfold trace_id_for. apply forallb_str_take.
  rewrite !forallb_append, forallb_remove_dashes by exact H.
  rewrite forallb_str_repeat by reflexivity.
  destruct logoff; reflexivity.
Qed.

(** C1 (amended).  Two records with the same [SessionGUID] and the same event
    type, for each of which [build_span] returns a span, get the same trace
    id, whatever the clock says; records with the same [SessionGUID] and
    different event types get different trace ids.  The trace id has 32
    characters, it is also the [traceId] of the OTLP span, and its
    characters are hexadecimal digits when the [SessionGUID] is made of
    hexadecimal digits and dashes. *)
Theorem trace_id_function_of_guid_and_event
  (now1 now2 : Z) (r1 r2 : json) (s1 s2 : span) :
  build_span now1 r1 = Ok s1 ->
  build_span now2 r2 = Ok s2 ->
  session_guid r1 = session_guid r2 ->
  (is_logoff r1 = is_logoff r2 -> _trace_id s1 = _trace_id s2)
  /\ (is_logoff r1 <> is_logoff r2 -> _trace_id s1 <> _trace_id s2)
  /\ String.length (_trace_id s1) = 32%nat
  /\ option_map traceId (otlp s1) = Some (_trace_id s1)
  /\ (forall guid, session_guid r1 = Ok (JStr guid) ->
      str_forallb is_hex_or_dash guid = true ->
      str_forallb is_hex (_trace_id s1) = true).
Proof.
  intros B1 B2 G.
  destruct (build_span_inv _ _ _ B1) as (g1 & _ & _ & o1 & G1 & _ & _ & _ & T1 & O1 & X1 & _).
  destruct (build_span_inv _ _ _ B2) as (g2 & _ & _ & o2 & G2 & _ & _ & _ & T2 & _).
  assert (g1 = g2) by congruence. subst g2.
  rewrite T1, T2. repeat split.
  - intros ->. reflexivity.
  - intros D E. apply D.
    destruct (trace_id_for_head (is_logoff r1) g1) as [x Hx].
    destruct (trace_id_for_head (is_logoff r2) g1) as [y Hy].
    rewrite Hx, Hy in E.
    destruct (is_logoff r1), (is_logoff r2); try reflexivity; discriminate E.
  - apply length_trace_id_for.
  - rewrite O1. cbn [option_map]. congruence.
  - intros guid Hg Hhex. assert (guid = g1) by congruence. subst guid.
    now apply hex_trace_id_for.
Qed.

Lemma get_int_field (record : json) (key : string) (value : Z) :
  field record key = Some (JInt value) -> get_int record key = Ok value.
Proof.
  destruct record; cbn [field]; try discriminate.
  intros H. unfold get_int, get. now rewrite H.
Qed.

Lemma get_int_absent (record : json) (key : string) (value : Z) :
  field record key = None -> get_int record key = Ok value -> value = 0.
Proof.
  destruct record; cbn [field]; unfold get_int, get; try discriminate.
  intros ->. cbn. congruence.
Qed.

(** C2 (amended).  When [build_span] returns a span for a record whose
    [ProcID] is the integer [n] with [0 <= n < 2^64], the [spanId] is the
    16-character zero-padded lowercase hexadecimal representation of [n];
    [ProcID] 100 gives ["0000000000000064"], and a record without [ProcID]
    gives sixteen zeros. *)
Theorem span_id_is_hex16_of_proc_id
  (now : Z) (record : json) (s : span) (o : otlp_span) :
  build_span now record = Ok s ->
  otlp s = Some o ->
  (forall n, field record "ProcID" = Some (JInt n) -> 0 <= n < 2 ^ 64 ->
             hex16 n (spanId o))
  /\ (field record "ProcID" = Some (JInt 100) -> spanId o = "0000000000000064")
  /\ (field record "ProcID" = None -> spanId o = "0000000000000000").
Proof.
  intros B O.
  destruct (build_span_inv _ _ _ B) as (_ & pid & _ & o' & _ & P & _ & _ & _ & O' & _ & S' & _).
  assert (o' = o) by congruence. subst o'. rewrite S'.
  split; [|split].
  - intros n F Hn. apply get_int_field in F.
    assert (pid = n) by congruence. subst pid.
    now apply format_016x_hex16.
  - intros F. apply get_int_field in F.
    assert (pid = 100) by congruence. subst pid. reflexivity.
  - intros F. rewrite (get_int_absent _ _ _ F P). reflexivity.
Qed.

(** C3 (amended).  When [build_span] returns a span for a record whose
    [ProcParentID] is 0 or absent, the [parentSpanId] is empty; when it is a
    nonzero integer [p] with [0 <= p < 2^64], the [parentSpanId] is the
    16-character zero-padded lowercase hexadecimal representation of [p]. *)
Theorem parent_span_id_is_empty_or_hex16
  (now : Z) (record : json) (s : span) (o : otlp_span) :
  build_span now record = Ok s ->
  otlp s = Some o ->
  (field record "ProcParentID" = Some (JInt 0)
   \/ field record "ProcParentID" = None -> parentSpanId o = "")
  /\ (forall p, field record "ProcParentID" = Some (JInt p) ->
                p <> 0 -> 0 <= p < 2 ^ 64 -> hex16 p (parentSpanId o)).
Proof.
  intros B O.
  destruct (build_span_inv _ _ _ B) as (_ & _ & ppid & o' & _ & _ & P & _ & _ & O' & _ & _ & S').
  assert (o' = o) by congruence. subst o'. rewrite S'.
  split.
  - intros [F | F].
    + apply get_int_field in F.
      assert (ppid = 0) by congruence. subst ppid. reflexivity.
    + rewrite (get_int_absent _ _ _ F P). reflexivity.
  - intros p F Hp Hr. apply get_int_field in F.
    assert (ppid = p) by congruence. subst ppid.
    unfold truthy. replace (p =? 0) with false by (symmetry; now apply Z.eqb_neq).
    cbn [negb]. now apply format_016x_hex16.
Qed.

Lemma span_id_witness :
  exists s o,
    build_span 1700000000 scenario = Ok s /\ otlp s = Some o
    /\ hex16 100 (spanId o) /\ spanId o = "0000000000000064".
Proof.
  eexists; eexists.
  split; [reflexivity|]. split; [reflexivity|].
  pose proof (span_id_is_hex16_of_proc_id 1700000000 scenario _ _ eq_refl eq_refl) as [H1 [H2 _]].
  split; [apply (H1 100); [reflexivity | lia] | apply H2; reflexivity].
Defined.

(** C2 as stated fails for a negative [ProcID]: the sign takes a place and
    the result has 17 characters. *)
Lemma span_id_counterexample :
  exists s o,
    build_span 0 (JObj [("ProcID", JInt (-9223372036854775808))]) = Ok s
    /\ otlp s = Some o
    /\ spanId o = "-8000000000000000"
    /\ ~ hex16 (-9223372036854775808) (spanId o).
Proof.
  eexists; eexists.
  split; [reflexivity|]. split; [reflexivity|]. split; [reflexivity|].
  intros [L _]. discriminate L.
Qed.

Lemma parent_span_id_witness :
  exists s o,
    build_span 1700000000 scenario = Ok s /\ otlp s = Some o
    /\ parentSpanId o = "".
Proof.
  eexists; eexists.
  split; [reflexivity|]. split; [reflexivity|].
  apply (parent_span_id_is_empty_or_hex16 1700000000 scenario _ _ eq_refl eq_refl).
  left; reflexivity.
Defined.

(** C3 as stated fails for a negative [ProcParentID]. *)
Lemma parent_span_id_counterexample :
  exists s o,
    build_span 0 (JObj [("ProcParentID", JInt (-9223372036854775808))]) = Ok s
    /\ otlp s = Some o
    /\ parentSpanId o = "-8000000000000000"
    /\ ~ hex16 (-9223372036854775808) (parentSpanId o).
Proof.
  eexists; eexists.
  split; [reflexivity|]. split; [reflexivity|]. split; [reflexivity|].
  intros [L _]. discriminate L.
Qed.

Lemma trace_id_function_witness :
  exists s1 s2,
    build_span 1700000000 scenario = Ok s1
    /\ build_span 1700000060 scenario_later = Ok s2
    /\ session_guid scenario = session_guid scenario_later
    /\ _trace_id s1 = _trace_id s2
    /\ String.length (_trace_id s1) = 32%nat
    /\ str_forallb is_hex (_trace_id s1) = true.
Proof.
  eexists; eexists.
  split; [reflexivity|]. split; [reflexivity|]. split; [reflexivity|].
  destruct (trace_id_function_of_guid_and_event
              1700000000 1700000060 scenario scenario_later _ _
              eq_refl eq_refl eq_refl) as (Same & _ & Len & _ & Hex).
  split; [apply Same; reflexivity|].
  split; [exact Len|].
  apply (Hex "abcd1234-0000-0000-0000-000000000000"); reflexivity.
Defined.

(** C1 as stated fails for a [SessionGUID] that is not made of hexadecimal
    digits: its characters go into the trace id as they are. *)
Lemma trace_id_not_hex :
  exists s,
    build_span 0 (JObj [("SessionGUID", JStr "xyz")]) = Ok s
    /\ _trace_id s = "1xyz0000000000000000000000000000"
    /\ str_forallb is_hex (_trace_id s) = false.
Proof.
  eexists. split; [reflexivity|]. split; reflexivity.
Qed.

(** The older variant of the program has no event type in its trace id,
    which has 32 characters as well. *)
Remark length_trace_id_copy (guid : string) :
  String.length (trace_id_copy guid) = 32%nat.
Proof.
  unfold trace_id_copy.
  rewrite length_str_take, length_append, length_str_repeat. lia.
Qed.

End SpanProps.

(** ** Properties of the worker *)

Module WorkerProps.
Import Py Span Pipeline Worker Spec Examples.
Local Open Scope Z_scope.

Lemma build_span_not_object (now : Z) (v : json) :
  (forall items, v <> JObj items) -> build_span now v = Raise AttributeError.
Proof.
  intros H. destruct v; try reflexivity. now destruct (H items).
Qed.

Lemma build_span_bad_proc_id (now : Z) (items : list (string * json))
  (s : string) (e : exn) :
  lookup "ProcID" items = Some (JStr s) ->
  int_of_str s = Raise e ->
  exists e', build_span now (JObj items) = Raise e'.
Proof.
  intros F P. unfold build_span.
  destruct (get_int (JObj items) "ProcStartTimeRelativeMs"); cbn [bind];
    [|eexists; reflexivity].
  destruct (get_int (JObj items) "ProcLifetimeMs"); cbn [bind];
    [|eexists; reflexivity].
  replace (get_int (JObj items) "ProcID") with (@Raise Z e).
  - eexists; reflexivity.
  - unfold get_int, get. rewrite F. cbn. now rewrite P.
Qed.

Section Iteration.
Variable env : environment.

Lemma worker_iteration_cases (st : state) :
  exists st',
    worker_iteration env st = (Ok tt, st')
    /\ (recv_queue st = [] /\ st' = st
        \/ exists line rest,
             recv_queue st = line :: rest
             /\ recv_queue st' = rest
             /\ records_received st' = records_received st + 1
             /\ (records_parsed st' = records_parsed st
                 /\ span_queue st' = span_queue st
                 /\ (exists e, logged st' = (logged st ++ [ParseFailed e])%list)
                 \/ records_parsed st' = records_parsed st + 1
                    /\ (exists s, span_queue st' = (span_queue st ++ [s])%list)
                    /\ logged st' = logged st)).
Proof.
  unfold worker_iteration, parse_and_forward, mbind, try_except, recv_queue_get, lift.
  destruct (recv_queue st) as [|line rest] eqn:Hq.
  - eexists; split; [reflexivity|]. left; split; reflexivity.
  - cbn. destruct (loads env line) as [v|e].
    + cbn. destruct (build_span _ v) as [s|e]; cbn.
      * eexists; split; [reflexivity|]. right. exists line, rest. cbn.
        repeat split. right. repeat split. now exists s.
      * eexists; split; [reflexivity|]. right. exists line, rest. cbn.
        repeat split. left. repeat split. now exists e.
    + cbn. eexists; split; [reflexivity|]. right. exists line, rest. cbn.
      repeat split. left. repeat split. now exists e.
Qed.

Lemma worker_iteration_never_raises (st : state) :
  fst (worker_iteration env st) = Ok tt.
Proof.
  destruct (worker_iteration_cases st) as (st' & E & _). now rewrite E.
Qed.

Lemma worker_iteration_keeps_order (st : state) :
  records_parsed st <= records_received st ->
  records_parsed (snd (worker_iteration env st))
  <= records_received (snd (worker_iteration env st)).
Proof.
  intros H. destruct (worker_iteration_cases st) as (st' & E & C).
  rewrite E. cbn [snd].
  destruct C as [[_ ->] | (line & rest & _ & _ & R & [(P & _) | (P & _)])]; lia.
Qed.

Lemma worker_never_raises (turns : nat) :
  forall st, fst (worker env turns st) = Ok tt.
Proof.
  induction turns as [|turns IH]; intros st; [reflexivity|].
  cbn [worker]. unfold mbind, is_set.
  destruct (is_set_at env (checks st)); [reflexivity|].
  destruct (worker_iteration_cases (set_checks (S (checks st)) st)) as (st' & E & _).
  rewrite E. apply IH.
Qed.

Lemma worker_keeps_order (turns : nat) :
  forall st,
    records_parsed st <= records_received st ->
    records_parsed (snd (worker env turns st))
    <= records_received (snd (worker env turns st)).
Proof.
  induction turns as [|turns IH]; intros st H; [exact H|].
  cbn [worker]. unfold mbind, is_set.
  destruct (is_set_at env (checks st)); [exact H|].
  pose proof (worker_iteration_keeps_order (set_checks (S (checks st)) st) H) as K.
  destruct (worker_iteration_cases (set_checks (S (checks st)) st)) as (st' & E & _).
  rewrite E in K |- *. cbn [snd] in K. now apply IH.
Qed.

(** C4.  When the line a worker takes from the queue is not valid JSON, the
    turn of the loop ends without an exception, the received-record counter
    has grown by one, the parsed-record counter and the span queue are as
    before, and the failure is logged. *)
Theorem invalid_json_is_counted_and_dropped
  (st : state) (line : bytes) (rest : list bytes) (e : exn) :
  recv_queue st = line :: rest ->
  loads env line = Raise e ->
  exists st',
    worker_iteration env st = (Ok tt, st')
    /\ records_received st' = records_received st + 1
    /\ records_parsed st' = records_parsed st
    /\ span_queue st' = span_queue st
    /\ recv_queue st' = rest
    /\ logged st' = (logged st ++ [ParseFailed e])%list.
Proof.
  intros Hq Hl.
  unfold worker_iteration, parse_and_forward, mbind, try_except, recv_queue_get, lift.
  rewrite Hq. cbn. rewrite Hl. cbn.
  eexists; split; [reflexivity|]. cbn. repeat split.
Qed.

(** C10.  When the line decodes but [build_span] raises, the turn ends as
    for a decode failure: no exception, one more received record, no more
    parsed record, no span put.  A JSON value that is not an object and a
    record whose [ProcID] is the string [abc] are such lines.  The worker
    loop never raises, and the parsed-record counter stays at or below the
    received-record counter. *)
Theorem failed_span_is_counted_and_dropped :
  (forall (st : state) (line : bytes) (rest : list bytes) (v : json) (e : exn),
      recv_queue st = line :: rest ->
      loads env line = Ok v ->
      build_span (time_at env (clock_reads st) / 1000000000) v = Raise e ->
      exists st',
        worker_iteration env st = (Ok tt, st')
        /\ records_received st' = records_received st + 1
        /\ records_parsed st' = records_parsed st
        /\ span_queue st' = span_queue st
        /\ recv_queue st' = rest
        /\ logged st' = (logged st ++ [ParseFailed e])%list)
  /\ (forall now v, (forall items, v <> JObj items) ->
                    build_span now v = Raise AttributeError)
  /\ (forall now items,
         lookup "ProcID" items = Some (JStr "abc") ->
         exists e, build_span now (JObj items) = Raise e)
  /\ (forall turns st,
         records_parsed st <= records_received st ->
         fst (worker env turns st) = Ok tt
         /\ records_parsed (snd (worker env turns st))
            <= records_received (snd (worker env turns st))).
Proof.
  split; [|split; [|split]].
  - intros st line rest v e Hq Hl Hb.
    unfold worker_iteration, parse_and_forward, mbind, try_except,
      recv_queue_get, lift, time.
    rewrite Hq. cbn. rewrite Hl. cbn. rewrite Hb. cbn.
    eexists; split; [reflexivity|]. cbn. repeat split.
  - exact build_span_not_object.
  - intros now items F.
    apply (build_span_bad_proc_id now items "abc" ValueError F). reflexivity.
  - intros turns st H. split; [apply worker_never_raises | now apply worker_keeps_order].
Qed.

End Iteration.
Lemma invalid_json_witness :
  exists st',
    worker_iteration calm
      (set_recv_queue [list_byte_of_string "not json"] initial) = (Ok tt, st')
    /\ records_received st' = 1
    /\ records_parsed st' = 0
    /\ span_queue st' = [].
Proof.
  destruct (invalid_json_is_counted_and_dropped calm
              (set_recv_queue [list_byte_of_string "not json"] initial)
              (list_byte_of_string "not json") [] JSONDecodeError
              eq_refl eq_refl)
    as (st' & E & R & P & Q & _).
  exists st'. repeat split; assumption.
Defined.

Lemma failed_span_witness :
  exists st',
    worker_iteration calm (set_recv_queue [bad_proc_id_line] initial) = (Ok tt, st')
    /\ records_received st' = 1
    /\ records_parsed st' = 0
    /\ span_queue st' = [].
Proof.
  destruct (failed_span_is_counted_and_dropped calm) as (Step & _ & _ & _).
  destruct (Step (set_recv_queue [bad_proc_id_line] initial)
              bad_proc_id_line [] (JObj [("ProcID", JStr "abc")]) ValueError
              eq_refl eq_refl eq_refl)
    as (st' & E & R & P & Q & _).
  exists st'. repeat split; assumption.
Defined.

End WorkerProps.

(** ** Properties of the socket reader *)

Module ReaderProps.
Import Py Pipeline Reader Spec Examples.
Local Open Scope list_scope.

Lemma segments_nonempty (stream : bytes) : segments stream <> [].
Proof.
  destruct stream as [|b rest]; cbn; [discriminate|].
  destruct (Byte.eqb b newline); [discriminate|].
  destruct (segments rest); discriminate.
Qed.

Lemma segments_no_newline (buf : bytes) :
  has_newline buf = false -> segments buf = [buf].
Proof.
  induction buf as [|b rest IH]; cbn; [reflexivity|].
  destruct (Byte.eqb b newline); cbn; [discriminate|].
  intros H. now rewrite (IH H).
Qed.

Lemma segments_split (buf : bytes) :
  has_newline buf = true ->
  segments buf = fst (split_newline buf) :: segments (snd (split_newline buf))
  /\ (List.length (snd (split_newline buf)) < List.length buf)%nat.
Proof.
  induction buf as [|b rest IH]; cbn; [discriminate|].
  destruct (Byte.eqb b newline); cbn.
  - intros _. split; [reflexivity | lia].
  - intros H. destruct (IH H) as [E L].
    destruct (split_newline rest) as [line rest'].
    cbn in *. rewrite E. split; [reflexivity | lia].
Qed.

Lemma set_recv_queue_same (st : state) : set_recv_queue (recv_queue st) st = st.
Proof. now destruct st. Qed.

Lemma set_recv_queue_twice (q q' : list bytes) (st : state) :
  set_recv_queue q' (set_recv_queue q st) = set_recv_queue q' st.
Proof. reflexivity. Qed.

Lemma recv_queue_set (q : list bytes) (st : state) :
  recv_queue (set_recv_queue q st) = q.
Proof. reflexivity. Qed.

Lemma terminated_cons (line : bytes) (buf : bytes) :
  removelast (line :: segments buf) = line :: removelast (segments buf).
Proof.
  cbn. destruct (segments buf) eqn:E; [now destruct (segments_nonempty buf)|reflexivity].
Qed.

Lemma last_cons (line : bytes) (buf : bytes) :
  last (line :: segments buf) [] = last (segments buf) [].
Proof.
  cbn. destruct (segments buf) eqn:E; [now destruct (segments_nonempty buf)|reflexivity].
Qed.

(** The inner loop: with one turn per byte it stops because no newline is
    left, having put every terminated line with content. *)
Lemma extract_lines_spec (turns : nat) :
  forall (buf : bytes) (st : state),
    (List.length buf <= turns)%nat ->
    extract_lines turns buf st
    = (Ok (partial_line buf),
       set_recv_queue (recv_queue st ++ raw_entries buf) st).
Proof.
  unfold partial_line, raw_entries, terminated_lines.
  induction turns as [|turns IH]; intros buf st L.
  - destruct buf; [|cbn in L; lia]. cbn.
    now rewrite app_nil_r, set_recv_queue_same.
  - cbn [extract_lines]. destruct (has_newline buf) eqn:N.
    + destruct (segments_split buf N) as [E Len].
      destruct (split_newline buf) as [line rest]. cbn [fst snd] in E, Len.
      rewrite E, terminated_cons, last_cons. cbn [filter].
      unfold mbind, has_content.
      destruct (nonempty (bytes_strip line)); cbn.
      * rewrite IH by lia. cbn. now rewrite <- app_assoc.
      * now rewrite IH by lia.
    + rewrite (segments_no_newline buf N). cbn.
      now rewrite app_nil_r, set_recv_queue_same.
Qed.

Lemma segments_app (s d : bytes) :
  segments (s ++ d)
  = removelast (segments s) ++ segments (last (segments s) [] ++ d).
Proof.
  induction s as [|b r IH]; [reflexivity|].
  cbn [app segments]. destruct (Byte.eqb b newline) eqn:B.
  - rewrite terminated_cons, last_cons, IH. reflexivity.
  - rewrite IH. destruct (segments r) as [|seg more] eqn:E;
      [now destruct (segments_nonempty r)|].
    destruct more as [|seg' more].
    + cbn. now rewrite B.
    + reflexivity.
Qed.

Lemma raw_entries_app (s d : bytes) :
  raw_entries (s ++ d) = raw_entries s ++ raw_entries (partial_line s ++ d).
Proof.
  unfold raw_entries, terminated_lines, partial_line.
  rewrite segments_app, removelast_app by apply segments_nonempty.
  now rewrite filter_app.
Qed.

Lemma last_app_nonempty {A} (l l' : list A) (d : A) :
  l' <> [] -> last (l ++ l') d = last l' d.
Proof.
  intros H. induction l as [|a l IH]; [reflexivity|].
  cbn [app last]. destruct (l ++ l') eqn:E; [|exact IH].
  apply app_eq_nil in E as [_ ->]. now destruct H.
Qed.

Lemma partial_line_app (s d : bytes) :
  partial_line (s ++ d) = partial_line (partial_line s ++ d).
Proof.
  unfold partial_line.
  rewrite segments_app, last_app_nonempty by apply segments_nonempty.
  reflexivity.
Qed.

Lemma partial_line_idem (s : bytes) : partial_line (partial_line s) = partial_line s.
Proof.
  rewrite <- (app_nil_r (partial_line s)) at 1.
  rewrite <- partial_line_app. now rewrite app_nil_r.
Qed.

Lemma raw_entries_partial (s : bytes) : raw_entries (partial_line s) = [].
Proof.
  pose proof (raw_entries_app s []) as H. rewrite !app_nil_r in H.
  rewrite <- (app_nil_r (raw_entries s)) in H at 1.
  now apply app_inv_head in H.
Qed.

Lemma on_data_spec (buf data : bytes) (st : state) :
  on_data buf data st
  = (Ok (partial_line (buf ++ data)),
     set_recv_queue (recv_queue st ++ raw_entries (buf ++ data)) st).
Proof. unfold on_data. now apply extract_lines_spec. Qed.

Lemma handle_chunks_spec (chunks : list bytes) :
  forall (seen : bytes) (st : state),
    Forall (fun data => data <> []) chunks ->
    handle_chunks chunks (partial_line seen) st
    = (Ok (partial_line (seen ++ List.concat chunks)),
       set_recv_queue
         (recv_queue st ++ raw_entries (partial_line seen ++ List.concat chunks)) st).
Proof.
  induction chunks as [|data more IH]; intros seen st F.
  - cbn. rewrite !app_nil_r, raw_entries_partial, app_nil_r, set_recv_queue_same.
    reflexivity.
  - inversion F as [|? ? Hd Hm]; subst.
    cbn [handle_chunks List.concat].
    destruct data as [|b data]; [now destruct Hd|]. cbn [nonempty].
    unfold mbind. rewrite on_data_spec.
    rewrite <- partial_line_app, IH by exact Hm.
    rewrite <- (app_assoc seen).
    rewrite (app_assoc (partial_line seen)).
    rewrite (raw_entries_app (partial_line seen ++ b :: data) (List.concat more)).
    rewrite <- (partial_line_app seen (b :: data)).
    rewrite set_recv_queue_twice, recv_queue_set.
    rewrite <- (app_assoc (recv_queue st)).
    reflexivity.
Qed.
Lemma segments_have_no_newline (stream : bytes) :
  Forall (fun seg => has_newline seg = false) (segments stream).
Proof.
  induction stream as [|b rest IH]; cbn [segments].
  - repeat constructor.
  - destruct (Byte.eqb b newline) eqn:B.
    + constructor; [reflexivity | exact IH].
    + destruct (segments rest) as [|seg more]; [repeat constructor; cbn; now rewrite B|].
      inversion IH; subst. constructor; [cbn; now rewrite B | assumption].
Qed.

Lemma byte_eqb_eq (a b : byte) : Byte.eqb a b = true -> a = b.
Proof. intros H. now apply Byte.byte_dec_bl. Qed.

(** The terminated lines, each with its newline, followed by the partial
    line, are the stream. *)
Lemma segments_rebuild (stream : bytes) :
  List.concat (map (fun line => line ++ [newline]) (terminated_lines stream))
  ++ partial_line stream = stream.
Proof.
  unfold terminated_lines, partial_line.
  induction stream as [|b rest IH]; [reflexivity|].
  cbn [segments]. destruct (Byte.eqb b newline) eqn:B.
  - rewrite terminated_cons, last_cons. cbn. rewrite IH.
    now rewrite (byte_eqb_eq _ _ B).
  - destruct (segments rest) as [|seg more] eqn:E;
      [now destruct (segments_nonempty rest)|].
    destruct more as [|seg' more]; cbn in *; now rewrite IH.
Qed.

(** C9 (amended).  For every sequence of non-empty chunks received on a
    connection, the reader ends without an exception having put, in order,
    exactly the newline-terminated lines of the concatenated stream whose
    whitespace-trimmed form is not empty, each as it was received.  No entry
    holds a newline, so no line is split or merged, and what follows the
    last newline stays in the buffer. *)
Theorem reader_enqueues_terminated_lines (chunks : list bytes) (st : state) :
  Forall (fun data => data <> []) chunks ->
  exists st',
    handle_client chunks st = (Ok (partial_line (List.concat chunks)), st')
    /\ recv_queue st' = recv_queue st ++ raw_entries (List.concat chunks)
    /\ raw_entries (List.concat chunks)
       = filter has_content (terminated_lines (List.concat chunks))
    /\ Forall (fun line => has_newline line = false)
         (raw_entries (List.concat chunks))
    /\ has_newline (partial_line (List.concat chunks)) = false.
Proof.
  intros F. unfold handle_client.
  pose proof (handle_chunks_spec chunks [] st F) as H.
  change (partial_line []) with (@nil byte) in H. cbn [app] in H.
  rewrite H. eexists; split; [reflexivity|].
  split; [reflexivity|]. split; [reflexivity|].
  pose proof (segments_have_no_newline (List.concat chunks)) as N.
  split.
  - unfold raw_entries, terminated_lines.
    apply Forall_forall. intros line In.
    apply filter_In in In as [In _].
    rewrite Forall_forall in N. apply N.
    destruct (segments (List.concat chunks)) eqn:E; [destruct In|].
    rewrite (app_removelast_last [] (l:=b :: l)) by discriminate.
    apply in_or_app. now left.
  - unfold partial_line. rewrite Forall_forall in N. apply N.
    destruct (segments (List.concat chunks)) eqn:E;
      [now destruct (segments_nonempty (List.concat chunks))|].
    rewrite (app_removelast_last [] (l:=b :: l)) at 2 by discriminate.
    apply in_or_app. right. now left.
Qed.

Lemma reader_witness :
  exists st',
    handle_client [[x20; x61; x0a; x62]; [x63; x0a; x0a; x64]] initial
    = (Ok [x64], st')
    /\ recv_queue st' = [[x20; x61]; [x62; x63]].
Proof.
  destruct (reader_enqueues_terminated_lines
              [[x20; x61; x0a; x62]; [x63; x0a; x0a; x64]] initial)
    as (st' & E & Q & _).
  - repeat constructor; discriminate.
  - exists st'. split; [exact E | exact Q].
Defined.

(** C9 as stated fails: the line is tested trimmed and put untrimmed. *)
Lemma reader_does_not_trim :
  recv_queue (snd (handle_client [[x20; x61; x20; x0a]] initial))
  = [[x20; x61; x20]]
  /\ trimmed_entries (List.concat [[x20; x61; x20; x0a]]) = [[x61]]
  /\ recv_queue (snd (handle_client [[x20; x61; x20; x0a]] initial))
     <> trimmed_entries (List.concat [[x20; x61; x20; x0a]]).
Proof. split; [reflexivity|]. split; [reflexivity|]. discriminate. Qed.

End ReaderProps.

(** ** Reasoning about what a statement leaves unchanged *)

Module FrameProps.
Import Py Span Pipeline Exporter Spec.

Section Preorder.
Context {R : state -> state -> Prop}.
Hypothesis R_refl : forall st, R st st.
Hypothesis R_trans : forall a b c, R a b -> R b c -> R a c.

Lemma preserves_ret {A} (a : A) : preserves R (ret a).
Proof. intros st. apply R_refl. Qed.

Lemma preserves_raise {A} (e : exn) : preserves R (@raise A e).
Proof. intros st. apply R_refl. Qed.

Lemma preserves_lift {A} (r : result A) : preserves R (lift r).
Proof. intros st. apply R_refl. Qed.

Lemma preserves_read {A} (f : state -> A) : preserves R (read f).
Proof. intros st. apply R_refl. Qed.

Lemma preserves_modify (f : state -> state) :
  (forall st, R st (f st)) -> preserves R (modify f).
Proof. intros H st. apply H. Qed.

Lemma preserves_bind {A B} (m : M A) (k : A -> M B) :
  preserves R m -> (forall a, preserves R (k a)) -> preserves R (mbind m k).
Proof.
  intros Hm Hk st. unfold mbind. specialize (Hm st).
  destruct (m st) as [[a|e] st']; cbn [snd] in *.
  - eapply R_trans; [exact Hm | apply Hk].
  - exact Hm.
Qed.

Lemma preserves_try {A} (body : M A) (catches : exn -> bool)
  (handler : exn -> M A) :
  preserves R body -> (forall e, preserves R (handler e)) ->
  preserves R (try_except body catches handler).
Proof.
  intros Hb Hh st. unfold try_except. specialize (Hb st).
  destruct (body st) as [[a|e] st']; cbn [snd] in *; [exact Hb|].
  destruct (catches e); [|exact Hb].
  eapply R_trans; [exact Hb | apply Hh].
Qed.

Lemma preserves_if {A} (b : bool) (m1 m2 : M A) :
  preserves R m1 -> preserves R m2 -> preserves R (if b then m1 else m2).
Proof. now destruct b. Qed.

End Preorder.

Lemma same_refl {B} (proj : state -> B) st : same proj st st.
Proof. reflexivity. Qed.

Lemma same_trans {B} (proj : state -> B) a b c :
  same proj a b -> same proj b c -> same proj a c.
Proof. unfold same; congruence. Qed.


(** One step of a frame proof for a relation with the given proofs of
    reflexivity and transitivity. *)
Ltac frame_step refl trans :=
  first
    [ apply (preserves_ret refl)
    | apply (preserves_raise refl)
    | apply (preserves_lift refl)
    | apply (preserves_read refl)
    | apply (preserves_bind trans); [|intros ?]
    | apply (preserves_try trans); [|intros ?]
    | apply preserves_if
    | match goal with
      | |- preserves _ (match ?x with _ => _ end) => destruct x
      | |- preserves _ (let '(_, _) := ?x in _) => destruct x
      end ].

(** A primitive that does not touch the field: unfold it and look. *)
Ltac frame_prim :=
  let st := fresh "st" in
  intros st; unfold same;
  cbv beta delta
    [time is_set session_post write span_queue_get recv_queue_get
     span_queue_put recv_queue_put log_error publish_queue_size
     observe_batch_latency inc_export_failures inc_batches_sent
     inc_records_parsed inc_records_received modify read lift ret raise];
  repeat match goal with
         | |- context [match ?x with _ => _ end] => destruct x
         end;
  reflexivity.

Lemma preserves_retry {A} (R : state -> state -> Prop)
  (refl : forall st, R st st) (trans : forall a b c, R a b -> R b c -> R a c)
  (attempts : nat) (f : M A) :
  preserves R f -> preserves R (retry attempts f).
Proof.
  intros Hf. induction attempts as [|n IH]; cbn [retry].
  - apply (preserves_raise refl).
  - apply (preserves_try trans); [exact Hf | intros _; exact IH].
Qed.

Lemma preserves_timed {A} (R : state -> state -> Prop)
  (trans : forall a b c, R a b -> R b c -> R a c) (f : M A) :
  preserves R f -> preserves R observe_batch_latency -> preserves R (timed f).
Proof.
  intros Hf Ho st. unfold timed. specialize (Hf st).
  destruct (f st) as [r st']. cbn [snd] in *.
  eapply trans; [exact Hf | apply Ho].
Qed.

Ltac frame refl trans :=
  repeat first
    [ frame_step refl trans
    | apply (preserves_retry _ refl trans)
    | apply (preserves_timed _ trans) ];
  try frame_prim.

(** Proves that a statement leaves a field as it was. *)
Ltac keeps :=
  unfold send_batch_body, raise_for_status;
  match goal with
  | |- preserves (same ?proj) _ => frame (same_refl proj) (same_trans proj)
  end.

End FrameProps.

(** ** Properties of the batch exporter *)

Module ExporterProps.
Import Py Span Pipeline Exporter Spec Examples FrameProps.
Local Open Scope Z_scope.

Section WithEnvironment.
Variable env : environment.

Lemma attempts_keep_breaker (batch : list span) (attempts : nat) :
  preserves (same breaker) (retry attempts (timed (send_batch_body env batch))).
Proof. keeps. Qed.

Lemma attempts_keep_export_failures (batch : list span) (attempts : nat) :
  preserves (same export_failures)
    (retry attempts (timed (send_batch_body env batch))).
Proof. keeps. Qed.

Lemma attempts_keep_batches_sent (batch : list span) (attempts : nat) :
  preserves (same batches_sent)
    (retry attempts (timed (send_batch_body env batch))).
Proof. keeps. Qed.


Lemma breaker_guard_outcome (f : M unit) (st : state) :
  preserves (same breaker) f ->
  match breaker_guard env f st with
  | (Ok _, st') => breaker st' = Closed 0 /\ fst (f st) = Ok tt
  | (Raise _, st') =>
      (exists e, fst (f st) = Raise e)
      /\ match breaker st with
         | Closed n =>
             if fail_max <=? n + 1 then exists t, breaker st' = Open t
             else breaker st' = Closed (n + 1)
         | _ => exists t, breaker st' = Open t
         end
  end.
Proof.
  intros K. specialize (K st). unfold same in K.
  unfold breaker_guard, try_except, mbind, breaker_on_failure, read, time,
    set_breaker_state, modify, raise, ret, any_exception.
  destruct (f st) as [[[]|e] st1]; cbn [fst snd] in *.
  - split; reflexivity.
  - cbn. rewrite K. destruct (breaker st) as [n|t|]; cbn.
    + destruct (fail_max <=? n + 1); cbn; (split; [now exists e|]);
        [eexists|]; reflexivity.
    + split; [now exists e | eexists; reflexivity].
    + split; [now exists e | eexists; reflexivity].
Qed.

Lemma send_batch_fails_fast (batch : list span) (st : state) (opened : Z) :
  breaker st = Open opened ->
  time_at env (clock_reads st) < opened + reset_timeout ->
  send_batch env batch st
  = (Raise CircuitBreakerError,
     set_clock_reads (S (clock_reads st))
       (set_dispatched (dispatched st ++ [batch]) st)).
Proof.
  intros Hb Ht.
  unfold send_batch, breaker_call, mbind, modify, read, time, raise.
  cbn -[reset_timeout Z.ltb Z.add]. rewrite Hb.
  cbn -[reset_timeout Z.ltb Z.add].
  apply Z.ltb_lt in Ht. now rewrite Ht.
Qed.

Lemma send_batch_outcome (batch : list span) (st : state) :
  match send_batch env batch st with
  | (Ok _, st') => breaker st' = Closed 0
  | (Raise _, st') =>
      match breaker st with
      | Closed n =>
          if fail_max <=? n + 1 then exists t, breaker st' = Open t
          else breaker st' = Closed (n + 1)
      | _ => exists t, breaker st' = Open t
      end
  end.
Proof.
  unfold send_batch, breaker_call, mbind at 1 2, modify, read.
  cbn [fst snd].
  set (st0 := set_dispatched (dispatched st ++ [batch]) st).
  change (breaker st0) with (breaker st).
  destruct (breaker st) as [n|opened|] eqn:Hb.
  - pose proof (breaker_guard_outcome (attempts env batch) st0
                  (attempts_keep_breaker batch 3)) as G.
    change (breaker st0) with (breaker st) in G. rewrite Hb in G.
    fold (attempts env batch).
    destruct (breaker_guard env (attempts env batch) st0) as [[[]|e] st'];
      [apply G | apply G].
  - unfold mbind, time, raise. cbn [fst snd].
    destruct (time_at env (clock_reads st0) <? opened + reset_timeout).
    + exists opened. exact Hb.
    + unfold set_breaker_state, modify. cbn [fst snd].
      set (st1 := set_breaker HalfOpen _).
      pose proof (breaker_guard_outcome (attempts env batch) st1
                    (attempts_keep_breaker batch 3)) as G.
      fold (attempts env batch).
      destruct (breaker_guard env (attempts env batch) st1) as [[[]|e] st'];
        [apply G | apply G].
  - pose proof (breaker_guard_outcome (attempts env batch) st0
                  (attempts_keep_breaker batch 3)) as G.
    change (breaker st0) with (breaker st) in G. rewrite Hb in G.
    fold (attempts env batch).
    destruct (breaker_guard env (attempts env batch) st0) as [[[]|e] st'];
      [apply G | apply G].
Qed.

Lemma export_unfold (batch : list span) (st : state) :
  export env batch st
  = match send_batch env batch st with
    | (Ok _, st1) =>
        match after_send env batch st1 with
        | (Ok _, st2) => (Ok tt, st2)
        | (Raise e, st2) => (Ok tt, after_failure e st2)
        end
    | (Raise e, st1) => (Ok tt, after_failure e st1)
    end.
Proof.
  unfold export, after_send, after_failure, try_except, any_exception.
  unfold mbind at 1 2 3.
  destruct (send_batch env batch st) as [[[]|e] st1]; [|reflexivity].
  cbv beta iota delta [mbind inc_batches_sent modify time log_error
                       inc_export_failures snd].
  destruct (write_all env _ _ _) as [[[]|e] st3]; reflexivity.
Qed.

Lemma export_never_raises (batch : list span) (st : state) :
  fst (export env batch st) = Ok tt.
Proof.
  rewrite export_unfold.
  destruct (send_batch env batch st) as [[[]|e] st1]; [|reflexivity].
  destruct (after_send env batch st1) as [[[]|e] st2]; reflexivity.
Qed.

Lemma export_after_failed_send (batch : list span) (st : state) (e : exn) :
  fst (send_batch env batch st) = Raise e ->
  export env batch st
  = (Ok tt, after_failure e (snd (send_batch env batch st))).
Proof.
  intros H. rewrite export_unfold.
  destruct (send_batch env batch st) as [[[]|e'] st1]; cbn in H; [discriminate|].
  now injection H as ->.
Qed.

Lemma failures_open_breaker (batches : list (list span)) :
  forall st,
    consecutive_failures env batches st ->
    failures_to_open (breaker st) <= Z.of_nat (List.length batches) ->
    exists t, breaker (exports env batches st) = Open t.
Proof.
  induction batches as [|batch rest IH]; intros st F D.
  - cbn in *. destruct (breaker st) as [n|t|]; cbn in D; try lia.
    now exists t.
  - destruct F as [[e Fe] F]. cbn [exports fold_left].
    apply IH; [exact F|].
    rewrite (export_after_failed_send batch st e Fe). cbn [snd].
    change (breaker (after_failure e ?s)) with (breaker s).
    pose proof (send_batch_outcome batch st) as O.
    destruct (send_batch env batch st) as [[[]|e'] st1]; [discriminate Fe|].
    cbn [snd]. cbn [List.length] in D. rewrite Nat2Z.inj_succ in D.
    destruct (breaker st) as [n|t|]; cbn [failures_to_open] in D.
    + unfold fail_max in *. destruct (5 <=? n + 1) eqn:E.
      * destruct O as [t ->]. cbn. lia.
      * rewrite O. cbn [failures_to_open]. apply Z.leb_gt in E.
        unfold fail_max. lia.
    + destruct O as [t' ->]. cbn. lia.
    + destruct O as [t' ->]. cbn. lia.
Qed.

Lemma export_fails_fast (batch : list span) (st : state) (opened : Z) :
  breaker st = Open opened ->
  time_at env (clock_reads st) < opened + reset_timeout ->
  exists st',
    export env batch st = (Ok tt, st')
    /\ posts st' = posts st
    /\ posted st' = posted st
    /\ export_failures st' = export_failures st + 1
    /\ batches_sent st' = batches_sent st
    /\ breaker st' = Open opened
    /\ logged st' = (logged st ++ [ExportFailed CircuitBreakerError])%list
    /\ clock_reads st' = S (clock_reads st).
Proof.
  intros Hb Ht.
  pose proof (send_batch_fails_fast batch st opened Hb Ht) as S.
  rewrite export_unfold, S.
  eexists; split; [reflexivity|]. cbn. repeat split. exact Hb.
Qed.

Lemma attempt_fails (batch : list span) (st : state) :
  post_fails (post_at env (posts st)) = true ->
  exists e,
    fst (timed (send_batch_body env batch) st) = Raise e
    /\ posts (snd (timed (send_batch_body env batch) st)) = S (posts st).
Proof.
  intros H.
  unfold timed, send_batch_body, session_post, raise_for_status, mbind.
  destruct (post_at env (posts st)) as [status_code|]; cbn in H.
  - rewrite H. eexists; split; reflexivity.
  - eexists; split; reflexivity.
Qed.

Lemma attempts_fail (batch : list span) (n : nat) :
  (forall k, post_fails (post_at env k) = true) ->
  forall st,
    fst (retry n (timed (send_batch_body env batch)) st) = Raise RetryError
    /\ posts (snd (retry n (timed (send_batch_body env batch)) st))
       = (posts st + n)%nat.
Proof.
  intros H. induction n as [|n IH]; intros st.
  - cbn. split; [reflexivity | lia].
  - cbn [retry]. unfold try_except.
    destruct (attempt_fails batch st (H _)) as (e & E & P).
    destruct (timed (send_batch_body env batch) st) as [[[]|e'] st1];
      cbn [fst snd] in *; [discriminate E|].
    cbn [any_exception]. destruct (IH st1) as [-> ->]. split; [reflexivity | lia].
Qed.

Lemma failing_export_when_closed (batch : list span) (st : state) (n : Z) :
  (forall k, post_fails (post_at env k) = true) ->
  breaker st = Closed n ->
  exists st',
    export env batch st = (Ok tt, st')
    /\ (exists e, fst (send_batch env batch st) = Raise e)
    /\ posts st' = (posts st + 3)%nat
    /\ export_failures st' = export_failures st + 1
    /\ batches_sent st' = batches_sent st
    /\ (if fail_max <=? n + 1 then exists t, breaker st' = Open t
        else breaker st' = Closed (n + 1)).
Proof.
  intros H Hb.
  destruct (attempts_fail batch 3 H (set_dispatched (dispatched st ++ [batch]) st))
    as [Fa Pa].
  pose proof (attempts_keep_breaker batch 3
                (set_dispatched (dispatched st ++ [batch]) st)) as Ka.
  pose proof (attempts_keep_export_failures batch 3
                (set_dispatched (dispatched st ++ [batch]) st)) as Ke.
  pose proof (attempts_keep_batches_sent batch 3
                (set_dispatched (dispatched st ++ [batch]) st)) as Ks.
  unfold same in Ka, Ke, Ks.
  assert (S : exists e st1,
             send_batch env batch st = (Raise e, st1)
             /\ posts st1 = (posts st + 3)%nat
             /\ export_failures st1 = export_failures st
             /\ batches_sent st1 = batches_sent st
             /\ (if fail_max <=? n + 1 then exists t, breaker st1 = Open t
                 else breaker st1 = Closed (n + 1))).
  { unfold send_batch, breaker_call, mbind at 1 2, modify, read.
    cbn [fst snd].
    change (breaker (set_dispatched ?d st)) with (breaker st). rewrite Hb.
    unfold breaker_guard, try_except, mbind at 1.
    destruct (retry 3 _ _) as [[[]|e] st1]; cbn [fst snd] in *;
      [discriminate Fa|].
    cbn [any_exception].
    unfold breaker_on_failure, mbind, read, time, set_breaker_state, modify, raise.
    rewrite Ka. change (breaker (set_dispatched ?d st)) with (breaker st).
    rewrite Hb.
    destruct (fail_max <=? n + 1); do 2 eexists; (split; [reflexivity|]);
      cbn; repeat split; try assumption; try reflexivity.
    - eexists; reflexivity.
  }
  destruct S as (e & st1 & S & P & F & B & Br).
  rewrite export_unfold, S. eexists; split; [reflexivity|].
  split; [exists e; reflexivity|].
  cbn. repeat split; try assumption. now rewrite F.
Qed.

Lemma exports_fail_fast (opened : Z) (later : list (list span)) :
  forall st,
    breaker st = Open opened ->
    (forall k, (clock_reads st <= k)%nat ->
               time_at env k < opened + reset_timeout) ->
    posts (exports env later st) = posts st
    /\ posted (exports env later st) = posted st
    /\ export_failures (exports env later st)
       = export_failures st + Z.of_nat (List.length later)
    /\ batches_sent (exports env later st) = batches_sent st
    /\ breaker (exports env later st) = Open opened.
Proof.
  induction later as [|batch later IH]; intros st Hb Hw.
  - cbn. repeat split; try lia. exact Hb.
  - destruct (export_fails_fast batch st opened Hb (Hw _ (le_n _)))
      as (st' & E & P & Pd & F & B & Br & _ & C).
    cbn [exports fold_left]. rewrite E. cbn [snd].
    destruct (IH st' Br) as (P' & Pd' & F' & B' & Br').
    { intros k Hk. apply Hw. lia. }
    fold (exports env later st').
    rewrite P', Pd', F', B', Br', P, Pd, F, B.
    cbn [List.length]. rewrite Nat2Z.inj_succ. repeat split; lia.
Qed.

Lemma failing_send_raises (batch : list span) (st : state) :
  (forall k, post_fails (post_at env k) = true) ->
  exists e, fst (send_batch env batch st) = Raise e.
Proof.
  intros H.
  unfold send_batch, breaker_call, mbind at 1 2, modify, read. cbn [fst snd].
  set (st0 := set_dispatched (dispatched st ++ [batch]) st).
  assert (G : forall st1, exists e,
               fst (breaker_guard env (attempts env batch) st1) = Raise e).
  { intros st1.
    pose proof (breaker_guard_outcome (attempts env batch) st1
                  (attempts_keep_breaker batch 3)) as G.
    destruct (breaker_guard env (attempts env batch) st1) as [[[]|e] st2].
    - destruct G as [_ G]. unfold attempts in G.
      destruct (attempts_fail batch 3 H st1) as [F _]. congruence.
    - now exists e. }
  fold (attempts env batch).
  destruct (breaker st0) as [n|opened|]; [apply G| |apply G].
  unfold mbind, time, raise, set_breaker_state, modify. cbn [fst snd].
  destruct (_ <? _); [eexists; reflexivity | apply G].
Qed.

Lemma failing_collector (batches : list (list span)) :
  (forall k, post_fails (post_at env k) = true) ->
  forall st, consecutive_failures env batches st.
Proof.
  intros H. induction batches as [|batch rest IH]; intros st; cbn.
  - exact I.
  - split; [now apply failing_send_raises | apply IH].
Qed.

Lemma failing_exports_count (batches : list (list span)) :
  (forall k, post_fails (post_at env k) = true) ->
  forall st n,
    breaker st = Closed n ->
    n + Z.of_nat (List.length batches) <= fail_max ->
    posts (exports env batches st) = (posts st + 3 * List.length batches)%nat
    /\ export_failures (exports env batches st)
       = export_failures st + Z.of_nat (List.length batches)
    /\ batches_sent (exports env batches st) = batches_sent st.
Proof.
  intros H. induction batches as [|batch rest IH]; intros st n Hb Hn.
  - cbn. repeat split; lia.
  - destruct (failing_export_when_closed batch st n H Hb)
      as (st' & E & _ & P & F & B & Br).
    cbn [exports fold_left]. rewrite E. cbn [snd]. fold (exports env rest st').
    cbn [List.length] in *. rewrite Nat2Z.inj_succ in *.
    destruct rest as [|batch' rest].
    + cbn. rewrite P, F, B. repeat split; lia.
    + destruct (fail_max <=? n + 1) eqn:L.
      * apply Z.leb_le in L. cbn [List.length] in Hn.
        rewrite Nat2Z.inj_succ in Hn. lia.
      * destruct (IH st' (n + 1) Br) as (P' & F' & B'); [lia|].
        rewrite P', F', B', P, F, B. repeat split; lia.
Qed.

(** C6.  [send_batch] raising for five batches in a row leaves the breaker
    open.  While it is open and the clock is inside the reset window, every
    further batch is handled without a call of [session.post] and counted
    as one export failure each.  When the collector fails every request,
    five batches in a row are such failures: with the breaker closed before
    them they take 15 requests, and a sixth batch inside the window takes
    none and is the sixth export failure. *)
Theorem open_breaker_fails_without_request :
  (forall batches st,
      consecutive_failures env batches st ->
      List.length batches = 5%nat ->
      (forall n, breaker st = Closed n -> 0 <= n) ->
      exists opened, breaker (exports env batches st) = Open opened)
  /\ (forall opened later st,
         breaker st = Open opened ->
         (forall k, (clock_reads st <= k)%nat ->
                    time_at env k < opened + reset_timeout) ->
         posts (exports env later st) = posts st
         /\ posted (exports env later st) = posted st
         /\ export_failures (exports env later st)
            = export_failures st + Z.of_nat (List.length later)
         /\ batches_sent (exports env later st) = batches_sent st)
  /\ (forall batches sixth st,
         (forall k, post_fails (post_at env k) = true) ->
         List.length batches = 5%nat ->
         breaker st = Closed 0 ->
         consecutive_failures env batches st
         /\ posts (exports env batches st) = (posts st + 15)%nat
         /\ exists opened,
              breaker (exports env batches st) = Open opened
              /\ (time_at env (clock_reads (exports env batches st))
                  < opened + reset_timeout ->
                  fst (export env sixth (exports env batches st)) = Ok tt
                  /\ posts (snd (export env sixth (exports env batches st)))
                     = posts (exports env batches st)
                  /\ export_failures
                       (snd (export env sixth (exports env batches st)))
                     = export_failures st + 6
                  /\ batches_sent
                       (snd (export env sixth (exports env batches st)))
                     = batches_sent st)).
Proof.
  split; [|split].
  - intros batches st F L Sane.
    apply failures_open_breaker; [exact F|].
    rewrite L. change (Z.of_nat 5) with 5.
    destruct (breaker st) as [n|t|] eqn:Hb; cbn [failures_to_open]; try lia.
    specialize (Sane n eq_refl). unfold fail_max. lia.
  - intros opened later st Hb Hw.
    destruct (exports_fail_fast opened later st Hb Hw) as (P & Pd & F & B & _).
    repeat split; assumption.
  - intros batches sixth st H L Hb.
    pose proof (failing_collector batches H st) as F.
    destruct (failing_exports_count batches H st 0 Hb) as (P & Fl & B).
    { rewrite L. unfold fail_max. change (Z.of_nat 5) with 5. lia. }
    rewrite L in P, Fl.
    split; [exact F|]. split; [exact P|].
    destruct (failures_open_breaker batches st F) as [opened Ho].
    { rewrite Hb, L. cbn [failures_to_open]. unfold fail_max.
      change (Z.of_nat 5) with 5. lia. }
    exists opened. split; [exact Ho|]. intros Hw.
    destruct (export_fails_fast sixth _ opened Ho Hw)
      as (st' & E & P' & _ & F' & B' & _).
    rewrite E. cbn [fst snd]. rewrite P', F', B', Fl, B.
    repeat split; lia.
Qed.

Ltac keeps_all :=
  unfold send_batch, breaker_call, breaker_guard, breaker_on_failure,
    set_breaker_state, attempts;
  keeps.

Lemma send_batch_keeps_writes batch : preserves (same writes) (send_batch env batch).
Proof. keeps_all. Qed.
Lemma send_batch_keeps_written batch : preserves (same written) (send_batch env batch).
Proof. keeps_all. Qed.
Lemma send_batch_keeps_batches_sent batch : preserves (same batches_sent) (send_batch env batch).
Proof. keeps_all. Qed.
Lemma send_batch_keeps_export_failures batch : preserves (same export_failures) (send_batch env batch).
Proof. keeps_all. Qed.
Lemma send_batch_keeps_span_queue batch : preserves (same span_queue) (send_batch env batch).
Proof. keeps_all. Qed.
Lemma send_batch_keeps_checks batch : preserves (same checks) (send_batch env batch).
Proof. keeps_all. Qed.


Lemma write_all_spec (ts : Z) (seen : list (string * string)) :
  forall st,
    (forall k, (writes st <= k < writes st + List.length seen)%nat ->
               write_at env k = true) ->
    fst (write_all env ts seen st) = Ok tt
    /\ written (snd (write_all env ts seen st)) = (written st ++ points ts seen)%list
    /\ batches_sent (snd (write_all env ts seen st)) = batches_sent st
    /\ export_failures (snd (write_all env ts seen st)) = export_failures st.
Proof.
  induction seen as [|[g t] rest IH]; intros st H.
  - cbn. rewrite app_nil_r. repeat split.
  - set (st1 := set_written (written st ++ [correlation_point ts g t])
                    (set_writes (S (writes st)) st)).
    assert (E : write env (correlation_point ts g t) st = (Ok tt, st1)).
    { unfold write. rewrite (H (writes st)) by (cbn [List.length]; lia).
      reflexivity. }
    cbn [write_all]. unfold mbind. rewrite E.
    destruct (IH st1) as (R & W & B & F).
    { intros k Hk. apply H. cbn in *. lia. }
    rewrite R, W, B, F. cbn. rewrite <- app_assoc. repeat split.
Qed.


Lemma value_of_dict_set (g t g' : string) (seen : list (string * string)) :
  value_of g' (dict_set g t seen)
  = if String.eqb g' g then Some t else value_of g' seen.
Proof.
  induction seen as [|[k v] rest IH]; cbn [dict_set value_of].
  - reflexivity.
  - destruct (String.eqb g k) eqn:E; cbn [value_of].
    + apply String.eqb_eq in E. subst k.
      destruct (String.eqb g' g); reflexivity.
    + rewrite IH. destruct (String.eqb g' k) eqn:E'; [|reflexivity].
      apply String.eqb_eq in E'. subst k.
      destruct (String.eqb g' g) eqn:E''; [|reflexivity].
      apply String.eqb_eq in E''. subst g'. now rewrite String.eqb_refl in E.
Qed.

Lemma keys_dict_set (g t : string) (seen : list (string * string)) :
  map fst (dict_set g t seen)
  = match value_of g seen with
    | Some _ => map fst seen
    | None => (map fst seen ++ [g])%list
    end.
Proof.
  induction seen as [|[k v] rest IH]; cbn [dict_set value_of map fst app].
  - reflexivity.
  - destruct (String.eqb g k) eqn:E; cbn [map fst].
    + apply String.eqb_eq in E. now subst k.
    + rewrite IH. now destruct (value_of g rest).
Qed.

Lemma value_of_none_not_key (g : string) (seen : list (string * string)) :
  value_of g seen = None <-> ~ In g (map fst seen).
Proof.
  induction seen as [|[k v] rest IH]; cbn [value_of map fst In].
  - tauto.
  - destruct (String.eqb g k) eqn:E.
    + apply String.eqb_eq in E. subst k. split; [discriminate | tauto].
    + apply String.eqb_neq in E. rewrite IH. split.
      * intros H [K|K]; [now apply E | now apply H].
      * tauto.
Qed.

Lemma nodup_dict_set (g t : string) (seen : list (string * string)) :
  NoDup (map fst seen) -> NoDup (map fst (dict_set g t seen)).
Proof.
  intros H. rewrite keys_dict_set.
  destruct (value_of g seen) eqn:E; [exact H|].
  apply value_of_none_not_key in E.
  apply NoDup_app; [exact H | repeat constructor; intros [] | ].
  intros x Hx [<-|[]]. now apply E.
Qed.

Lemma last_trace_id_from (g : string) (batch : list span) :
  forall start,
    fold_left
      (fun found s =>
         if has_ids s && String.eqb g (_guid s) then Some (_trace_id s)
         else found)
      batch start
    = match last_trace_id g batch with
      | Some t => Some t
      | None => start
      end.
Proof.
  unfold last_trace_id.
  induction batch as [|s rest IH]; intros start; cbn [fold_left].
  - reflexivity.
  - rewrite (IH (if has_ids s && String.eqb g (_guid s)
                  then Some (_trace_id s) else start)).
    rewrite (IH (if has_ids s && String.eqb g (_guid s)
                 then Some (_trace_id s) else None)).
    destruct (fold_left _ rest None); [reflexivity|].
    destruct (has_ids s && String.eqb g (_guid s)); reflexivity.
Qed.

Lemma seen_spec (batch : list span) :
  forall seen,
    NoDup (map fst seen) ->
    NoDup (map fst (fold_left note_span batch seen))
    /\ forall g,
         value_of g (fold_left note_span batch seen)
         = match last_trace_id g batch with
           | Some t => Some t
           | None => value_of g seen
           end.
Proof.
  induction batch as [|s rest IH]; intros seen N.
  - split; [exact N | reflexivity].
  - cbn [fold_left]. unfold note_span at 2 4.
    fold (has_ids s).
    destruct (has_ids s) eqn:V.
    + destruct (IH (dict_set (_guid s) (_trace_id s) seen)
                  (nodup_dict_set _ _ _ N)) as [N' L].
      split; [exact N'|]. intros g. rewrite L, value_of_dict_set.
      unfold last_trace_id at 2. cbn [fold_left]. rewrite V. cbn [andb].
      rewrite last_trace_id_from.
      destruct (last_trace_id g rest); [reflexivity|].
      destruct (String.eqb g (_guid s)); reflexivity.
    + destruct (IH seen N) as [N' L]. split; [exact N'|].
      intros g. rewrite L.
      unfold last_trace_id at 2. cbn [fold_left]. rewrite V. cbn [andb].
      reflexivity.
Qed.

Lemma last_trace_id_some (g : string) (batch : list span) :
  last_trace_id g batch <> None
  <-> exists s, In s batch /\ has_ids s = true /\ _guid s = g.
Proof.
  induction batch as [|s rest IH].
  - cbn. split; [congruence | intros (s & [] & _)].
  - unfold last_trace_id. cbn [fold_left]. rewrite last_trace_id_from.
    destruct (last_trace_id g rest) as [t|] eqn:E.
    + split; [intros _ | congruence].
      destruct IH as [IH _]. destruct IH as (s' & I & V & G); [congruence|].
      exists s'. repeat split; try assumption. now right.
    + destruct (has_ids s && String.eqb g (_guid s)) eqn:C.
      * apply andb_true_iff in C as [V G]. apply String.eqb_eq in G.
        split; [intros _ | congruence].
        exists s. repeat split; [now left | exact V | now symmetry].
      * split; [congruence|]. intros (s' & [<-|I] & V & G).
        -- rewrite V, <- G, String.eqb_refl in C. discriminate C.
        -- destruct IH as [_ IH]. exfalso. apply IH; [|reflexivity].
           exists s'. repeat split; assumption.
Qed.

Lemma guid_tags_of_points (ts : Z) (seen : list (string * string)) :
  map guid_tag (points ts seen) = map fst seen.
Proof.
  induction seen as [|[g t] rest IH]; [reflexivity|].
  cbn [points map]. fold (points ts rest). rewrite IH. reflexivity.
Qed.

Lemma has_ids_spec (s : span) :
  has_ids s = true <-> _guid s <> "" /\ _trace_id s <> "".
Proof.
  unfold has_ids. rewrite andb_true_iff.
  destruct (_guid s), (_trace_id s); cbn; split; intros [H1 H2];
    try discriminate; try (split; congruence); split; reflexivity.
Qed.

Lemma export_after_good_send (batch : list span) (st : state) :
  fst (send_batch env batch st) = Ok tt ->
  (forall k,
      (writes st <= k < writes st + List.length (fold_left note_span batch []))%nat ->
      write_at env k = true) ->
  exists ts,
    fst (export env batch st) = Ok tt
    /\ written (snd (export env batch st))
       = (written st ++ points ts (fold_left note_span batch []))%list
    /\ batches_sent (snd (export env batch st)) = batches_sent st + 1
    /\ export_failures (snd (export env batch st)) = export_failures st.
Proof.
  intros Hs W.
  pose proof (send_batch_keeps_writes batch st) as Kw.
  pose proof (send_batch_keeps_written batch st) as Kn.
  pose proof (send_batch_keeps_batches_sent batch st) as Kb.
  pose proof (send_batch_keeps_export_failures batch st) as Ke.
  unfold same in *.
  rewrite export_unfold.
  destruct (send_batch env batch st) as [[[]|e] st1]; cbn [fst snd] in *;
    [|discriminate Hs].
  exists (time_at env (clock_reads st1)).
  set (st1' := set_clock_reads (S (clock_reads st1))
                 (set_batches_sent (batches_sent st1 + 1) st1)).
  change (after_send env batch st1)
    with (write_all env (time_at env (clock_reads st1))
            (fold_left note_span batch []) st1').
  destruct (write_all_spec (time_at env (clock_reads st1))
              (fold_left note_span batch []) st1') as (R & Wr & B & F).
  { intros k Hk. apply W. change (writes st1') with (writes st1) in Hk. lia. }
  destruct (write_all env _ _ st1') as [[[]|e] st2]; cbn [fst snd] in *;
    [|discriminate R].
  rewrite Wr, B, F. cbn. rewrite Kn, Kb, Ke. repeat split.
Qed.

Lemma in_value_of (g t : string) (seen : list (string * string)) :
  NoDup (map fst seen) -> In (g, t) seen -> value_of g seen = Some t.
Proof.
  induction seen as [|[k v] rest IH]; cbn [map fst In value_of]; [tauto|].
  intros N [E|I].
  - injection E as -> ->. now rewrite String.eqb_refl.
  - inversion N as [|? ? Hk Hr]; subst.
    destruct (String.eqb g k) eqn:E; [|now apply IH].
    apply String.eqb_eq in E. subst k. exfalso. apply Hk.
    change g with (fst (g, t)). now apply in_map.
Qed.

Lemma seen_of_batch (batch : list span) :
  NoDup (map fst (fold_left note_span batch []))
  /\ forall g,
       value_of g (fold_left note_span batch []) = last_trace_id g batch.
Proof.
  destruct (seen_spec batch []) as [N L]; [constructor|].
  split; [exact N|]. intros g. rewrite L.
  now destruct (last_trace_id g batch).
Qed.

Lemma has_guid_spec (g : string) (batch : list span) :
  existsb (fun s => has_ids s && String.eqb g (_guid s)) batch = true
  <-> last_trace_id g batch <> None.
Proof.
  rewrite last_trace_id_some, existsb_exists.
  split; intros (s & I & H).
  - apply andb_true_iff in H as [V G]. apply String.eqb_eq in G.
    exists s. repeat split; [exact I | exact V | now symmetry].
  - destruct H as [V G]. exists s. split; [exact I|].
    now rewrite V, <- G, String.eqb_refl.
Qed.

(** C7 (amended).  When [send_batch] has succeeded for a batch and the sink
    accepts the writes that follow, the points written for the batch are
    these: for every guid, one point if the batch has a span with that guid
    whose guid and trace id are not empty, and none otherwise; each point
    has the tags [guid] and [trace_id], the trace id being that of the last
    such span of the guid in the batch, the field [value] 0, and the
    measurement [uberAgent:logonTraceMap] when the trace id starts with 1
    and [uberAgent:logoffTraceMap] otherwise. *)
Theorem correlation_points_of_exported_batch
  (batch : list span) (st : state) :
  fst (send_batch env batch st) = Ok tt ->
  (forall k,
      (writes st <= k < writes st + List.length (fold_left note_span batch []))%nat ->
      write_at env k = true) ->
  exists ts new,
    written (snd (export env batch st)) = (written st ++ new)%list
    /\ (forall g,
          points_for g new
          = if existsb (fun s => has_ids s && String.eqb g (_guid s)) batch
            then 1%nat else 0%nat)
    /\ (forall p, In p new ->
          exists g t,
            last_trace_id g batch = Some t
            /\ p = {| measurement :=
                        if startswith t "1" then "uberAgent:logonTraceMap"
                        else "uberAgent:logoffTraceMap";
                      tags := [("guid", g); ("trace_id", t)];
                      fields := [("value", 0)];
                      timestamp := ts |}).
Proof.
  intros Hs W.
  destruct (export_after_good_send batch st Hs W) as (ts & _ & Wr & _).
  destruct (seen_of_batch batch) as [N L].
  exists ts, (points ts (fold_left note_span batch [])).
  split; [exact Wr|]. split.
  - intros g. unfold points_for. rewrite guid_tags_of_points.
    destruct (existsb _ batch) eqn:E.
    + apply NoDup_count_occ'; [exact N|].
      apply has_guid_spec in E. rewrite <- L in E.
      destruct (in_dec string_dec g (map fst (fold_left note_span batch [])))
        as [I|I]; [exact I|].
      apply value_of_none_not_key in I. congruence.
    + apply count_occ_not_In. intros I.
      assert (last_trace_id g batch <> None) as H.
      { rewrite <- L. intros H. apply value_of_none_not_key in H. now apply H. }
      apply has_guid_spec in H. congruence.
  - intros p I. unfold points in I. apply in_map_iff in I as ([g t] & <- & I).
    exists g, t. split; [|reflexivity].
    rewrite <- L. now apply in_value_of.
Qed.


End WithEnvironment.

Section Batching.
Variables (cfg : config) (env : environment).

Lemma preserves_fill (R : state -> state -> Prop)
  (refl : forall st, R st st) (trans : forall a b c, R a b -> R b c -> R a c) :
  preserves R (time env) ->
  (forall t, preserves R (span_queue_get env t)) ->
  forall turns start batch, preserves R (fill cfg env turns start batch).
Proof.
  intros Ht Hg. induction turns as [|turns IH]; intros start batch; cbn [fill].
  - apply (preserves_ret refl).
  - repeat first [ frame_step refl trans | exact Ht | apply Hg | apply IH ].
Qed.

Lemma preserves_write_all (R : state -> state -> Prop)
  (refl : forall st, R st st) (trans : forall a b c, R a b -> R b c -> R a c) :
  (forall p, preserves R (write env p)) ->
  forall ts seen, preserves R (write_all env ts seen).
Proof.
  intros Hw ts seen. induction seen as [|[g t] rest IH]; cbn [write_all].
  - apply (preserves_ret refl).
  - apply (preserves_bind trans); [apply Hw | intros _; exact IH].
Qed.

Ltac keeps_more :=
  unfold collect, after_send, send_batch, breaker_call, breaker_guard,
    breaker_on_failure, set_breaker_state, attempts;
  unfold send_batch_body, raise_for_status;
  match goal with
  | |- preserves (same ?proj) _ =>
      repeat first
        [ frame_step (same_refl proj) (same_trans proj)
        | apply (preserves_retry _ (same_refl proj) (same_trans proj))
        | apply (preserves_timed _ (same_trans proj))
        | apply (preserves_fill _ (same_refl proj) (same_trans proj));
          [|intros ?]
        | apply (preserves_write_all _ (same_refl proj) (same_trans proj));
          intros ? ];
      try frame_prim
  end.

Lemma collect_keeps_dispatched : preserves (same dispatched) (collect cfg env).
Proof. keeps_more. Qed.

Lemma collect_keeps_checks : preserves (same checks) (collect cfg env).
Proof. keeps_more. Qed.

Lemma after_send_keeps_dispatched batch :
  preserves (same dispatched) (after_send env batch).
Proof. keeps_more. Qed.

Lemma after_send_keeps_checks batch :
  preserves (same checks) (after_send env batch).
Proof. keeps_more. Qed.

Lemma after_send_keeps_span_queue batch :
  preserves (same span_queue) (after_send env batch).
Proof. keeps_more. Qed.

Lemma breaker_call_keeps_dispatched batch :
  preserves (same dispatched) (breaker_call env (attempts env batch)).
Proof. keeps_more. Qed.


Lemma send_batch_dispatches (batch : list span) (st : state) :
  dispatched (snd (send_batch env batch st)) = (dispatched st ++ [batch])%list.
Proof.
  change (send_batch env batch st)
    with (breaker_call env (attempts env batch)
            (set_dispatched (dispatched st ++ [batch]) st)).
  apply breaker_call_keeps_dispatched.
Qed.

Lemma export_effect (batch : list span) (st : state) :
  fst (export env batch st) = Ok tt
  /\ dispatched (snd (export env batch st)) = (dispatched st ++ [batch])%list
  /\ checks (snd (export env batch st)) = checks st
  /\ span_queue (snd (export env batch st)) = span_queue st.
Proof.
  split; [apply export_never_raises|].
  pose proof (send_batch_dispatches batch st) as D.
  pose proof (send_batch_keeps_checks env batch st) as C.
  pose proof (send_batch_keeps_span_queue env batch st) as Q.
  unfold same in *.
  rewrite export_unfold.
  destruct (send_batch env batch st) as [[[]|e] st1]; cbn [fst snd] in *.
  - pose proof (after_send_keeps_dispatched batch st1) as D'.
    pose proof (after_send_keeps_checks batch st1) as C'.
    pose proof (after_send_keeps_span_queue batch st1) as Q'.
    unfold same in *.
    destruct (after_send env batch st1) as [[[]|e] st2]; cbn [fst snd] in *.
    + repeat split; congruence.
    + change (dispatched (after_failure e st2)) with (dispatched st2).
      change (checks (after_failure e st2)) with (checks st2).
      change (span_queue (after_failure e st2)) with (span_queue st2).
      repeat split; congruence.
  - change (dispatched (after_failure e st1)) with (dispatched st1).
    change (checks (after_failure e st1)) with (checks st1).
    change (span_queue (after_failure e st1)) with (span_queue st1).
    repeat split; congruence.
Qed.

Lemma fill_bounds (turns : nat) :
  forall start batch st b' st',
    fill cfg env turns start batch st = (Ok b', st') ->
    (exists more, b' = (batch ++ more)%list)
    /\ Z.of_nat (List.length b')
       <= Z.max (Z.of_nat (List.length batch)) (BATCH_SIZE cfg).
Proof.
  induction turns as [|turns IH]; intros start batch st b' st'; cbn [fill].
  - unfold ret. intros E. injection E as <- <-.
    split; [exists []; now rewrite app_nil_r | lia].
  - destruct (Z.of_nat (List.length batch) <? BATCH_SIZE cfg) eqn:L.
    + apply Z.ltb_lt in L.
      unfold mbind at 1, time at 1.
      destruct (_ - start <? BATCH_TIMEOUT cfg).
      * unfold mbind at 1, try_except.
        destruct ((t' <~ time env ;; s <~ span_queue_get env _ ;; ret (Some s)) _)
          as [[[s|]|e] st1].
        -- intros E. apply IH in E as [[more ->] Len].
           rewrite length_app in Len. cbn [List.length] in Len.
           split; [exists (s :: more); now rewrite <- app_assoc|].
           rewrite !length_app in *. cbn [List.length] in *. lia.
        -- unfold ret. intros E. injection E as <- <-.
           split; [exists []; now rewrite app_nil_r | lia].
        -- destruct (only_empty e); [|discriminate].
           unfold ret. intros E. injection E as <- <-.
           split; [exists []; now rewrite app_nil_r | lia].
      * unfold ret. intros E. injection E as <- <-.
        split; [exists []; now rewrite app_nil_r | lia].
    + unfold ret. intros E. injection E as <- <-.
      split; [exists []; now rewrite app_nil_r | lia].
Qed.

Lemma collect_sized (st : state) (batch : list span) (st' : state) :
  collect cfg env st = (Ok (Some batch), st') -> sized cfg batch.
Proof.
  unfold collect, try_except, mbind at 1.
  destruct (span_queue_get env 1000000000 st) as [[s|e] st1].
  - unfold mbind at 1, time at 1. unfold mbind at 1.
    destruct (fill cfg env _ _ [s] _) as [[b|e] st2] eqn:F.
    + unfold ret. intros E. injection E as <- <-.
      apply fill_bounds in F as [[more ->] Len]. split; [discriminate|].
      cbn [List.length] in Len. lia.
    + destruct (only_empty e); [|discriminate]. unfold ret. discriminate.
  - destruct (only_empty e); [|discriminate]. unfold ret. discriminate.
Qed.

Lemma run_cycle_effect (st : state) :
  checks (snd (run_cycle cfg env st)) = checks st
  /\ exists more,
       dispatched (snd (run_cycle cfg env st)) = (dispatched st ++ more)%list
       /\ Forall (sized cfg) more.
Proof.
  pose proof (collect_keeps_dispatched st) as D.
  pose proof (collect_keeps_checks st) as C.
  pose proof (collect_sized st) as Z.
  unfold same in *. unfold run_cycle, mbind.
  destruct (collect cfg env st) as [[[batch|]|e] st1]; cbn [fst snd] in *.
  - specialize (Z batch st1 eq_refl).
    destruct batch as [|s batch]; [now destruct Z|]. cbn [nonempty].
    unfold publish_queue_size, modify.
    destruct (export_effect (s :: batch) st1) as (R & D' & C' & _).
    destruct (export env (s :: batch) st1) as [[[]|e] st2]; cbn [fst snd] in *;
      [|discriminate R].
    change (checks (set_span_queue_size ?v st2)) with (checks st2).
    change (dispatched (set_span_queue_size ?v st2)) with (dispatched st2).
    split; [congruence|]. exists [s :: batch].
    split; [congruence | now constructor].
  - split; [exact C|]. exists []. split; [now rewrite app_nil_r | constructor].
  - split; [exact C|]. exists []. split; [now rewrite app_nil_r | constructor].
Qed.

Lemma run_dispatches_sized (turns : nat) :
  forall st,
    exists more,
      dispatched (snd (run cfg env turns st)) = (dispatched st ++ more)%list
      /\ Forall (sized cfg) more.
Proof.
  induction turns as [|turns IH]; intros st; cbn [run].
  - exists []. split; [now rewrite app_nil_r | constructor].
  - unfold mbind at 1, is_set at 1.
    destruct (is_set_at env (checks st)).
    + exists []. split; [now rewrite app_nil_r | constructor].
    + unfold mbind.
      destruct (run_cycle_effect (set_checks (S (checks st)) st))
        as (_ & more & D & F).
      destruct (run_cycle cfg env _) as [[[]|e] st1]; cbn [snd] in *.
      * destruct (IH st1) as (more' & D' & F').
        exists (more ++ more')%list.
        split; [now rewrite D', D, app_assoc | now apply Forall_app].
      * exists more. split; [exact D | exact F].
Qed.

Section Window.
Variable t0 : Z.
Hypothesis in_window : forall k, t0 <= time_at env k < t0 + BATCH_TIMEOUT cfg.

Lemma fill_full (size : nat) (start : Z) :
  BATCH_SIZE cfg = Z.of_nat size ->
  t0 <= start < t0 + BATCH_TIMEOUT cfg ->
  forall turns batch st,
    (List.length batch <= size)%nat ->
    (size <= List.length batch + List.length (span_queue st))%nat ->
    (size - List.length batch <= turns)%nat ->
    exists st' arrived,
      fill cfg env turns start batch st
      = (Ok (firstn size (batch ++ span_queue st)), st')
      /\ span_queue st'
         = (skipn (size - List.length batch) (span_queue st) ++ arrived)%list.
Proof.
  intros HB Hs.
  assert (Done : forall batch st,
             List.length batch = size ->
             firstn size (batch ++ span_queue st) = batch
             /\ span_queue st
                = (skipn (size - List.length batch) (span_queue st) ++ [])%list).
  { intros batch st L. rewrite <- L at 1. rewrite firstn_app, firstn_all.
    rewrite L, Nat.sub_diag. cbn. now rewrite !app_nil_r. }
  induction turns as [|turns IH]; intros batch st L1 L2 L3.
  - destruct (Done batch st) as [D1 D2]; [lia|].
    exists st, []. cbn [fill]. unfold ret. now rewrite D1.
  - cbn [fill]. rewrite HB.
    destruct (Z.of_nat (List.length batch) <? Z.of_nat size) eqn:L.
    + apply Z.ltb_lt in L.
      destruct (span_queue st) as [|s q] eqn:Q; [cbn in L2; lia|].
      unfold mbind at 1, time at 1.
      replace (_ - start <? BATCH_TIMEOUT cfg) with true
        by (symmetry; apply Z.ltb_lt; specialize (in_window (clock_reads st)); lia).
      unfold mbind at 1, try_except, mbind at 1, time at 1, mbind at 1.
      unfold span_queue_get.
      replace (_ - (_ - start) <? 0) with false
        by (symmetry; apply Z.ltb_ge;
            specialize (in_window (clock_reads (set_clock_reads (S (clock_reads st)) st)));
            lia).
      cbn [span_queue set_clock_reads set_gets]. rewrite Q. cbn [app].
      unfold ret.
      match goal with
      | |- context [fill cfg env turns start ?b ?s1] =>
          destruct (IH b s1) as (st' & arrived & F & Qs)
      end.
      * rewrite length_app. cbn [List.length]. lia.
      * rewrite !length_app. cbn [List.length span_queue set_span_queue].
        rewrite length_app. cbn [List.length] in L2. lia.
      * rewrite length_app. cbn [List.length]. lia.
      * rewrite F. cbn [span_queue set_span_queue] in *.
        exists st'. eexists. split.
        -- f_equal. f_equal.
           match goal with
           | |- firstn _ (_ ++ _ ++ ?A)%list = _ =>
               replace ((batch ++ [s]) ++ q ++ A)%list
                 with ((batch ++ s :: q) ++ A)%list
                 by (now rewrite <- !app_assoc)
           end.
           rewrite (firstn_app size (batch ++ s :: q)).
           replace (size - List.length (batch ++ s :: q))%nat with 0%nat
             by (rewrite length_app; cbn [List.length] in *; lia).
           cbn [firstn]. now rewrite app_nil_r.
        -- rewrite Qs, length_app. cbn [List.length].
           rewrite skipn_app.
           replace (size - (List.length batch + 1) - List.length q)%nat with 0%nat
             by (cbn [List.length] in L2; lia).
           cbn [skipn]. rewrite <- app_assoc.
           replace (size - List.length batch)%nat
             with (S (size - (List.length batch + 1)))%nat by lia.
           reflexivity.
    + apply Z.ltb_ge in L.
      destruct (Done batch st) as [D1 D2]; [lia|].
      exists st, []. unfold ret. now rewrite D1.
Qed.

Lemma fill_returns (start : Z) :
  t0 <= start < t0 + BATCH_TIMEOUT cfg ->
  forall turns batch st,
    exists b st', fill cfg env turns start batch st = (Ok b, st').
Proof.
  intros Hs. induction turns as [|turns IH]; intros batch st; cbn [fill].
  - now exists batch, st.
  - destruct (_ <? BATCH_SIZE cfg); [|now exists batch, st].
    unfold mbind at 1, time at 1.
    destruct (_ <? BATCH_TIMEOUT cfg); [|eexists; eexists; reflexivity].
    unfold mbind at 1, try_except, mbind at 1, time at 1, mbind at 1.
    unfold span_queue_get.
    replace (_ - (_ - start) <? 0) with false
      by (symmetry; apply Z.ltb_ge;
          specialize (in_window (clock_reads (set_clock_reads (S (clock_reads st)) st)));
          lia).
    destruct (_ ++ _)%list as [|s rest].
    + cbn [only_empty]. unfold ret. eexists; eexists; reflexivity.
    + unfold ret. apply IH.
Qed.

Lemma collect_full (size : nat) (st : state) :
  BATCH_SIZE cfg = Z.of_nat size ->
  (1 <= size)%nat ->
  (size + 1 <= List.length (span_queue st))%nat ->
  exists st',
    collect cfg env st = (Ok (Some (firstn size (span_queue st))), st')
    /\ span_queue st' <> [].
Proof.
  intros HB H1 HQ.
  destruct (span_queue st) as [|s q] eqn:Q; [cbn in HQ; lia|].
  unfold collect, try_except, mbind at 1, span_queue_get.
  cbn [Z.ltb Z.compare]. rewrite Q. cbn [app].
  unfold mbind at 1, time at 1. unfold mbind at 1.
  rewrite HB, Nat2Z.id.
  match goal with
  | |- context [fill cfg env size ?start [s] ?s1] =>
      destruct (fill_full size start HB (in_window _) size [s] s1)
        as (st' & arrived & F & Qs)
  end.
  - cbn [List.length]. lia.
  - cbn [List.length span_queue set_span_queue set_clock_reads].
    rewrite length_app. cbn [List.length] in HQ. lia.
  - lia.
  - rewrite F. unfold ret. exists st'. split.
    + f_equal. f_equal. f_equal.
      cbn [span_queue set_span_queue set_clock_reads app].
      change (s :: q ++ ?A)%list with ((s :: q) ++ A)%list.
      rewrite firstn_app.
      replace (size - List.length (s :: q))%nat with 0%nat by lia.
      cbn [firstn]. now rewrite app_nil_r.
    + rewrite Qs. cbn [span_queue set_span_queue set_clock_reads List.length].
      intros E. apply (f_equal (@List.length span)) in E.
      rewrite !length_app, length_skipn, length_app in E.
      cbn [List.length] in *. lia.
Qed.

Lemma collect_some (st : state) :
  span_queue st <> [] ->
  exists batch st', collect cfg env st = (Ok (Some batch), st').
Proof.
  intros HQ.
  destruct (span_queue st) as [|s q] eqn:Q; [congruence|].
  unfold collect, try_except, mbind at 1, span_queue_get.
  cbn [Z.ltb Z.compare]. rewrite Q. cbn [app].
  unfold mbind at 1, time at 1. unfold mbind at 1.
  match goal with
  | |- context [fill cfg env ?n ?start [s] ?s1] =>
      destruct (fill_returns start (in_window _) n [s] s1) as (b & st' & F)
  end.
  rewrite F. unfold ret. now exists b, st'.
Qed.

Lemma run_cycle_dispatch (st st1 : state) (batch : list span) :
  collect cfg env st = (Ok (Some batch), st1) ->
  batch <> [] ->
  exists st2,
    run_cycle cfg env st = (Ok tt, st2)
    /\ dispatched st2 = (dispatched st ++ [batch])%list
    /\ checks st2 = checks st
    /\ span_queue st2 = span_queue st1.
Proof.
  intros C N.
  pose proof (collect_keeps_dispatched st) as D.
  pose proof (collect_keeps_checks st) as K.
  unfold same in *. rewrite C in D, K. cbn [snd] in D, K.
  unfold run_cycle, mbind. rewrite C.
  destruct batch as [|s batch]; [congruence|]. cbn [nonempty].
  destruct (export_effect (s :: batch) st1) as (R & D' & K' & Q').
  destruct (export env (s :: batch) st1) as [[[]|e] st2]; cbn [fst snd] in *;
    [|discriminate R].
  unfold publish_queue_size, modify. eexists; split; [reflexivity|].
  cbn [dispatched checks span_queue set_span_queue_size].
  repeat split; congruence.
Qed.

Lemma two_batches (size turns : nat) (st : state) :
  BATCH_SIZE cfg = Z.of_nat size ->
  (1 <= size)%nat ->
  (size + 1 <= List.length (span_queue st))%nat ->
  is_set_at env (checks st) = false ->
  is_set_at env (S (checks st)) = false ->
  exists second more,
    dispatched (snd (run cfg env (S (S turns)) st))
    = (dispatched st ++ firstn size (span_queue st) :: second :: more)%list
    /\ second <> [].
Proof.
  intros HB H1 HQ S1 S2.
  cbn [run]. unfold mbind at 1, is_set at 1. rewrite S1.
  set (sta := set_checks (S (checks st)) st).
  destruct (collect_full size sta HB H1 HQ) as (stb & C & Qb).
  destruct (run_cycle_dispatch sta stb _ C) as (std & R & D & K & Q).
  { intros E. apply (f_equal (@List.length span)) in E.
    rewrite length_firstn in E. cbn [List.length] in E.
    change (span_queue sta) with (span_queue st) in E. lia. }
  unfold mbind at 1. rewrite R.
  unfold mbind at 1, is_set at 1.
  replace (checks std) with (S (checks st)) by (now rewrite K).
  rewrite S2.
  set (ste := set_checks (S (S (checks st))) std).
  destruct (collect_some ste) as (second & stf & C2).
  { change (span_queue ste) with (span_queue std). now rewrite Q. }
  pose proof (collect_sized ste second stf C2) as [N2 _].
  destruct (run_cycle_dispatch ste stf second C2 N2) as (stg & R2 & D2 & _).
  unfold mbind at 1. rewrite R2.
  destruct (run_dispatches_sized turns stg) as (more & Dm & _).
  exists second, more. split; [|exact N2].
  rewrite Dm, D2. change (dispatched ste) with (dispatched std).
  rewrite D. change (dispatched sta) with (dispatched st).
  change (span_queue sta) with (span_queue st).
  now rewrite <- !app_assoc.
Qed.
End Window.

(** C5 (amended).  With [BATCH_SIZE] at least 1, every batch passed to
    [send_batch] is not empty and has at most [BATCH_SIZE] spans.  When in
    addition the span queue holds at least [BATCH_SIZE + 1] spans, every
    reading of the clock falls into one window of [BATCH_TIMEOUT], and the
    first two shutdown tests say no, the exporter passes at least two
    batches, the first being the first [BATCH_SIZE] spans of the queue. *)
Theorem dispatched_batches_are_sized :
  (forall turns st,
      1 <= BATCH_SIZE cfg ->
      Forall (well_sized cfg) (dispatched st) ->
      Forall (well_sized cfg) (dispatched (snd (run cfg env turns st))))
  /\ (forall turns st,
         1 <= BATCH_SIZE cfg ->
         one_window cfg env ->
         BATCH_SIZE cfg + 1 <= Z.of_nat (List.length (span_queue st)) ->
         is_set_at env (checks st) = false ->
         is_set_at env (S (checks st)) = false ->
         exists first second more,
           dispatched (snd (run cfg env (S (S turns)) st))
           = (dispatched st ++ first :: second :: more)%list
           /\ first = firstn (Z.to_nat (BATCH_SIZE cfg)) (span_queue st)
           /\ Z.of_nat (List.length first) = BATCH_SIZE cfg
           /\ second <> []).
Proof.
  split.
  - intros turns st HB F.
    destruct (run_dispatches_sized turns st) as (more & -> & Fm).
    apply Forall_app. split; [exact F|].
    eapply Forall_impl; [|exact Fm].
    intros b [N L]. split; [exact N | lia].
  - intros turns st HB [t0 W] HQ S1 S2.
    destruct (two_batches t0 W (Z.to_nat (BATCH_SIZE cfg)) turns st)
      as (second & more & D & N); try assumption; try lia.
    exists (firstn (Z.to_nat (BATCH_SIZE cfg)) (span_queue st)), second, more.
    repeat split; try assumption.
    rewrite length_firstn. lia.
Qed.

End Batching.

Lemma dispatched_batches_witness :
  Forall (well_sized small) (dispatched (snd (run small calm 3 loaded)))
  /\ exists first second more,
       dispatched (snd (run small calm 2 loaded)) = first :: second :: more
       /\ first = [logon_span; later_span]
       /\ second <> [].
Proof.
  destruct (dispatched_batches_are_sized small calm) as [Sized Two].
  split.
  - apply Sized; [cbn; lia | constructor].
  - destruct (Two 0%nat loaded) as (first & second & more & D & F & _ & N).
    + cbn; lia.
    + exists 1700000000000000000. intros k. cbn. lia.
    + cbn; lia.
    + reflexivity.
    + reflexivity.
    + exists first, second, more. split; [exact D|]. split; [exact F | exact N].
Defined.

(** C5 as stated fails when [BATCH_SIZE] is 0: the first span of a batch is
    taken before the size is looked at.  And with three spans in the queue
    and [BATCH_SIZE] 2, an exporter that finds shutdown signalled passes no
    batch at all. *)
Lemma batch_exceeds_zero_size :
  dispatched (snd (run degenerate calm 1 loaded)) = [[logon_span]]
  /\ ~ well_sized degenerate [logon_span]
  /\ dispatched (snd (run small stopping 5 loaded)) = [].
Proof.
  split; [reflexivity|]. split; [|reflexivity].
  intros [_ L]. cbn in L. lia.
Qed.

Lemma open_breaker_witness :
  posts (exports failing (repeat [logon_span] 5) initial) = 15%nat
  /\ posts (snd (export failing [later_span]
                   (exports failing (repeat [logon_span] 5) initial))) = 15%nat
  /\ export_failures
       (snd (export failing [later_span]
               (exports failing (repeat [logon_span] 5) initial))) = 6.
Proof.
  destruct (open_breaker_fails_without_request failing) as (_ & _ & Scenario).
  destruct (Scenario (repeat [logon_span] 5) [later_span] initial)
    as (_ & P & opened & Ho & Sixth).
  - intros k. reflexivity.
  - reflexivity.
  - reflexivity.
  - split; [exact P|].
    assert (opened = 1700000000000000000) as ->.
    { vm_compute in Ho. now injection Ho. }
    destruct Sixth as (_ & P6 & F6 & _).
    + vm_compute. reflexivity.
    + split; [rewrite P6; exact P | exact F6].
Defined.

Lemma correlation_points_witness :
  exists ts new,
    written (snd (export calm [anonymous_span; logon_span; logoff_span] initial))
    = new
    /\ points_for "abcd1234-0000-0000-0000-000000000000" new = 1%nat
    /\ points_for "" new = 0%nat
    /\ Forall (fun p => timestamp p = ts) new.
Proof.
  destruct (correlation_points_of_exported_batch calm
              [anonymous_span; logon_span; logoff_span] initial)
    as (ts & new & W & Count & Shape).
  - reflexivity.
  - intros k _. reflexivity.
  - exists ts, new. cbn [written initial app] in W.
    split; [exact W|].
    split; [now rewrite Count|]. split; [now rewrite Count|].
    apply Forall_forall. intros p I.
    destruct (Shape p I) as (g & t & _ & ->). reflexivity.
Defined.

(** C7 as stated fails: the measurement carries the prefix [uberAgent:], a
    span whose guid is empty gets no point, and a batch that was sent gets
    no point when the sink refuses the write. *)
Lemma correlation_points_counterexample :
  batches_sent (snd (export calm [anonymous_span; logon_span] initial)) = 1
  /\ _guid anonymous_span = ""
  /\ written (snd (export calm [anonymous_span; logon_span] initial))
     = [ {| measurement := "uberAgent:logonTraceMap";
            tags := [("guid", "abcd1234-0000-0000-0000-000000000000");
                     ("trace_id", "1abcd123400000000000000000000000")];
            fields := [("value", 0)];
            timestamp := 1700000000000000000 |} ]
  /\ Forall (fun p => measurement p <> "logonTraceMap"
                      /\ measurement p <> "logoffTraceMap")
       (written (snd (export calm [anonymous_span; logon_span] initial)))
  /\ points_for ""
       (written (snd (export calm [anonymous_span; logon_span] initial)))
     = 0%nat
  /\ batches_sent (snd (export deaf_sink [logon_span] initial)) = 1
  /\ written (snd (export deaf_sink [logon_span] initial)) = [].
Proof.
  assert (T : forall P Q : Prop, P -> Q -> P /\ Q) by (intros; now split).
  apply T; [vm_compute; reflexivity|]. apply T; [reflexivity|].
  cut (batches_sent (snd (export deaf_sink [logon_span] initial)) = 1
       /\ written (snd (export deaf_sink [logon_span] initial)) = []);
    [intros Sink | split; vm_compute; reflexivity].
  assert (W : written (snd (export calm [anonymous_span; logon_span] initial))
              = [ {| measurement := "uberAgent:logonTraceMap";
                     tags := [("guid", "abcd1234-0000-0000-0000-000000000000");
                              ("trace_id", "1abcd123400000000000000000000000")];
                     fields := [("value", 0)];
                     timestamp := 1700000000000000000 |} ])
    by (vm_compute; reflexivity).
  rewrite W. split; [reflexivity|]. split; [|split; [reflexivity | exact Sink]].
  repeat constructor; discriminate.
Qed.


End ExporterProps.

(** ** Text and numbers *)

Module TextLaws.
Import Py.

Lemma lstrip_head (p : ascii -> bool) (c : ascii) (s : string) :
  p c = false -> lstrip p (String c s) = String c s.
Proof. intros H. cbn [lstrip]. now rewrite H. Qed.

Lemma rstrip_none (p : ascii -> bool) (s : string) :
  str_forallb (fun c => negb (p c)) s = true -> rstrip p s = s.
Proof.
  induction s as [|c s IH]; [reflexivity|].
  cbn [str_forallb rstrip]. intros H.
  apply andb_true_iff in H as [Hc Hs]. rewrite (IH Hs).
  destruct s; [|reflexivity].
  apply negb_true_iff in Hc. now rewrite Hc.
Qed.

Lemma strip_none (p : ascii -> bool) (s : string) :
  str_forallb (fun c => negb (p c)) s = true -> strip p s = s.
Proof.
  intros H. unfold strip.
  destruct s as [|c s]; [reflexivity|].
  pose proof H as H'. cbn [str_forallb] in H'.
  apply andb_true_iff in H' as [Hc _]. apply negb_true_iff in Hc.
  rewrite (lstrip_head _ _ _ Hc). now apply rstrip_none.
Qed.

Lemma digits_have_no_space (d : Decimal.uint) :
  str_forallb (fun c => negb (is_space c)) (NilEmpty.string_of_uint d) = true.
Proof.
  induction d; cbn [NilEmpty.string_of_uint str_forallb]; try rewrite IHd;
    reflexivity.
Qed.

Lemma digits_value_step (c : ascii) (s : string) (prev : bool) (acc : Z) :
  is_digit c = true ->
  digits_value (String c s) prev acc = digits_value s true (10 * acc + (code c - 48)).
Proof. intros H. cbn [digits_value]. now rewrite H. Qed.

Ltac eval_code :=
  match goal with
  | |- context [code ?c] =>
      let v := eval vm_compute in (code c) in change (code c) with v
  end.

Lemma digits_value_acc (d : Decimal.uint) :
  forall a : positive,
    digits_value (NilEmpty.string_of_uint d) true (Z.pos a)
    = Some (Z.pos (Pos.of_uint_acc d a)).
Proof.
  induction d; intros a; cbn [NilEmpty.string_of_uint Pos.of_uint_acc];
    [reflexivity | ..];
    (rewrite digits_value_step by reflexivity;
     rewrite <- IHd; f_equal; eval_code; lia).
Qed.

Lemma digits_value_uint (d : Decimal.uint) :
  digits_value (NilEmpty.string_of_uint d) true 0
  = Some (Z.of_N (Pos.of_uint d)).
Proof.
  induction d; cbn [NilEmpty.string_of_uint Pos.of_uint];
    [reflexivity | ..];
    rewrite digits_value_step by reflexivity;
    [exact IHd | ..];
    (eval_code; cbn [Z.of_N]; rewrite <- digits_value_acc; reflexivity).
Qed.

Lemma digits_value_first (d : Decimal.uint) :
  d <> Decimal.Nil ->
  digits_value (NilEmpty.string_of_uint d) false 0
  = Some (Z.of_N (Pos.of_uint d)).
Proof.
  intros H. rewrite <- digits_value_uint.
  destruct d; [contradiction | ..]; cbn [NilEmpty.string_of_uint];
    rewrite !digits_value_step by reflexivity; reflexivity.
Qed.

Lemma int_of_str_digits (d : Decimal.uint) :
  d <> Decimal.Nil ->
  int_of_str (NilEmpty.string_of_uint d) = Ok (Z.of_N (Pos.of_uint d)).
Proof.
  intros H. unfold int_of_str.
  rewrite strip_none by apply digits_have_no_space.
  pose proof (digits_value_first d H) as V.
  destruct d; [contradiction | ..]; cbn [NilEmpty.string_of_uint] in *;
    cbv zeta; cbv iota; rewrite V; reflexivity.
Qed.

Lemma int_of_str_minus_digits (d : Decimal.uint) :
  d <> Decimal.Nil ->
  int_of_str (String "-" (NilEmpty.string_of_uint d))
  = Ok (- Z.of_N (Pos.of_uint d)).
Proof.
  intros H. unfold int_of_str.
  rewrite strip_none
    by (cbn [str_forallb]; rewrite digits_have_no_space; reflexivity).
  cbv zeta; cbv iota. rewrite (digits_value_first d H). reflexivity.
Qed.

Lemma string_of_uint_nonnil (d : Decimal.uint) :
  d <> Decimal.Nil -> NilZero.string_of_uint d = NilEmpty.string_of_uint d.
Proof. destruct d; [contradiction | reflexivity ..]. Qed.

(** [int(str(n)) == n] *)
Lemma int_of_str_of_int (n : Z) : int_of_str (str_of_int n) = Ok n.
Proof.
  unfold str_of_int. destruct n as [|p|p]; [reflexivity | ..];
    cbn [Z.to_int NilZero.string_of_int];
    pose proof (DecimalPos.Unsigned.to_uint_nonnil p) as N;
    rewrite string_of_uint_nonnil by exact N;
    [ rewrite int_of_str_digits by exact N
    | rewrite int_of_str_minus_digits by exact N ];
    rewrite DecimalPos.Unsigned.of_to; reflexivity.
Qed.

End TextLaws.

(** ** More properties of the span builder *)

Module BuilderLaws.
Import Py Span Spec Views Examples Samples SpanProps TextLaws.

Lemma build_span_shape (now : Z) (record : json) (s : span) :
  build_span now record = Ok s ->
  exists rel life pid ppid guid service proc_name proc_user cpu working_set net
         io_read_count io_write_count io_read_mb io_write_mb latency_read
         latency_write,
    get_int record "ProcStartTimeRelativeMs" = Ok rel
    /\ get_int record "ProcLifetimeMs" = Ok life
    /\ get_int record "ProcID" = Ok pid
    /\ get_int record "ProcParentID" = Ok ppid
    /\ session_guid record = Ok (JStr guid)
    /\ (if is_logoff record
        then (logon_type <- get record "LogonProcType" (JStr "unknown-service") ;;
              get record "LogoffProcType" logon_type)
        else get record "LogonProcType" (JStr "unknown-service")) = Ok service
    /\ get record "ProcName" (JStr "unknown-span") = Ok proc_name
    /\ get record "ProcUser" (JStr "unknown-user") = Ok proc_user
    /\ get_int record "ProcCPUTimeMs" = Ok cpu
    /\ get_float record "ProcWorkingSetMB" = Ok working_set
    /\ get_float record "ProcNetKBPS" = Ok net
    /\ get_int record "ProcIOReadCount" = Ok io_read_count
    /\ get_int record "ProcIOWriteCount" = Ok io_write_count
    /\ get_int record "ProcIOReadMB" = Ok io_read_mb
    /\ get_int record "ProcIOWriteMB" = Ok io_write_mb
    /\ get_int record "ProcIOLatencyReadMs2" = Ok latency_read
    /\ get_int record "ProcIOLatencyWriteMs2" = Ok latency_write
    /\ s = {|
        _guid := guid;
        _trace_id := trace_id_for (is_logoff record) guid;
        resourceSpans := [
          {| resource_attributes := [("service.name", stringValue service)];
             scopeSpans := [
               {| spans := [
                    {| traceId := trace_id_for (is_logoff record) guid;
                       spanId := format_016x pid;
                       parentSpanId := if truthy ppid then format_016x ppid else "";
                       name := proc_name;
                       kind := "SPAN_KIND_INTERNAL";
                       startTimeUnixNano :=
                         str_of_int (now * 1000000000 + rel * 1000000);
                       endTimeUnixNano :=
                         str_of_int
                           (now * 1000000000 + rel * 1000000 + life * 1000000);
                       attributes := [
                         ("ProcUser", stringValue proc_user);
                         ("ProcCPUTimeMs", intValue cpu);
                         ("ProcWorkingSetMB", doubleValue (Float working_set));
                         ("ProcNetKBPS", doubleValue (Float net));
                         ("ProcIOReadCount", intValue io_read_count);
                         ("ProcIOWriteCount", intValue io_write_count);
                         ("ProcIOReadMB", doubleValue (Int io_read_mb));
                         ("ProcIOWriteMB", doubleValue (Int io_write_mb));
                         ("ProcIOLatencyReadMs2", intValue latency_read);
                         ("ProcIOLatencyWriteMs2", intValue latency_write);
                         ("ProcLifetimeMs", intValue life);
                         ("event_type",
                          stringValue
                            (JStr (if is_logoff record then "logoff" else "logon")))
                       ] |} ] |} ] |} ]
      |}.
Proof.
  unfold build_span; intros H.
  repeat bind_step H.
  injection H as <-.
  unfold replace_dashes in *.
  match goal with
  | E : match ?g with _ => _ end = Ok _ |- _ =>
      destruct g; try discriminate E; injection E as <-
  end.
  match goal with
  | E : (if truthy ?p then _ else _) = Ok ?x |- _ =>
      assert (x = if truthy p then format_016x p else "")
        by (destruct (truthy p); congruence);
      subst x; clear E
  end.
  unfold session_guid, is_logoff, trace_id_for.
  do 17 eexists.
  repeat (split; [first [reflexivity | eassumption]|]).
  cbn [fst snd].
  destruct (contains record "LogoffProcType"); reflexivity.
Qed.

Lemma int_field_get_int (record : json) (key : string) (n v : Z) :
  int_field record key n -> get_int record key = Ok v -> v = n.
Proof.
  intros [F | [F ->]] G.
  - rewrite (get_int_field _ _ _ F) in G. congruence.
  - exact (get_int_absent _ _ _ F G).
Qed.

(** X1.  The start and the end of a span are written in decimal: [int] reads
    them back as [int(time.time())] in nanoseconds plus the relative start,
    and that plus the lifetime.  Nothing is clamped: the end is
    [ProcLifetimeMs] milliseconds after the start, and before it when the
    lifetime is negative. *)
Theorem timestamps_are_decimal_nanoseconds
  (now : Z) (record : json) (s : span) (o : otlp_span) (rel life : Z) :
  build_span now record = Ok s ->
  otlp s = Some o ->
  int_field record "ProcStartTimeRelativeMs" rel ->
  int_field record "ProcLifetimeMs" life ->
  int_of_str (startTimeUnixNano o) = Ok (now * 1000000000 + rel * 1000000)
  /\ int_of_str (endTimeUnixNano o)
     = Ok (now * 1000000000 + rel * 1000000 + life * 1000000)
  /\ attribute "ProcLifetimeMs" (attributes o) = Some (intValue life).
Proof.
  intros B O R L.
  destruct (build_span_shape _ _ _ B)
    as (rel' & life' & pid & ppid & guid & service & pn & pu & cpu & ws & net
        & rc & wc & rmb & wmb & lr & lw & Grel & Glife & _ & _ & _ & _ & _ & _
        & _ & _ & _ & _ & _ & _ & _ & _ & _ & ->).
  rewrite (int_field_get_int _ _ _ _ R Grel) in O.
  rewrite (int_field_get_int _ _ _ _ L Glife) in O.
  cbn [otlp resourceSpans scopeSpans spans] in O. injection O as <-.
  cbn [startTimeUnixNano endTimeUnixNano attributes].
  rewrite !int_of_str_of_int. repeat split; reflexivity.
Qed.

Lemma timestamps_witness :
  exists s o,
    build_span 1700000000 timed_record = Ok s /\ otlp s = Some o
    /\ int_of_str (startTimeUnixNano o) = Ok 1700000001500000000
    /\ int_of_str (endTimeUnixNano o) = Ok 1700000006500000000.
Proof.
  eexists; eexists.
  split; [reflexivity|]. split; [reflexivity|].
  destruct (timestamps_are_decimal_nanoseconds
              1700000000 timed_record _ _ 1500 5000 eq_refl eq_refl
              (or_introl eq_refl) (or_introl eq_refl)) as (S1 & E1 & _).
  split; [exact S1 | exact E1].
Defined.

Lemma get_field (record : json) (key : string) (default v : json) :
  field record key = Some v -> get record key default = Ok v.
Proof.
  destruct record; cbn [field]; try discriminate.
  intros H. unfold get. now rewrite H.
Qed.

Lemma get_no_field (items : list (string * json)) (key : string) (default : json) :
  lookup key items = None -> get (JObj items) key default = Ok default.
Proof. intros H. unfold get. now rewrite H. Qed.

Lemma get_of_object (items : list (string * json)) (key : string) (default : json) :
  get (JObj items) key default
  = Ok match lookup key items with Some v => v | None => default end.
Proof. unfold get. destruct (lookup key items); reflexivity. Qed.

Lemma is_logoff_field (record : json) :
  is_logoff record
  = match field record "LogoffProcType" with Some _ => true | None => false end.
Proof. destruct record; reflexivity. Qed.

Lemma built_from_object (now : Z) (record : json) (s : span) :
  build_span now record = Ok s -> exists items, record = JObj items.
Proof.
  destruct record; try (intros H; discriminate H).
  intros _. eexists; reflexivity.
Qed.

(** X2.  The key [LogoffProcType] alone decides the event type, whatever its
    value: with it the trace id starts with [2], the span is tagged
    [logoff], the service name is the value of [LogoffProcType] even when
    [LogonProcType] is there as well, and the exporter files the session
    under [uberAgent:logoffTraceMap]; without it the trace id starts with
    [1], the span is tagged [logon], the service name is [LogonProcType] or
    [unknown-service], and the session goes to [uberAgent:logonTraceMap]. *)
Theorem logoff_key_decides_event_type
  (now : Z) (record : json) (s : span) (o : otlp_span) :
  build_span now record = Ok s ->
  otlp s = Some o ->
  (forall v, field record "LogoffProcType" = Some v ->
     startswith (_trace_id s) "2" = true
     /\ attribute "event_type" (attributes o) = Some (stringValue (JStr "logoff"))
     /\ service_name s = Some (stringValue v)
     /\ Exporter.metric_name (_trace_id s) = "uberAgent:logoffTraceMap")
  /\ (field record "LogoffProcType" = None ->
      startswith (_trace_id s) "1" = true
      /\ attribute "event_type" (attributes o) = Some (stringValue (JStr "logon"))
      /\ service_name s
         = Some (stringValue
                   match field record "LogonProcType" with
                   | Some v => v
                   | None => JStr "unknown-service"
                   end)
      /\ Exporter.metric_name (_trace_id s) = "uberAgent:logonTraceMap").
Proof.
  intros B O.
  destruct (built_from_object _ _ _ B) as [items ->].
  destruct (build_span_shape _ _ _ B)
    as (rel & life & pid & ppid & guid & service & pn & pu & cpu & ws & net
        & rc & wc & rmb & wmb & lr & lw & _ & _ & _ & _ & _ & Service & _ & _
        & _ & _ & _ & _ & _ & _ & _ & _ & _ & ->).
  cbn [otlp resourceSpans scopeSpans spans] in O. injection O as <-.
  rewrite is_logoff_field in *. cbn [field] in *.
  unfold service_name, Exporter.metric_name.
  cbn [_trace_id attributes resourceSpans resource_attributes].
  split.
  - intros v F. rewrite F in *.
    rewrite get_of_object in Service. cbn [bind] in Service.
    rewrite get_of_object, F in Service.
    injection Service as <-. repeat split; reflexivity.
  - intros F. rewrite F in *.
    rewrite get_of_object in Service. injection Service as <-.
    repeat split; reflexivity.
Qed.

Lemma logoff_key_witness :
  exists s o,
    build_span 1700000000 null_logoff = Ok s /\ otlp s = Some o
    /\ startswith (_trace_id s) "2" = true
    /\ service_name s = Some (stringValue JNull).
Proof.
  eexists; eexists.
  split; [reflexivity|]. split; [reflexivity|].
  destruct (logoff_key_decides_event_type 1700000000 null_logoff _ _
              eq_refl eq_refl) as [Off _].
  destruct (Off JNull eq_refl) as (P & _ & N & _).
  split; [exact P | exact N].
Defined.

Lemma str_take_append (n : nat) (s t : string) :
  (n <= String.length s)%nat -> str_take n (s ++ t) = str_take n s.
Proof.
  revert s. induction n as [|n IH]; intros s L.
  - destruct s; reflexivity.
  - destruct s as [|c s]; cbn [String.length] in L; [lia|].
    cbn [append str_take]. f_equal. apply IH. lia.
Qed.

Lemma trace_id_for_long (logoff : bool) (guid : string) :
  (31 <= String.length (remove_dashes guid))%nat ->
  trace_id_for logoff guid
  = String (if logoff then "2" else "1")%char (str_take 31 (remove_dashes guid)).
Proof.
  intros L. unfold trace_id_for.
  rewrite <- (str_take_append 31 (remove_dashes guid) (str_repeat "0" 31) L).
  destruct logoff; reflexivity.
Qed.

(** X3.  Of a [SessionGUID] that has at least 31 characters besides its dashes,
    the trace id keeps the first 31 and nothing else: two spans have the
    same trace id exactly when they have the same event type and their
    GUIDs agree on these 31 characters.  The 32nd hexadecimal digit of a
    GUID in its usual form is dropped, so two sessions whose GUIDs differ in
    the last digit only share their trace id. *)
Theorem trace_id_keeps_31_characters
  (now1 now2 : Z) (r1 r2 : json) (s1 s2 : span) (g1 g2 : string) :
  build_span now1 r1 = Ok s1 ->
  build_span now2 r2 = Ok s2 ->
  session_guid r1 = Ok (JStr g1) ->
  session_guid r2 = Ok (JStr g2) ->
  (31 <= String.length (remove_dashes g1))%nat ->
  (31 <= String.length (remove_dashes g2))%nat ->
  _trace_id s1 = _trace_id s2
  <-> is_logoff r1 = is_logoff r2
      /\ str_take 31 (remove_dashes g1) = str_take 31 (remove_dashes g2).
Proof.
  intros B1 B2 G1 G2 L1 L2.
  destruct (build_span_inv _ _ _ B1) as (g1' & _ & _ & _ & G1' & _ & _ & _ & T1 & _).
  destruct (build_span_inv _ _ _ B2) as (g2' & _ & _ & _ & G2' & _ & _ & _ & T2 & _).
  assert (g1' = g1) by congruence. assert (g2' = g2) by congruence. subst.
  rewrite T1, T2, !trace_id_for_long by assumption.
  split.
  - intros E. injection E as P T. split; [|exact T].
    destruct (is_logoff r1), (is_logoff r2); try reflexivity; discriminate P.
  - intros [-> ->]. reflexivity.
Qed.

Lemma trace_id_collision_witness :
  exists s1 s2,
    build_span 1700000000 session_one = Ok s1
    /\ build_span 1700000000 session_two = Ok s2
    /\ _guid s1 <> _guid s2
    /\ _trace_id s1 = _trace_id s2.
Proof.
  assert (B1 : build_span 1700000000 session_one = Ok (built session_one))
    by (vm_compute; reflexivity).
  assert (B2 : build_span 1700000000 session_two = Ok (built session_two))
    by (vm_compute; reflexivity).
  exists (built session_one), (built session_two).
  split; [exact B1|]. split; [exact B2|].
  split; [vm_compute; discriminate|].
  assert (L1 : (31 <= String.length
                        (remove_dashes "abcd1234-0000-0000-0000-000000000001"))%nat)
    by (vm_compute; lia).
  assert (L2 : (31 <= String.length
                        (remove_dashes "abcd1234-0000-0000-0000-000000000002"))%nat)
    by (vm_compute; lia).
  destruct (trace_id_keeps_31_characters
              1700000000 1700000000 session_one session_two _ _ _ _
              B1 B2 eq_refl eq_refl L1 L2) as [_ Back].
  apply Back. split; vm_compute; reflexivity.
Defined.
(** X4.  In the older variant of the program, [app copy.py], the trace id of a
    GUID with 32 characters besides its dashes is the GUID without its
    dashes: no digit is dropped, so two such GUIDs have the same trace id
    only if they are the same up to their dashes. *)
Theorem trace_id_copy_keeps_the_guid (g1 g2 : string) :
  String.length (remove_dashes g1) = 32%nat ->
  String.length (remove_dashes g2) = 32%nat ->
  trace_id_copy g1 = remove_dashes g1
  /\ (trace_id_copy g1 = trace_id_copy g2 <-> remove_dashes g1 = remove_dashes g2).
Proof.
  assert (K : forall g, String.length (remove_dashes g) = 32%nat ->
                        trace_id_copy g = remove_dashes g).
  { intros g L. unfold trace_id_copy.
    rewrite str_take_append by lia.
    generalize dependent (remove_dashes g). intros s L.
    clear g. revert L. generalize 32%nat as n. intros n. revert s.
    induction n as [|n IH]; intros [|c s] L; try discriminate L; [reflexivity|].
    change (str_take (S n) (String c s)) with (String c (str_take n s)).
    f_equal. apply IH. now injection L. }
  intros L1 L2. rewrite !K by assumption. split; [reflexivity | tauto].
Qed.

Lemma trace_id_copy_witness :
  trace_id_copy "abcd1234-0000-0000-0000-000000000001"
  <> trace_id_copy "abcd1234-0000-0000-0000-000000000002".
Proof.
  intros E.
  apply (trace_id_copy_keeps_the_guid
           "abcd1234-0000-0000-0000-000000000001"
           "abcd1234-0000-0000-0000-000000000002" eq_refl eq_refl) in E.
  vm_compute in E. discriminate E.
Defined.

Lemma int_like_converts (v : json) :
  is_int_like v = true -> exists n, int v = Ok n.
Proof.
  destruct v as [| | n | f | | |]; try discriminate.
  - intros _. eexists; reflexivity.
  - destruct f; try discriminate; intros _; eexists; reflexivity.
Qed.

Lemma float_like_converts (v : json) :
  is_float_like v = true -> exists x, float v = Ok x.
Proof.
  destruct v as [| | n | f | | |]; try discriminate; cbn [is_float_like float].
  - intros ->. eexists; reflexivity.
  - intros _. eexists; reflexivity.
Qed.

Lemma get_int_converts (items : list (string * json)) (key : string) :
  (forall v, lookup key items = Some v -> is_int_like v = true) ->
  exists n, get_int (JObj items) key = Ok n.
Proof.
  intros H. unfold get_int. rewrite get_of_object. cbn [bind].
  destruct (lookup key items) as [v|].
  - apply int_like_converts, H. reflexivity.
  - eexists; reflexivity.
Qed.

Lemma get_float_converts (items : list (string * json)) (key : string) :
  (forall v, lookup key items = Some v -> is_float_like v = true) ->
  exists x, get_float (JObj items) key = Ok x.
Proof.
  intros H. unfold get_float. rewrite get_of_object. cbn [bind].
  destruct (lookup key items) as [v|].
  - apply float_like_converts, H. reflexivity.
  - eexists; reflexivity.
Qed.

Lemma guid_converts (items : list (string * json)) :
  (forall v, lookup "SessionGUID" items = Some v -> is_str v = true) ->
  exists g, get (JObj items) "SessionGUID" (JStr "") = Ok (JStr g).
Proof.
  intros H. rewrite get_of_object.
  destruct (lookup "SessionGUID" items) as [v|].
  - specialize (H v eq_refl). destruct v; try discriminate H.
    eexists; reflexivity.
  - eexists; reflexivity.
Qed.

Ltac int_key items key H :=
  let n := fresh "n" in
  let E := fresh "E" in
  destruct (get_int_converts items key) as [n E];
  [ intros ? ?; eapply (H key); [cbn; tauto | eassumption] | rewrite E; cbn [bind] ].

Ltac float_key items key H :=
  let x := fresh "x" in
  let E := fresh "E" in
  destruct (get_float_converts items key) as [x E];
  [ intros ? ?; eapply (H key); [cbn; tauto | eassumption] | rewrite E; cbn [bind] ].

(** X5.  [build_span] accepts every JSON object whose numeric fields, where it
    has them, hold JSON numbers (an integer or a finite float where [int]
    converts, a float or an integer below the overflow threshold of a double
    where [float] converts) and whose [SessionGUID], where it has one, is a
    string.  No other field is looked at: [ProcName], [ProcUser],
    [LogonProcType] and [LogoffProcType] may hold a value of any type. *)
Theorem well_typed_record_is_accepted
  (now : Z) (items : list (string * json)) :
  (forall k v, In k int_keys -> lookup k items = Some v -> is_int_like v = true) ->
  (forall k v, In k float_keys -> lookup k items = Some v ->
               is_float_like v = true) ->
  (forall v, lookup "SessionGUID" items = Some v -> is_str v = true) ->
  exists s, build_span now (JObj items) = Ok s.
Proof.
  intros HI HF HG. unfold build_span.
  int_key items "ProcStartTimeRelativeMs" HI.
  int_key items "ProcLifetimeMs" HI.
  int_key items "ProcID" HI.
  int_key items "ProcParentID" HI.
  destruct (guid_converts items HG) as [g G].
  rewrite get_of_object in G. injection G as G.
  rewrite !get_of_object, G.
  destruct (truthy n2), (contains (JObj items) "LogoffProcType");
    cbn [bind replace_dashes]; rewrite ?get_of_object; cbn [bind].
  all: int_key items "ProcCPUTimeMs" HI.
  all: float_key items "ProcWorkingSetMB" HF.
  all: float_key items "ProcNetKBPS" HF.
  all: int_key items "ProcIOReadCount" HI.
  all: int_key items "ProcIOWriteCount" HI.
  all: int_key items "ProcIOReadMB" HI.
  all: int_key items "ProcIOWriteMB" HI.
  all: int_key items "ProcIOLatencyReadMs2" HI.
  all: int_key items "ProcIOLatencyWriteMs2" HI.
  all: eexists; reflexivity.
Qed.

Lemma not_numeric_int (v : json) :
  is_not_numeric v = true -> int v = Raise TypeError.
Proof. destruct v; try discriminate; reflexivity. Qed.

Lemma not_numeric_float (v : json) :
  is_not_numeric v = true -> float v = Raise TypeError.
Proof. destruct v; try discriminate; reflexivity. Qed.

Lemma get_int_not_numeric (items : list (string * json)) (key : string)
  (v : json) (n : Z) :
  lookup key items = Some v -> is_not_numeric v = true ->
  get_int (JObj items) key = Ok n -> False.
Proof.
  intros L N. unfold get_int. rewrite get_of_object, L. cbn [bind].
  rewrite (not_numeric_int _ N). discriminate.
Qed.

Lemma get_float_not_numeric (items : list (string * json)) (key : string)
  (v : json) (x : pyfloat) :
  lookup key items = Some v -> is_not_numeric v = true ->
  get_float (JObj items) key = Ok x -> False.
Proof.
  intros L N. unfold get_float. rewrite get_of_object, L. cbn [bind].
  rewrite (not_numeric_float _ N). discriminate.
Qed.

(** X6.  [build_span] refuses every JSON object in which one of the numeric
    fields holds [null], a list or an object, or in which [SessionGUID]
    holds anything but a string, [null] included: it raises, and no span
    comes of the record. *)
Theorem ill_typed_record_is_refused
  (now : Z) (items : list (string * json)) :
  (exists k v, In k (int_keys ++ float_keys)
               /\ lookup k items = Some v /\ is_not_numeric v = true)
  \/ (exists v, lookup "SessionGUID" items = Some v /\ is_str v = false) ->
  exists e, build_span now (JObj items) = Raise e.
Proof.
  intros H.
  destruct (build_span now (JObj items)) as [s|e] eqn:B;
    [exfalso | eexists; reflexivity].
  destruct (build_span_shape _ _ _ B)
    as (rel & life & pid & ppid & guid & service & pn & pu & cpu & ws & net
        & rc & wc & rmb & wmb & lr & lw & G1 & G2 & G3 & G4 & Guid & _ & _ & _
        & G5 & F1 & F2 & G6 & G7 & G8 & G9 & G10 & G11 & _).
  destruct H as [(k & v & K & L & N) | (v & L & N)].
  - cbn in K.
    repeat (destruct K as [<- | K];
            [ first [ eapply get_int_not_numeric; eassumption
                    | eapply get_float_not_numeric; eassumption ] | ]).
    contradiction.
  - unfold session_guid in Guid. rewrite get_of_object, L in Guid.
    injection Guid as ->. discriminate N.
Qed.

Lemma ill_typed_record_witness :
  exists e,
    build_span 1700000000
      (JObj [("ProcID", JInt 7); ("SessionGUID", JNull)]) = Raise e.
Proof.
  apply ill_typed_record_is_refused.
  right. exists JNull. split; reflexivity.
Defined.

Ltac typed_keys :=
  let k := fresh "k" in
  let v := fresh "v" in
  let K := fresh "K" in
  let L := fresh "L" in
  intros k v K L; cbn in K;
  repeat (destruct K as [<- | K];
          [ cbn in L; first [discriminate L | injection L as <-; reflexivity] | ]);
  contradiction.

Lemma well_typed_record_witness :
  exists s,
    build_span 1700000000
      (JObj [("ProcID", JFloat (S754_finite false 5 (-1)));
             ("ProcWorkingSetMB", JInt 3);
             ("ProcName", JInt 7); ("LogonProcType", JNull)]) = Ok s.
Proof.
  apply well_typed_record_is_accepted.
  - typed_keys.
  - typed_keys.
  - intros v L. discriminate L.
Defined.

Lemma get_int_float_field (record : json) (key : string) (f : spec_float) :
  field record key = Some (JFloat f) -> get_int record key = int_of_float f.
Proof.
  destruct record; cbn [field]; try discriminate.
  intros H. unfold get_int, get. now rewrite H.
Qed.

Lemma get_float_float_field (record : json) (key : string) (f : spec_float) :
  field record key = Some (JFloat f) -> get_float record key = Ok (FloatLit f).
Proof.
  destruct record; cbn [field]; try discriminate.
  intros H. unfold get_float, get. now rewrite H.
Qed.

(** X7.  The megabytes read and written are converted with [int] although they
    are exported as doubles: a fractional [ProcIOReadMB] or [ProcIOWriteMB]
    loses its fraction on the way into the span, where a fractional
    [ProcWorkingSetMB] or [ProcNetKBPS] is kept as it is. *)
Theorem io_megabytes_lose_their_fraction
  (now : Z) (record : json) (s : span) (o : otlp_span) :
  build_span now record = Ok s ->
  otlp s = Some o ->
  (forall key f,
      key = "ProcIOReadMB" \/ key = "ProcIOWriteMB" ->
      field record key = Some (JFloat f) ->
      exists n,
        int_of_float f = Ok n
        /\ attribute key (attributes o) = Some (doubleValue (Int n)))
  /\ (forall key f,
         key = "ProcWorkingSetMB" \/ key = "ProcNetKBPS" ->
         field record key = Some (JFloat f) ->
         attribute key (attributes o) = Some (doubleValue (Float (FloatLit f)))).
Proof.
  intros B O.
  destruct (build_span_shape _ _ _ B)
    as (rel & life & pid & ppid & guid & service & pn & pu & cpu & ws & net
        & rc & wc & rmb & wmb & lr & lw & _ & _ & _ & _ & _ & _ & _ & _ & _
        & Ws & Net & _ & _ & Rmb & Wmb & _ & _ & ->).
  cbn [otlp resourceSpans scopeSpans spans] in O. injection O as <-.
  cbn [attributes]. split.
  - intros key f [-> | ->] F;
      [ rewrite (get_int_float_field _ _ _ F) in Rmb; exists rmb
      | rewrite (get_int_float_field _ _ _ F) in Wmb; exists wmb ];
      (split; [assumption | reflexivity]).
  - intros key f [-> | ->] F;
      [ rewrite (get_float_float_field _ _ _ F) in Ws
      | rewrite (get_float_float_field _ _ _ F) in Net ];
      cbn; congruence.
Qed.

Lemma io_megabytes_witness :
  exists s o,
    build_span 1700000000 fractional = Ok s /\ otlp s = Some o
    /\ attribute "ProcIOReadMB" (attributes o) = Some (doubleValue (Int 2))
    /\ attribute "ProcWorkingSetMB" (attributes o)
       = Some (doubleValue (Float (FloatLit (S754_finite false 5 (-1))))).
Proof.
  eexists; eexists.
  split; [reflexivity|]. split; [reflexivity|].
  destruct (io_megabytes_lose_their_fraction 1700000000 fractional _ _
              eq_refl eq_refl) as [Io Ws].
  split.
  - destruct (Io "ProcIOReadMB" (S754_finite false 5 (-1))
                (or_introl eq_refl) eq_refl) as (n & N & A).
    injection N as <-. exact A.
  - exact (Ws "ProcWorkingSetMB" _ (or_introl eq_refl) eq_refl).
Defined.

End BuilderLaws.

(** ** More properties of the worker *)

Module WorkerLaws.
Import Py Span Pipeline Worker Spec Views Conversion Examples Samples.
Local Open Scope Z_scope.

Section OneWorker.
Variable env : environment.

Lemma worker_iteration_line (st : state) (line : bytes) (rest : list bytes) :
  recv_queue st = line :: rest ->
  exists st',
    worker_iteration env st = (Ok tt, st')
    /\ recv_queue st' = rest
    /\ checks st' = checks st
    /\ records_received st' = records_received st + 1
    /\ match loads env line with
       | Ok v =>
           clock_reads st' = S (clock_reads st)
           /\ match build_span (time_at env (clock_reads st) / 1000000000) v with
              | Ok s =>
                  span_queue st' = (span_queue st ++ [s])%list
                  /\ records_parsed st' = records_parsed st + 1
                  /\ logged st' = logged st
              | Raise e =>
                  span_queue st' = span_queue st
                  /\ records_parsed st' = records_parsed st
                  /\ logged st' = (logged st ++ [ParseFailed e])%list
              end
       | Raise e =>
           clock_reads st' = clock_reads st
           /\ span_queue st' = span_queue st
           /\ records_parsed st' = records_parsed st
           /\ logged st' = (logged st ++ [ParseFailed e])%list
       end.
Proof.
  intros Hq.
  unfold worker_iteration, parse_and_forward, mbind, try_except, recv_queue_get, lift.
  rewrite Hq. cbn.
  destruct (loads env line) as [v|e]; cbn.
  - destruct (build_span _ v) as [s|e]; cbn;
      (eexists; split; [reflexivity|]; cbn; repeat split).
  - eexists; split; [reflexivity|]; cbn; repeat split.
Qed.

Lemma worker_iteration_idle (st : state) :
  recv_queue st = [] -> worker_iteration env st = (Ok tt, st).
Proof.
  intros Hq.
  unfold worker_iteration, mbind, try_except, recv_queue_get. now rewrite Hq.
Qed.

Lemma worker_step (turns : nat) (st : state) :
  worker env (S turns) st
  = if is_set_at env (checks st) then (Ok tt, set_checks (S (checks st)) st)
    else match worker_iteration env (set_checks (S (checks st)) st) with
         | (Ok _, st') => worker env turns st'
         | (Raise e, st') => (Raise e, st')
         end.
Proof.
  cbn [worker]. unfold mbind at 1, is_set.
  destruct (is_set_at env (checks st)); [reflexivity|].
  unfold mbind. reflexivity.
Qed.

(** X8.  Whatever the lines are and whenever shutdown is signalled, a worker
    accounts for every line it takes: the lines are taken from the head of
    the receive queue, each is counted as received, and each either adds one
    span to the tail of the span queue and one to the parsed counter, or
    adds one entry to the log of parse failures.  No line is dropped
    without a trace and none is counted twice. *)
Theorem worker_accounts_for_every_line (turns : nat) (st : state) :
  exists (taken : list bytes) (spans : list span) (failures : list exn),
    recv_queue st = (taken ++ recv_queue (snd (worker env turns st)))%list
    /\ records_received (snd (worker env turns st))
       = records_received st + Z.of_nat (List.length taken)
    /\ span_queue (snd (worker env turns st)) = (span_queue st ++ spans)%list
    /\ records_parsed (snd (worker env turns st))
       = records_parsed st + Z.of_nat (List.length spans)
    /\ logged (snd (worker env turns st))
       = (logged st ++ map ParseFailed failures)%list
    /\ List.length taken = (List.length spans + List.length failures)%nat.
Proof.
  revert st. induction turns as [|turns IH]; intros st.
  - exists [], [], []. cbn. rewrite !app_nil_r. repeat split; lia.
  - rewrite worker_step.
    destruct (is_set_at env (checks st)).
    { exists [], [], []. cbn. rewrite !app_nil_r. repeat split; lia. }
    set (st0 := set_checks (S (checks st)) st).
    destruct (recv_queue st0) as [|line rest] eqn:Hq.
    + rewrite (worker_iteration_idle st0 Hq).
      destruct (IH st0) as (taken & spans & failures & H).
      exists taken, spans, failures. exact H.
    + destruct (worker_iteration_line st0 line rest Hq)
        as (st1 & E & Q & _ & R & C).
      rewrite E.
      destruct (IH st1) as (taken & spans & failures & T & R' & S' & P' & L' & N).
      change (recv_queue st) with (recv_queue st0). rewrite Hq.
      change (records_received st) with (records_received st0).
      change (span_queue st) with (span_queue st0).
      change (records_parsed st) with (records_parsed st0).
      change (logged st) with (logged st0).
      rewrite Q in T.
      destruct (loads env line) as [v|e];
        [destruct C as [_ C];
         destruct (build_span _ v) as [s|e]|];
        [ destruct C as (C1 & C2 & C3);
          exists (line :: taken), (s :: spans), failures
        | destruct C as (C1 & C2 & C3);
          exists (line :: taken), spans, (e :: failures)
        | destruct C as (_ & C1 & C2 & C3);
          exists (line :: taken), spans, (e :: failures) ];
        rewrite R', S', P', L', R, C1, C2, C3, T;
        cbn [List.length map app]; rewrite <- ?app_assoc; cbn [app];
        repeat split; lia.
Qed.

Lemma worker_idle (turns : nat) :
  forall st,
    recv_queue st = [] ->
    recv_queue (snd (worker env turns st)) = []
    /\ span_queue (snd (worker env turns st)) = span_queue st
    /\ records_received (snd (worker env turns st)) = records_received st
    /\ records_parsed (snd (worker env turns st)) = records_parsed st
    /\ logged (snd (worker env turns st)) = logged st.
Proof.
  induction turns as [|turns IH]; intros st Hq; [cbn; now rewrite Hq|].
  rewrite worker_step.
  destruct (is_set_at env (checks st)); [cbn; now rewrite Hq|].
  rewrite worker_iteration_idle by exact Hq.
  apply (IH (set_checks (S (checks st)) st) Hq).
Qed.

Lemma worker_drains (turns : nat) (st : state) :
  (List.length (recv_queue st) <= turns)%nat ->
  (forall k, (k < List.length (recv_queue st))%nat ->
             is_set_at env (checks st + k) = false) ->
  recv_queue (snd (worker env turns st)) = []
  /\ span_queue (snd (worker env turns st))
     = (span_queue st ++ converted env (clock_reads st) (recv_queue st))%list
  /\ records_received (snd (worker env turns st))
     = records_received st + Z.of_nat (List.length (recv_queue st))
  /\ records_parsed (snd (worker env turns st))
     = records_parsed st
       + Z.of_nat (List.length (converted env (clock_reads st) (recv_queue st))).
Proof.
  revert st. induction turns as [|turns IH]; intros st T Run.
  - destruct (recv_queue st) eqn:Hq; [|cbn in T; lia].
    cbn. rewrite app_nil_r. repeat split; try assumption; lia.
  - destruct (recv_queue st) as [|line rest] eqn:Hq.
    + destruct (worker_idle (S turns) st Hq) as (Q & S' & R & P & _).
      rewrite Q, S', R, P. cbn. rewrite app_nil_r. repeat split; lia.
    + rewrite worker_step.
      pose proof (Run 0%nat ltac:(cbn; lia)) as Go.
      rewrite Nat.add_0_r in Go. rewrite Go.
      set (st0 := set_checks (S (checks st)) st).
      destruct (worker_iteration_line st0 line rest Hq)
        as (st1 & E & Q & K & R & C).
      rewrite E.
      assert (T1 : (List.length (recv_queue st1) <= turns)%nat)
        by (rewrite Q; cbn in T; lia).
      assert (Run1 : forall k, (k < List.length (recv_queue st1))%nat ->
                               is_set_at env (checks st1 + k) = false).
      { intros k Hk. rewrite K. cbn [st0 checks set_checks].
        replace (S (checks st) + k)%nat with (checks st + S k)%nat by lia.
        apply Run. rewrite Q in Hk. cbn. lia. }
      destruct (IH st1 T1 Run1) as (Q' & S' & R' & P').
      rewrite Q', S', R', P', Q, R.
      change (records_received st0) with (records_received st).
      cbn [converted List.length].
      destruct (loads env line) as [v|e].
      * destruct C as [Clock C]. rewrite Clock.
        change (clock_reads st0) with (clock_reads st) in *.
        destruct (build_span _ v) as [s|e]; destruct C as (C1 & C2 & _);
          rewrite C1, C2;
          change (span_queue st0) with (span_queue st);
          change (records_parsed st0) with (records_parsed st);
          cbn [List.length]; rewrite <- ?app_assoc; cbn [app];
          repeat split; lia.
      * destruct C as (Clock & C1 & C2 & _). rewrite Clock, C1, C2.
        change (clock_reads st0) with (clock_reads st).
        change (span_queue st0) with (span_queue st).
        change (records_parsed st0) with (records_parsed st).
        repeat split; lia.
Qed.

(** X9.  A worker that is given at least as many turns as lines wait, and that
    does not find shutdown signalled while lines wait, empties the receive
    queue; the spans of the lines that decode and build are added to the
    span queue in the order of their lines, and the counters tell how many
    lines there were and how many gave a span. *)
Theorem worker_converts_lines_in_order (turns : nat) (st : state) :
  (List.length (recv_queue st) <= turns)%nat ->
  (forall k, (k < List.length (recv_queue st))%nat ->
             is_set_at env (checks st + k) = false) ->
  exists st',
    worker env turns st = (Ok tt, st')
    /\ recv_queue st' = []
    /\ span_queue st'
       = (span_queue st ++ converted env (clock_reads st) (recv_queue st))%list
    /\ records_received st'
       = records_received st + Z.of_nat (List.length (recv_queue st))
    /\ records_parsed st'
       = records_parsed st
         + Z.of_nat (List.length (converted env (clock_reads st) (recv_queue st))).
Proof.
  intros T Run.
  destruct (worker_drains turns st T Run) as (Q & S' & R & P).
  pose proof (WorkerProps.worker_never_raises env turns st) as N.
  destruct (worker env turns st) as [r st']; cbn [fst snd] in *.
  exists st'. rewrite N. repeat split; assumption.
Qed.

End OneWorker.

Lemma worker_converts_witness :
  exists st',
    worker calm 2
      (set_recv_queue [list_byte_of_string "{}"; list_byte_of_string "no"]
         initial) = (Ok tt, st')
    /\ recv_queue st' = []
    /\ List.length (span_queue st') = 1%nat
    /\ records_received st' = 2.
Proof.
  destruct (worker_converts_lines_in_order calm 2
              (set_recv_queue [list_byte_of_string "{}"; list_byte_of_string "no"]
                 initial))
    as (st' & E & Q & S' & R & _).
  - cbn. lia.
  - intros k _. reflexivity.
  - exists st'. split; [exact E|]. split; [exact Q|].
    split; [rewrite S'; vm_compute; reflexivity | rewrite R; reflexivity].
Defined.

End WorkerLaws.

(** ** From the socket to the span queue *)

Module IngestLaws.
Import Py Span Pipeline Worker Reader Spec Views Conversion Examples Samples.
Local Open Scope Z_scope.

Lemma handle_client_effect (chunks : list bytes) (st : state) :
  Forall (fun data => data <> []) chunks ->
  snd (handle_client chunks st)
  = set_recv_queue (recv_queue st ++ raw_entries (List.concat chunks))%list st.
Proof.
  intros H. unfold handle_client.
  pose proof (ReaderProps.handle_chunks_spec chunks [] st H) as E.
  change (partial_line []) with (@nil byte) in E. cbn [app] in E.
  now rewrite E.
Qed.

(** X10.  From the socket to the span queue.  When a connection has delivered a
    stream, in whatever chunks, and a worker then runs without finding
    shutdown signalled until the receive queue is empty, the lines the
    worker has counted as received are the complete lines of the stream
    that are not blank, and the span queue has grown by the spans of those
    of them that decode and build, in the order in which the lines came in
    the stream. *)
Theorem stream_becomes_spans_in_order
  (env : environment) (chunks : list bytes) (turns : nat) (st : state) :
  Forall (fun data => data <> []) chunks ->
  recv_queue st = [] ->
  (List.length (raw_entries (List.concat chunks)) <= turns)%nat ->
  (forall k, (k < turns)%nat -> is_set_at env (checks st + k) = false) ->
  recv_queue (snd (worker env turns (snd (handle_client chunks st)))) = []
  /\ records_received (snd (worker env turns (snd (handle_client chunks st))))
     = records_received st
       + Z.of_nat (List.length
                     (filter has_content (terminated_lines (List.concat chunks))))
  /\ span_queue (snd (worker env turns (snd (handle_client chunks st))))
     = (span_queue st
        ++ converted env (clock_reads st)
             (filter has_content (terminated_lines (List.concat chunks))))%list.
Proof.
  intros H Q T Run.
  rewrite (handle_client_effect chunks st H), Q. cbn [app].
  set (st1 := set_recv_queue (raw_entries (List.concat chunks)) st).
  destruct (WorkerLaws.worker_drains env turns st1)
    as (E & S' & R & _).
  - exact T.
  - intros k Hk. apply Run. cbn [st1 recv_queue set_recv_queue] in Hk. lia.
  - repeat split; assumption.
Qed.

Lemma stream_becomes_spans_witness :
  List.length
    (span_queue
       (snd (worker calm 3
               (snd (handle_client
                       [list_byte_of_string "{"; [x7d; x0a; x20; x0a; x7b; x7d]]
                       initial))))) = 1%nat.
Proof.
  destruct (stream_becomes_spans_in_order calm
              [list_byte_of_string "{"; [x7d; x0a; x20; x0a; x7b; x7d]]
              3 initial) as (_ & _ & S').
  - repeat constructor; discriminate.
  - reflexivity.
  - vm_compute. lia.
  - intros k _. reflexivity.
  - rewrite S'. vm_compute. reflexivity.
Defined.

End IngestLaws.

(** ** More properties of the exporter *)

Module ExporterLaws.
Import Py Span Pipeline Exporter Spec Views Effects Examples Samples FrameProps.
Local Open Scope Z_scope.

Section OneExporter.
Variable env : environment.

Lemma attempt_effect (batch : list span) (st : state) :
  snd (timed (send_batch_body env batch) st) = after_attempt batch st
  /\ if post_fails (post_at env (posts st))
     then exists e, fst (timed (send_batch_body env batch) st) = Raise e
     else fst (timed (send_batch_body env batch) st) = Ok tt.
Proof.
  unfold timed, send_batch_body, session_post, raise_for_status, mbind, post_fails.
  destruct (post_at env (posts st)) as [status_code|].
  - destruct ((400 <=? status_code) && (status_code <? 600));
      (split; [reflexivity|]); [eexists|]; reflexivity.
  - split; [reflexivity|]. eexists; reflexivity.
Qed.

Lemma retry_effect (batch : list span) (n : nat) :
  forall st,
    exists m,
      (m <= n)%nat
      /\ posts (snd (retry n (timed (send_batch_body env batch)) st))
         = (posts st + m)%nat
      /\ posted (snd (retry n (timed (send_batch_body env batch)) st))
         = (posted st ++ repeat (flat_map resourceSpans batch) m)%list
      /\ batch_latency (snd (retry n (timed (send_batch_body env batch)) st))
         = batch_latency st + Z.of_nat m
      /\ (forall k, (S k < m)%nat ->
                    post_fails (post_at env (posts st + k)) = true)
      /\ match fst (retry n (timed (send_batch_body env batch)) st) with
         | Ok _ =>
             (1 <= m)%nat
             /\ post_fails (post_at env (posts st + (m - 1))) = false
         | Raise e =>
             e = RetryError /\ m = n
             /\ forall k, (k < n)%nat ->
                          post_fails (post_at env (posts st + k)) = true
         end.
Proof.
  induction n as [|n IH]; intros st.
  - exists 0%nat. cbn. rewrite app_nil_r, Nat.add_0_r.
    repeat split; try lia; intros k Hk; lia.
  - cbn [retry]. unfold try_except.
    destruct (attempt_effect batch st) as [S1 F1].
    destruct (timed (send_batch_body env batch) st) as [[[]|e] st1] eqn:E;
      cbn [fst snd] in S1, F1; subst st1.
    + exists 1%nat. cbn [fst snd after_attempt].
      destruct (post_fails (post_at env (posts st))) eqn:P;
        [destruct F1 as [e F1]; discriminate F1|].
      cbn. rewrite Nat.add_0_r, P.
      repeat split; try lia; intros; lia.
    + cbn [any_exception].
      destruct (post_fails (post_at env (posts st))) eqn:P;
        [|discriminate F1].
      destruct (IH (after_attempt batch st)) as (m & M & Po & Pd & L & Fails & R).
      exists (S m).
      rewrite Po, Pd, L.
      cbn [after_attempt posts posted batch_latency set_batch_latency
           set_posted set_posts] in *.
      split; [lia|]. split; [lia|].
      split; [rewrite <- app_assoc; reflexivity|].
      split; [lia|].
      split.
      * intros [|k] Hk; [now rewrite Nat.add_0_r|].
        replace (posts st + S k)%nat with (S (posts st) + k)%nat by lia.
        apply Fails. lia.
      * destruct (fst (retry n (timed (send_batch_body env batch))
                         (after_attempt batch st))) as [[]|e'].
        -- destruct R as [M1 R]. split; [lia|].
           replace (posts st + (S m - 1))%nat
             with (S (posts st) + (m - 1))%nat by lia.
           exact R.
        -- destruct R as (-> & -> & R). repeat split.
           intros [|k] Hk; [now rewrite Nat.add_0_r|].
           replace (posts st + S k)%nat with (S (posts st) + k)%nat by lia.
           apply R. lia.
Qed.

(** X11.  The retried send issues the request at least once and at most three
    times, each time with the same payload and each time timed; it stops at
    the first request the collector accepts, and raises [RetryError] when
    the third request has failed as well. *)
Theorem retried_send_stops_at_first_success (batch : list span) (st : state) :
  exists n,
    (1 <= n <= 3)%nat
    /\ posts (snd (attempts env batch st)) = (posts st + n)%nat
    /\ posted (snd (attempts env batch st))
       = (posted st ++ repeat (flat_map resourceSpans batch) n)%list
    /\ batch_latency (snd (attempts env batch st))
       = batch_latency st + Z.of_nat n
    /\ (forall k, (S k < n)%nat ->
                  post_fails (post_at env (posts st + k)) = true)
    /\ match fst (attempts env batch st) with
       | Ok _ => post_fails (post_at env (posts st + (n - 1))) = false
       | Raise e =>
           e = RetryError /\ n = 3%nat
           /\ post_fails (post_at env (posts st + 2)) = true
       end.
Proof.
  unfold attempts.
  destruct (retry_effect batch 3 st) as (m & M & Po & Pd & L & Fails & R).
  exists m. rewrite Po, Pd, L.
  destruct (fst (retry 3 (timed (send_batch_body env batch)) st)) as [[]|e].
  - destruct R as [M1 R]. repeat split; try assumption; lia.
  - destruct R as (-> & -> & R). repeat split; try assumption; try lia.
    apply R. lia.
Qed.


Lemma built_span_payload (s : span) :
  (exists now record, build_span now record = Ok s) ->
  exists o,
    payload_spans (resourceSpans s) = [o]
    /\ List.length (resourceSpans s) = 1%nat
    /\ traceId o = _trace_id s.
Proof.
  intros (now & record & B).
  destruct (BuilderLaws.build_span_shape _ _ _ B)
    as (rel & life & pid & ppid & guid & service & pn & pu & cpu & ws & net
        & rc & wc & rmb & wmb & lr & lw & _ & _ & _ & _ & _ & _ & _ & _ & _
        & _ & _ & _ & _ & _ & _ & _ & _ & ->).
  eexists. cbn [resourceSpans payload_spans flat_map scopeSpans spans app
                _trace_id List.length].
  split; [reflexivity|]. split; reflexivity.
Qed.

(** X13.  The request for a batch of spans that [build_span] has made carries one
    resource entry and one OTLP span per span of the batch, in the order of
    the batch, and each OTLP span has the trace id under which the exporter
    files its session in the correlation map. *)
Theorem payload_has_one_span_per_batch_span (batch : list span) (st : state) :
  Forall (fun s => exists now record, build_span now record = Ok s) batch ->
  exists payload,
    posted (snd (send_batch_body env batch st)) = (posted st ++ [payload])%list
    /\ List.length payload = List.length batch
    /\ List.length (payload_spans payload) = List.length batch
    /\ map traceId (payload_spans payload) = map _trace_id batch.
Proof.
  intros Built. exists (flat_map resourceSpans batch).
  split.
  - unfold send_batch_body, mbind, session_post, raise_for_status.
    destruct (post_at env (posts st)) as [status_code|]; [|reflexivity].
    destruct ((400 <=? status_code) && (status_code <? 600)); reflexivity.
  - induction Built as [|s batch B _ IH]; [repeat split|].
    destruct (built_span_payload s B) as (o & P & L & T).
    destruct IH as (IH1 & IH2 & IH3).
    cbn [flat_map List.length map].
    unfold payload_spans in *.
    rewrite length_app, flat_map_app, length_app, map_app, P, L, IH1, IH2, IH3.
    cbn [List.length map app]. rewrite T. repeat split.
Qed.

Section Batches.
Variable cfg : config.

Ltac unchanged :=
  unfold run_cycle, export, collect, after_send, send_batch, breaker_call,
    breaker_guard, breaker_on_failure, set_breaker_state, attempts;
  unfold send_batch_body, raise_for_status;
  match goal with
  | |- preserves (same ?proj) _ =>
      repeat first
        [ frame_step (same_refl proj) (same_trans proj)
        | apply (preserves_retry _ (same_refl proj) (same_trans proj))
        | apply (preserves_timed _ (same_trans proj))
        | apply (ExporterProps.preserves_fill cfg env _
                   (same_refl proj) (same_trans proj)); [|intros ?]
        | apply (ExporterProps.preserves_write_all env _
                   (same_refl proj) (same_trans proj)); intros ? ];
      try frame_prim
  end.

Lemma collect_keeps_batches_sent : preserves (same batches_sent) (collect cfg env).
Proof. unchanged. Qed.

Lemma collect_keeps_export_failures :
  preserves (same export_failures) (collect cfg env).
Proof. unchanged. Qed.

Lemma after_send_keeps_export_failures batch :
  preserves (same export_failures) (after_send env batch).
Proof. unchanged. Qed.

Lemma write_all_keeps_batches_sent ts seen :
  preserves (same batches_sent) (write_all env ts seen).
Proof. unchanged. Qed.

Lemma export_keeps_gets batch : preserves (same gets) (export env batch).
Proof. unchanged. Qed.

Lemma after_send_counts (batch : list span) (st : state) :
  batches_sent (snd (after_send env batch st)) = batches_sent st + 1.
Proof.
  unfold after_send, mbind, inc_batches_sent, modify, time.
  rewrite (write_all_keeps_batches_sent _ _ _). reflexivity.
Qed.

Lemma export_counts (batch : list span) (st : state) :
  (batches_sent (snd (export env batch st)) = batches_sent st
   /\ export_failures (snd (export env batch st)) = export_failures st + 1)
  \/ (batches_sent (snd (export env batch st)) = batches_sent st + 1
      /\ (export_failures (snd (export env batch st)) = export_failures st
          \/ export_failures (snd (export env batch st))
             = export_failures st + 1)).
Proof.
  pose proof (ExporterProps.send_batch_keeps_batches_sent env batch st) as B.
  pose proof (ExporterProps.send_batch_keeps_export_failures env batch st) as F.
  unfold same in *.
  rewrite ExporterProps.export_unfold.
  destruct (send_batch env batch st) as [[[]|e] st1]; cbn [fst snd] in *.
  - pose proof (after_send_counts batch st1) as B'.
    pose proof (after_send_keeps_export_failures batch st1) as F'.
    unfold same in *.
    destruct (after_send env batch st1) as [[[]|e] st2]; cbn [fst snd] in *.
    + right. split; [congruence | left; congruence].
    + right.
      change (batches_sent (after_failure e st2)) with (batches_sent st2).
      change (export_failures (after_failure e st2))
        with (export_failures st2 + 1).
      split; [congruence | right; congruence].
  - left.
    change (batches_sent (after_failure e st1)) with (batches_sent st1).
    change (export_failures (after_failure e st1))
      with (export_failures st1 + 1).
    split; congruence.
Qed.

Lemma run_step (turns : nat) (st : state) :
  run cfg env (S turns) st
  = if is_set_at env (checks st) then (Ok tt, set_checks (S (checks st)) st)
    else match run_cycle cfg env (set_checks (S (checks st)) st) with
         | (Ok _, st') => run cfg env turns st'
         | (Raise e, st') => (Raise e, st')
         end.
Proof.
  cbn [run]. unfold mbind at 1, is_set.
  destruct (is_set_at env (checks st)); [reflexivity|].
  unfold mbind. reflexivity.
Qed.

Lemma run_cycle_unfold (st : state) :
  run_cycle cfg env st
  = match collect cfg env st with
    | (Ok (Some batch), st1) =>
        match batch with
        | [] => (Ok tt, snd (publish_queue_size st1))
        | _ :: _ => (Ok tt, snd (publish_queue_size (snd (export env batch st1))))
        end
    | (Ok None, st1) => (Ok tt, st1)
    | (Raise e, st1) => (Raise e, st1)
    end.
Proof.
  unfold run_cycle, mbind at 1.
  destruct (collect cfg env st) as [[[batch|]|e] st1]; try reflexivity.
  destruct batch as [|s batch]; cbn [nonempty]; unfold mbind.
  - reflexivity.
  - pose proof (ExporterProps.export_never_raises env (s :: batch) st1) as N.
    destruct (export env (s :: batch) st1) as [[[]|e] st2]; cbn [fst] in N;
      [reflexivity | discriminate N].
Qed.

(** X14.  Whatever the collector, the sink, the clock and the settings do, the
    two counters of the exporter stay within the number of batches it has
    dispatched: each batch is counted as sent at most once and as failed at
    most once, and no batch goes uncounted. *)
Theorem exporter_counts_every_batch (turns : nat) (st : state) :
  exists batches,
    dispatched (snd (run cfg env turns st)) = (dispatched st ++ batches)%list
    /\ batches_sent st <= batches_sent (snd (run cfg env turns st))
       <= batches_sent st + Z.of_nat (List.length batches)
    /\ export_failures st <= export_failures (snd (run cfg env turns st))
       <= export_failures st + Z.of_nat (List.length batches)
    /\ Z.of_nat (List.length batches)
       <= (batches_sent (snd (run cfg env turns st)) - batches_sent st)
          + (export_failures (snd (run cfg env turns st)) - export_failures st).
Proof.
  revert st. induction turns as [|turns IH]; intros st.
  - exists []. cbn. rewrite app_nil_r. repeat split; lia.
  - rewrite run_step.
    destruct (is_set_at env (checks st)).
    { exists []. cbn. rewrite app_nil_r. repeat split; lia. }
    set (st0 := set_checks (S (checks st)) st).
    change (dispatched st) with (dispatched st0).
    change (batches_sent st) with (batches_sent st0).
    change (export_failures st) with (export_failures st0).
    rewrite run_cycle_unfold.
    pose proof (ExporterProps.collect_keeps_dispatched cfg env st0) as D.
    pose proof (collect_keeps_batches_sent st0) as B.
    pose proof (collect_keeps_export_failures st0) as F.
    unfold same in *.
    destruct (collect cfg env st0) as [[[batch|]|e] st1]; cbn [fst snd] in *.
    + destruct batch as [|s batch].
      * destruct (IH (snd (publish_queue_size st1))) as (bs & D' & B' & F' & N).
        exists bs. rewrite D', <- D, <- B, <- F. repeat split; try apply B';
          try apply F'; exact N.
      * destruct (ExporterProps.export_effect env (s :: batch) st1)
          as (_ & D1 & _).
        pose proof (export_counts (s :: batch) st1) as C.
        set (st2 := snd (export env (s :: batch) st1)) in *.
        destruct (IH (snd (publish_queue_size st2))) as (bs & D' & B' & F' & N).
        change (dispatched (snd (publish_queue_size st2))) with (dispatched st2) in *.
        change (batches_sent (snd (publish_queue_size st2)))
          with (batches_sent st2) in *.
        change (export_failures (snd (publish_queue_size st2)))
          with (export_failures st2) in *.
        exists ((s :: batch) :: bs).
        rewrite D', D1, D, <- app_assoc. cbn [app List.length].
        split; [reflexivity|]. lia.
    + destruct (IH st1) as (bs & D' & B' & F' & N).
      exists bs. rewrite D', <- D, <- B, <- F. repeat split; try apply B';
        try apply F'; exact N.
    + exists []. cbn [snd]. rewrite app_nil_r, D, B, F. cbn. repeat split; lia.
Qed.

Lemma supply_split (from a b : nat) :
  supply env from (a + b) = (supply env from a ++ supply env (from + a) b)%list.
Proof. unfold supply. now rewrite seq_app, flat_map_app. Qed.

Lemma carried_same (st st' : state) :
  gets st' = gets st -> span_queue st' = span_queue st -> carried env st st' [].
Proof.
  intros G Q. unfold carried. rewrite G, Q, Nat.sub_diag.
  split; [lia|]. cbn. now rewrite app_nil_r.
Qed.

Lemma carried_trans (a b c : state) (t1 t2 : list span) :
  carried env a b t1 -> carried env b c t2 -> carried env a c (t1 ++ t2).
Proof.
  intros [G1 C1] [G2 C2]. split; [lia|].
  replace (gets c - gets a)%nat
    with ((gets b - gets a) + (gets c - gets b))%nat by lia.
  rewrite supply_split, app_assoc, C1, <- app_assoc.
  replace (gets a + (gets b - gets a))%nat with (gets b) by lia.
  now rewrite C2, app_assoc.
Qed.

Lemma time_carries (st : state) : carried env st (snd (time env st)) [].
Proof. now apply carried_same. Qed.

Lemma get_carries (timeout : Z) (st : state) :
  match span_queue_get env timeout st with
  | (Ok s, st') => carried env st st' [s]
  | (Raise e, st') =>
      carried env st st' [] /\ (e = QueueEmpty \/ e = ValueError)
  end.
Proof.
  unfold span_queue_get.
  destruct (timeout <? 0).
  - split; [now apply carried_same | now right].
  - destruct (span_queue st ++ arrivals_at env (gets st))%list as [|s rest] eqn:Q.
    + split; [|now left].
      unfold carried. cbn [gets set_gets span_queue].
      replace (S (gets st) - gets st)%nat with 1%nat by lia.
      unfold supply. cbn [seq flat_map]. rewrite app_nil_r, Q.
      apply app_eq_nil in Q as [-> _]. split; [lia | reflexivity].
    + unfold carried. cbn [gets set_gets span_queue set_span_queue].
      replace (S (gets st) - gets st)%nat with 1%nat by lia.
      unfold supply. cbn [seq flat_map]. rewrite app_nil_r, Q.
      split; [lia | reflexivity].
Qed.

Lemma fill_carries (turns : nat) :
  forall start batch st,
    match fill cfg env turns start batch st with
    | (Ok b, st') => exists more, b = (batch ++ more)%list /\ carried env st st' more
    | (Raise e, _) => e = ValueError
    end.
Proof.
  induction turns as [|turns IH]; intros start batch st; cbn [fill].
  - exists []. rewrite app_nil_r. split; [reflexivity | now apply carried_same].
  - destruct (Z.of_nat (List.length batch) <? BATCH_SIZE cfg);
      [|exists []; rewrite app_nil_r; split;
        [reflexivity | now apply carried_same]].
    unfold mbind, try_except, time, ret.
    set (st1 := set_clock_reads (S (clock_reads st)) st).
    assert (C1 : carried env st st1 []) by now apply carried_same.
    destruct (_ - start <? BATCH_TIMEOUT cfg);
      [|exists []; rewrite app_nil_r; split; [reflexivity | exact C1]].
    set (st2 := set_clock_reads (S (clock_reads st1)) st1).
    assert (C2 : carried env st st2 []) by now apply carried_same.
    match goal with
    | |- context [span_queue_get env ?t st2] =>
        pose proof (get_carries t st2) as G;
        destruct (span_queue_get env t st2) as [[s|e] st3]
    end.
    + specialize (IH start (batch ++ [s])%list st3).
      destruct (fill cfg env turns start (batch ++ [s]) st3) as [[b|e] st4];
        [|exact IH].
      destruct IH as (more & -> & C4).
      exists (s :: more). split; [now rewrite <- app_assoc|].
      apply (carried_trans _ _ _ [] (s :: more) C2).
      apply (carried_trans _ _ _ [s] more G C4).
    + destruct G as [G [-> | ->]]; cbn [only_empty].
      * exists []. rewrite app_nil_r. split; [reflexivity|].
        apply (carried_trans _ _ _ [] [] C2 G).
      * reflexivity.
Qed.

Lemma collect_carries (st : state) :
  match collect cfg env st with
  | (Ok (Some batch), st') => carried env st st' batch
  | (Ok None, st') => carried env st st' []
  | (Raise e, _) => e = ValueError
  end.
Proof.
  unfold collect, try_except, mbind, time, ret.
  pose proof (get_carries 1000000000 st) as G.
  destruct (span_queue_get env 1000000000 st) as [[s|e] st1].
  - set (st2 := set_clock_reads (S (clock_reads st1)) st1).
    assert (C2 : carried env st1 st2 []) by now apply carried_same.
    pose proof (fill_carries (Z.to_nat (BATCH_SIZE cfg))
                  (time_at env (clock_reads st1)) [s] st2) as F.
    destruct (fill cfg env _ _ [s] st2) as [[b|e] st3].
    + destruct F as (more & -> & C3).
      apply (carried_trans _ _ _ [s] more G).
      apply (carried_trans _ _ _ [] more C2 C3).
    + subst e. reflexivity.
  - destruct G as [G [-> | ->]]; cbn [only_empty]; [exact G | reflexivity].
Qed.

(** X15.  The exporter neither loses nor repeats a span as long as it runs: when
    [run] returns, the spans that were in the queue and those that arrived
    while it ran are, in this order, the spans of the batches it has
    dispatched followed by the spans still in the queue. *)
Theorem exporter_batches_the_queue_in_order
  (turns : nat) (st st' : state) :
  run cfg env turns st = (Ok tt, st') ->
  exists batches,
    dispatched st' = (dispatched st ++ batches)%list
    /\ (gets st <= gets st')%nat
    /\ (span_queue st ++ supply env (gets st) (gets st' - gets st)
        = List.concat batches ++ span_queue st')%list.
Proof.
  assert (K : forall st,
             match run cfg env turns st with
             | (Ok _, st') =>
                 exists batches,
                   dispatched st' = (dispatched st ++ batches)%list
                   /\ carried env st st' (List.concat batches)
             | (Raise _, _) => True
             end).
  { clear st st'. induction turns as [|turns IH]; intros st.
    - exists []. cbn. rewrite app_nil_r. split; [reflexivity|].
      now apply carried_same.
    - rewrite run_step.
      destruct (is_set_at env (checks st)).
      { exists []. rewrite app_nil_r. split; [reflexivity|].
        now apply carried_same. }
      set (st0 := set_checks (S (checks st)) st).
      assert (C0 : carried env st st0 []) by now apply carried_same.
      rewrite run_cycle_unfold.
      pose proof (ExporterProps.collect_keeps_dispatched cfg env st0) as D.
      pose proof (collect_carries st0) as C.
      unfold same in D.
      destruct (collect cfg env st0) as [[[batch|]|e] st1]; cbn [fst snd] in *;
        [|specialize (IH st1);
          destruct (run cfg env turns st1) as [[[]|e] st3]; [|exact I];
          destruct IH as (bs & D' & C');
          exists bs; split; [now rewrite D', D|];
          apply (carried_trans _ _ _ [] _ C0);
          apply (carried_trans _ _ _ [] _ C C')
        |exact I].
      destruct batch as [|s batch].
      + specialize (IH (snd (publish_queue_size st1))).
        destruct (run cfg env turns _) as [[[]|e] st3]; [|exact I].
        destruct IH as (bs & D' & C').
        exists bs.
        split;
          [rewrite D';
           change (dispatched (snd (publish_queue_size st1)))
             with (dispatched st1);
           now rewrite D|].
        apply (carried_trans _ _ _ [] _ C0).
        apply (carried_trans _ _ _ [] _ C).
        apply (carried_trans _ (snd (publish_queue_size st1)) _ [] _);
          [now apply carried_same | exact C'].
      + destruct (ExporterProps.export_effect env (s :: batch) st1)
          as (_ & D1 & _ & Q1).
        pose proof (export_keeps_gets (s :: batch) st1) as G1.
        unfold same in G1.
        set (st2 := snd (export env (s :: batch) st1)) in *.
        specialize (IH (snd (publish_queue_size st2))).
        destruct (run cfg env turns _) as [[[]|e] st3]; [|exact I].
        destruct IH as (bs & D' & C').
        exists ((s :: batch) :: bs).
        split.
        { rewrite D'.
          change (dispatched (snd (publish_queue_size st2))) with (dispatched st2).
          rewrite D1, D, <- app_assoc. reflexivity. }
        cbn [List.concat].
        apply (carried_trans _ _ _ [] _ C0).
        apply (carried_trans _ _ _ (s :: batch) _ C).
        apply (carried_trans _ (snd (publish_queue_size st2)) _ [] _);
          [now apply carried_same | exact C']. }
  intros E. specialize (K st). rewrite E in K.
  destruct K as (bs & D & G & C). exists bs. repeat split; assumption.
Qed.

(** X16.  [run] has no handler for the [ValueError] that [span_queue.get] raises
    for a negative timeout.  When the batch deadline passes between the
    reading of the clock in the test of the inner loop and the reading that
    computes the timeout, the exception leaves [run]: the exporter thread
    ends, the span it had taken is in no batch and in no queue, and neither
    a counter nor the log tells of it. *)
Theorem exporter_ends_when_deadline_passes_between_clock_reads
  (st : state) (s : span) (rest : list span) (turns : nat) :
  is_set_at env (checks st) = false ->
  (span_queue st ++ arrivals_at env (gets st))%list = s :: rest ->
  2 <= BATCH_SIZE cfg ->
  time_at env (S (clock_reads st)) - time_at env (clock_reads st)
  < BATCH_TIMEOUT cfg ->
  BATCH_TIMEOUT cfg
  < time_at env (S (S (clock_reads st))) - time_at env (clock_reads st) ->
  exists st',
    run cfg env (S turns) st = (Raise ValueError, st')
    /\ dispatched st' = dispatched st
    /\ span_queue st' = rest
    /\ batches_sent st' = batches_sent st
    /\ export_failures st' = export_failures st
    /\ logged st' = logged st.
Proof.
  intros Go Q Size Early Late.
  rewrite run_step, Go, run_cycle_unfold.
  unfold collect, try_except, mbind, time, ret, span_queue_get.
  cbn [gets set_checks span_queue clock_reads set_gets set_span_queue
       set_clock_reads Z.ltb Z.compare].
  rewrite Q.
  destruct (Z.to_nat (BATCH_SIZE cfg)) as [|n] eqn:N; [lia|].
  cbn [fill List.length].
  replace (Z.of_nat 1 <? BATCH_SIZE cfg) with true
    by (symmetry; apply Z.ltb_lt; lia).
  unfold mbind, try_except, time, ret, span_queue_get.
  cbn [gets set_checks span_queue clock_reads set_gets set_span_queue
       set_clock_reads].
  replace (_ - _ <? BATCH_TIMEOUT cfg) with true
    by (symmetry; apply Z.ltb_lt; lia).
  cbv beta iota.
  cbn [gets set_checks span_queue clock_reads set_gets set_span_queue
       set_clock_reads].
  replace (BATCH_TIMEOUT cfg - _ <? 0) with true
    by (symmetry; apply Z.ltb_lt; lia).
  cbn [only_empty].
  eexists. split; [reflexivity|]. repeat split.
Qed.

Lemma fill_keeps_dispatched turns start batch :
  preserves (same dispatched) (fill cfg env turns start batch).
Proof. unchanged. Qed.

Lemma fill_finds_nothing (turns : nat) (start : Z) (batch : list span) (st : state) :
  span_queue st = [] ->
  arrivals_at env (gets st) = [] ->
  match fill cfg env turns start batch st with
  | (Ok b, st') =>
      b = batch /\ span_queue st' = [] /\ (gets st <= gets st')%nat
  | (Raise _, _) => True
  end.
Proof.
  intros Q A. destruct turns as [|turns]; cbn [fill].
  - repeat split; [exact Q | lia].
  - destruct (Z.of_nat (List.length batch) <? BATCH_SIZE cfg);
      [|repeat split; [exact Q | lia]].
    unfold mbind, try_except, time, ret, span_queue_get.
    destruct (_ - start <? BATCH_TIMEOUT cfg);
      [|repeat split; [exact Q | cbn; lia]].
    cbn [gets span_queue clock_reads set_clock_reads].
    destruct (_ <? 0); [exact I|].
    rewrite Q, A. cbn [app only_empty].
    repeat split; [exact Q | cbn; lia].
Qed.

(** X17.  Spans that come one at a time, each followed by a wait in which no
    other span comes, are dispatched one per batch, whatever [BATCH_SIZE]
    and [BATCH_TIMEOUT] are. *)
Theorem spans_that_come_apart_go_one_per_batch (turns : nat) (st : state) :
  span_queue st = [] ->
  (forall k, (gets st <= k)%nat -> (List.length (arrivals_at env k) <= 1)%nat) ->
  (forall k, (gets st <= k)%nat ->
             arrivals_at env k <> [] -> arrivals_at env (S k) = []) ->
  exists batches,
    dispatched (snd (run cfg env turns st)) = (dispatched st ++ batches)%list
    /\ Forall (fun batch => List.length batch = 1%nat) batches.
Proof.
  revert st. induction turns as [|turns IH]; intros st Q One Apart.
  - exists []. cbn. rewrite app_nil_r. split; [reflexivity | constructor].
  - rewrite run_step.
    destruct (is_set_at env (checks st)).
    { exists []. cbn. rewrite app_nil_r. split; [reflexivity | constructor]. }
    set (st0 := set_checks (S (checks st)) st).
    rewrite run_cycle_unfold.
    unfold collect, try_except, mbind, time, ret, span_queue_get.
    cbn [Z.ltb Z.compare].
    change (span_queue st0) with (span_queue st).
    change (gets st0) with (gets st).
    rewrite Q. cbn [app].
    pose proof (One (gets st) (le_n _)) as L.
    destruct (arrivals_at env (gets st)) as [|s more] eqn:A.
    + cbn [only_empty snd].
      set (st1 := set_gets (S (gets st)) st0).
      destruct (IH st1) as (bs & D & F).
      * exact Q.
      * intros k Hk. apply One. cbn in Hk. lia.
      * intros k Hk. apply Apart. cbn in Hk. lia.
      * exists bs. split; [exact D | exact F].
    + destruct more as [|]; [|cbn in L; lia].
      set (st1 := set_clock_reads _ _).
      assert (A1 : arrivals_at env (gets st1) = []).
      { cbn. apply Apart; [lia|]. rewrite A. discriminate. }
      pose proof (fill_finds_nothing (Z.to_nat (BATCH_SIZE cfg))
                    (time_at env (clock_reads (set_span_queue []
                                                 (set_gets (S (gets st)) st0))))
                    [s] st1 eq_refl A1) as F.
      pose proof (fill_keeps_dispatched (Z.to_nat (BATCH_SIZE cfg))
                    (time_at env (clock_reads (set_span_queue []
                                                 (set_gets (S (gets st)) st0))))
                    [s] st1) as K.
      unfold same in K.
      pose proof (fill_carries (Z.to_nat (BATCH_SIZE cfg))
                    (time_at env (clock_reads (set_span_queue []
                                                 (set_gets (S (gets st)) st0))))
                    [s] st1) as FC.
      destruct (fill cfg env _ _ [s] st1) as [[b|e] st2]; cbn [snd] in K.
      * destruct F as (-> & Q2 & G2). cbn [snd].
        destruct (ExporterProps.export_effect env [s] st2) as (_ & D1 & _ & Q1).
        pose proof (export_keeps_gets [s] st2) as G1. unfold same in G1.
        set (st3 := snd (export env [s] st2)) in *.
        destruct (IH (snd (publish_queue_size st3))) as (bs & D & F).
        -- cbn. now rewrite Q1.
        -- intros k Hk. apply One. cbn in Hk, G2. lia.
        -- intros k Hk. apply Apart. cbn in Hk, G2. lia.
        -- exists ([s] :: bs). rewrite D.
           change (dispatched (snd (publish_queue_size st3)))
             with (dispatched st3).
           rewrite D1, K, <- app_assoc.
           split; [reflexivity | constructor; [reflexivity | exact F]].
      * subst e. exists []. cbn [only_empty snd]. rewrite app_nil_r, K.
        split; [reflexivity | constructor].
Qed.

End Batches.
End OneExporter.

Lemma built_scenarios :
  Forall (fun s => exists now record, build_span now record = Ok s)
    [logon_span; later_span; logoff_span].
Proof.
  repeat constructor.
  - exists 1700000000, scenario. vm_compute. reflexivity.
  - exists 1700000000, scenario_later. vm_compute. reflexivity.
  - exists 1700000000, scenario_logoff. vm_compute. reflexivity.
Defined.

Lemma payload_witness :
  exists payload,
    posted (snd (send_batch_body calm [logon_span; later_span; logoff_span]
                   initial)) = [payload]
    /\ List.length (payload_spans payload) = 3%nat.
Proof.
  destruct (payload_has_one_span_per_batch_span calm
              [logon_span; later_span; logoff_span] initial built_scenarios)
    as (payload & P & _ & L & _).
  exists payload. split; [exact P | exact L].
Defined.

Lemma exporter_batches_witness :
  exists batches,
    dispatched (snd (run small calm 2 loaded)) = batches
    /\ (List.concat batches ++ span_queue (snd (run small calm 2 loaded))
        = [logon_span; later_span; logoff_span])%list.
Proof.
  assert (E : run small calm 2 loaded = (Ok tt, snd (run small calm 2 loaded)))
    by (vm_compute; reflexivity).
  destruct (exporter_batches_the_queue_in_order calm small 2 loaded _ E)
    as (batches & D & _ & C).
  exists batches. split; [exact D|]. rewrite <- C.
  vm_compute. reflexivity.
Defined.

Lemma exporter_ends_witness :
  exists st',
    run small hurried 5 loaded = (Raise ValueError, st')
    /\ dispatched st' = []
    /\ span_queue st' = [later_span; logoff_span].
Proof.
  destruct (exporter_ends_when_deadline_passes_between_clock_reads
              hurried small loaded logon_span [later_span; logoff_span] 4)
    as (st' & R & D & Q & _).
  - reflexivity.
  - reflexivity.
  - cbn. lia.
  - cbn. lia.
  - cbn. lia.
  - exists st'. split; [exact R|]. split; [exact D | exact Q].
Defined.

Lemma spans_that_come_apart_witness :
  exists batches,
    dispatched (snd (run small trickle 6 initial)) = batches
    /\ Forall (fun batch => List.length batch = 1%nat) batches.
Proof.
  destruct (spans_that_come_apart_go_one_per_batch trickle small 6 initial)
    as (batches & D & F).
  - reflexivity.
  - intros k _. cbn. destruct (Nat.even k); cbn; lia.
  - intros k _.
    change ((if Nat.even k then [logon_span] else []) <> []
            -> (if Nat.even (S k) then [logon_span] else []) = []).
    rewrite Nat.even_succ, <- Nat.negb_even.
    destruct (Nat.even k); [reflexivity | intros N; now contradiction N].
  - exists batches. split; [exact D | exact F].
Defined.

End ExporterLaws.

(** ** Shutdown *)

Module LifecycleLaws.
Import Py Span Pipeline Worker Exporter Lifecycle Examples Samples.

Section Stopping.
Variables (cfg : config) (env : environment).

Lemma resume_when_stopped (t : thread) (turns : nat) (st : state) :
  (forall k, (checks st <= k)%nat -> is_set_at env k = true) ->
  exists st',
    resume cfg env t turns st = (Ok tt, st')
    /\ recv_queue st' = recv_queue st
    /\ span_queue st' = span_queue st
    /\ dispatched st' = dispatched st
    /\ records_received st' = records_received st
    /\ (checks st <= checks st')%nat.
Proof.
  intros Stop. unfold resume, try_except.
  destruct t, turns as [|turns]; cbn [worker run]; unfold mbind, is_set, ret;
    rewrite ?(Stop (checks st) (le_n _));
    (eexists; split; [reflexivity|]; cbn; repeat split; lia).
Qed.

Lemma resume_all_when_stopped (threads : list (thread * nat)) :
  forall st,
    (forall k, (checks st <= k)%nat -> is_set_at env k = true) ->
    exists st',
      resume_all cfg env threads st = (Ok tt, st')
      /\ recv_queue st' = recv_queue st
      /\ span_queue st' = span_queue st
      /\ dispatched st' = dispatched st
      /\ records_received st' = records_received st
      /\ (checks st <= checks st')%nat.
Proof.
  induction threads as [|[t turns] more IH]; intros st Stop; cbn [resume_all].
  - eexists; split; [reflexivity|]. repeat split; lia.
  - unfold mbind.
    destruct (resume_when_stopped t turns st Stop)
      as (st1 & -> & R1 & S1 & D1 & C1 & K1).
    destruct (IH st1) as (st2 & -> & R2 & S2 & D2 & C2 & K2).
    + intros k Hk. apply Stop. lia.
    + eexists; split; [reflexivity|]. repeat split; try congruence; lia.
Qed.

(** X18.  Workers and exporter leave their loops at the first test that finds
    shutdown signalled, whatever the queues hold.  So once shutdown is
    signalled and every thread stands at the test of its loop, what is in
    the receive queue and in the span queue stays there: no line is
    counted, no batch is dispatched, and the loop in which [__main__] waits
    for both queues to be empty is not left, however long it runs. *)
Theorem shutdown_strands_queued_data
  (threads : list (thread * nat)) (turns : nat) (st : state) :
  (forall k, (checks st <= k)%nat -> is_set_at env k = true) ->
  recv_queue st <> [] \/ span_queue st <> [] ->
  fst (wait_for_drain (resume_all cfg env threads) turns st) = Ok false
  /\ recv_queue (snd (wait_for_drain (resume_all cfg env threads) turns st))
     = recv_queue st
  /\ span_queue (snd (wait_for_drain (resume_all cfg env threads) turns st))
     = span_queue st
  /\ dispatched (snd (wait_for_drain (resume_all cfg env threads) turns st))
     = dispatched st
  /\ records_received
       (snd (wait_for_drain (resume_all cfg env threads) turns st))
     = records_received st.
Proof.
  revert st. induction turns as [|turns IH]; intros st Stop Busy.
  - cbn. repeat split.
  - assert (B : nonempty (recv_queue st) || nonempty (span_queue st) = true)
      by (destruct Busy as [B | B];
          [destruct (recv_queue st) | destruct (span_queue st)];
          try contradiction; cbn; now rewrite ?orb_true_r).
    cbn [wait_for_drain]. unfold mbind, queues_busy, read.
    rewrite B.
    destruct (resume_all_when_stopped threads st Stop)
      as (st1 & -> & R1 & S1 & D1 & C1 & K1).
    destruct (IH st1) as (F & R2 & S2 & D2 & C2).
    + intros k Hk. apply Stop. lia.
    + now rewrite R1, S1.
    + split; [exact F|]. split; [now rewrite R2|]. split; [now rewrite S2|].
      split; [now rewrite D2 | now rewrite C2].
Qed.

End Stopping.

Lemma shutdown_strands_witness :
  fst (wait_for_drain
         (resume_all small stopping [(WorkerThread, 5%nat); (ExporterThread, 5%nat)])
         4 loaded) = Ok false
  /\ List.length
       (span_queue
          (snd (wait_for_drain
                  (resume_all small stopping
                     [(WorkerThread, 5%nat); (ExporterThread, 5%nat)])
                  4 loaded))) = 3%nat.
Proof.
  destruct (shutdown_strands_queued_data small stopping
              [(WorkerThread, 5%nat); (ExporterThread, 5%nat)] 4 loaded)
    as (F & _ & S' & _).
  - intros k _. reflexivity.
  - right. discriminate.
  - split; [exact F|]. rewrite S'. reflexivity.
Defined.

End LifecycleLaws.

(** ** Settings *)

Module SettingsLaws.
Import Py Settings Samples TextLaws.

Lemma int_of_text (environ : string -> option string) (name : string)
  (default n : Z) :
  int (getenv environ name (JInt default)) = Ok n ->
  match environ name with
  | Some text => int_of_str text = Ok n
  | None => n = default
  end.
Proof.
  unfold getenv. destruct (environ name); cbn [int]; congruence.
Qed.

(** X19.  The settings are taken from the process environment as they are.  The
    module is imported only if every integer setting that is set holds the
    text of an integer, and then the setting is that integer: nothing
    checks it against a range, so a [BATCH_SIZE] of [0] or below is
    accepted as any other (shown here for integers within the limit of
    4300 digits that [int] puts on a text).  Without the variable
    [BATCH_SIZE] is 200.  [DEBUG_MODE] is on exactly when the variable is
    set to [true], [1] or [yes] in any mix of upper and lower case. *)
Theorem settings_are_taken_unchecked
  (environ : string -> option string) (st : settings) :
  load environ = Ok st ->
  (forall name setting text,
      In (name, setting) int_settings -> environ name = Some text ->
      int_of_str text = Ok (setting st))
  /\ (forall n, Z.abs n < 10 ^ 4300 ->
                environ "BATCH_SIZE" = Some (str_of_int n) -> BATCH_SIZE st = n)
  /\ (environ "BATCH_SIZE" = None -> BATCH_SIZE st = 200)
  /\ (DEBUG_MODE st = true
      <-> exists text,
            environ "DEBUG_MODE" = Some text
            /\ is_yes (str_map lower text) = true).
Proof.
  unfold load. intros H.
  repeat SpanProps.bind_step H.
  injection H as <-.
  repeat match goal with
         | E : int (getenv _ _ _) = Ok _ |- _ => apply int_of_text in E
         end.
  cbn [LISTEN_PORT METRICS_PORT WORKER_COUNT BATCH_SIZE QUEUE_MAXSIZE DEBUG_MODE].
  split.
  { intros name setting text In' Set'. cbn in In'.
    repeat (destruct In' as [In' | In'];
            [injection In' as <- <-; rewrite Set' in *; assumption|]).
    contradiction. }
  split.
  { intros n _ Set'. rewrite Set' in *.
    rewrite int_of_str_of_int in *. congruence. }
  split.
  { intros Unset. rewrite Unset in *. assumption. }
  unfold getenv_str. destruct (environ "DEBUG_MODE") as [text|].
  - split; [intros Yes; now exists text | intros (t & Set' & Yes); congruence].
  - split; [discriminate | intros (t & Set' & _); discriminate Set'].
Qed.

Lemma settings_witness :
  exists st,
    load zero_batches = Ok st /\ BATCH_SIZE st = 0 /\ DEBUG_MODE st = true.
Proof.
  eexists. split; [reflexivity|].
  destruct (settings_are_taken_unchecked zero_batches _ eq_refl)
    as (_ & Size & _ & Debug).
  split.
  - apply (Size 0); [reflexivity | reflexivity].
  - apply Debug. exists "Yes". split; reflexivity.
Defined.

End SettingsLaws.
